(** * w3c_batch: the job pipeline, embedded and checked against its specification

    The development follows the TypeScript sources file by file:
    [types] (types.ts), [validator] (validator.ts), [utils] (utils.ts),
    [sitemap] (sitemap.ts) and [server] (server.ts, the HTTP front end that
    owns the jobs, the event buffer and the validation pipeline).

    Conventions.
    - JavaScript strings are [string]; [undefined] for an optional field is
      [None]; numbers that the pipeline only counts or subtracts are [nat]
      or [Z].
    - Platform classes that are not part of the repository (the WHATWG [URL]
      class, [fast-xml-parser], [axios], the HTML report generator) are
      section variables; only the part of their behaviour that the sources
      rely on is written out, and each such place says so.
    - An [await] is a point where the event loop may run another handler.
      The server is therefore a labelled transition system: a label is the
      completion of one awaited operation (with the value it produced) or
      one incoming HTTP request. *)

From stdpp Require Import base list strings pretty relations.
From Stdlib Require Import ZArith Lia.

Open Scope string_scope.
Open Scope list_scope.

(** ** types.ts *)

Module types.

Inductive MessageType := error | warning | info.

Record W3CMessage := {
  type : MessageType;
  message : string;
  extract : option string;
  firstLine : option Z;
  lastLine : option Z;
  firstColumn : option Z;
  lastColumn : option Z;
  subType : option string;
}.

Inductive PageStatus := clean | warnings | errors | failed.

Record PageResult := {
  url : string;
  sourceUrl : string;
  messages : list W3CMessage;
  status : PageStatus;
  errorMessage : option string;
  duration : option Z;
}.

Record ReportSummary := {
  totalPages : nat;
  pagesWithErrors : nat;
  pagesWithWarnings : nat;
  pagesClean : nat;
  pagesFailed : nat;
  totalErrors : nat;
  totalWarnings : nat;
  totalInfos : nat;
  generatedAt : string;
  sitemapUrl : string;
}.

Record Report := {
  summary : ReportSummary;
  pages : list PageResult;
}.

Definition MessageType_eqb (a b : MessageType) : bool :=
  match a, b with
  | error, error | warning, warning | info, info => true
  | _, _ => false
  end.

Definition PageStatus_eqb (a b : PageStatus) : bool :=
  match a, b with
  | clean, clean | warnings, warnings | errors, errors | failed, failed => true
  | _, _ => false
  end.

End types.

(** ** validator.ts *)

Module validator.
Import types.

(** One element of [W3CApiResponse.messages]: the checker's JSON, where
    [type] is any string. *)
Record ApiMessage := {
  api_type : string;
  api_subType : option string;
  api_message : string;
  api_extract : option string;
  api_firstLine : option Z;
  api_lastLine : option Z;
  api_firstColumn : option Z;
  api_lastColumn : option Z;
}.

Record W3CApiResponse := { api_messages : list ApiMessage }.

Definition normalizeType (type : string) (subType : option string) : MessageType :=
  if String.eqb type "error" then error
  else if String.eqb type "info" &&
          match subType with Some s => String.eqb s "warning" | None => false end
  then warning
  else info.

Definition mapMessages (data : W3CApiResponse) : list W3CMessage :=
  map (fun msg =>
         {| type := normalizeType (api_type msg) (api_subType msg);
            message := api_message msg;
            extract := api_extract msg;
            firstLine := api_firstLine msg;
            lastLine := api_lastLine msg;
            firstColumn := api_firstColumn msg;
            lastColumn := api_lastColumn msg;
            subType := api_subType msg |})
      (api_messages data).

End validator.

(** ** utils.ts *)

Module utils.

(** *** The platform's [URL] class

    [new URL(s)], the [protocol], [hostname] and [port] accessors and
    [toString()] belong to the runtime, which implements the WHATWG URL
    Standard.  The record and the three setters below are written from
    that standard; the string parser itself stays a section variable. *)

Inductive UrlPath :=
| OpaquePath (s : string)
| ListPath (segments : list string).

(** [host]: [None] is the null host, [Some ""] the empty host, otherwise
    the serialized host. *)
Record URL := {
  scheme : string;
  username : string;
  password : string;
  host : option string;
  port : option N;
  path : UrlPath;
  query : option string;
  fragment : option string;
}.

(** Special schemes and their default ports. *)
Definition special_schemes : list (string * option N) :=
  [ ("ftp", Some 21%N); ("file", None); ("http", Some 80%N);
    ("https", Some 443%N); ("ws", Some 80%N); ("wss", Some 443%N) ].

Fixpoint assoc {A} (k : string) (l : list (string * A)) : option A :=
  match l with
  | [] => None
  | (k', v) :: l' => if String.eqb k k' then Some v else assoc k l'
  end.

Definition is_special (s : string) : bool :=
  match assoc s special_schemes with Some _ => true | None => false end.

Definition default_port (s : string) : option N :=
  match assoc s special_schemes with Some p => p | None => None end.

Definition includes_credentials (u : URL) : bool :=
  negb (String.eqb (username u) "" && String.eqb (password u) "").

Definition has_opaque_path (u : URL) : bool :=
  match path u with OpaquePath _ => true | ListPath _ => false end.

Definition has_port (u : URL) : bool :=
  match port u with Some _ => true | None => false end.

Definition has_empty_host (u : URL) : bool :=
  match host u with Some h => String.eqb h "" | None => false end.

Definition cannot_have_username_password_port (u : URL) : bool :=
  match host u with
  | None => true
  | Some h => String.eqb h "" || String.eqb (scheme u) "file"
  end.

Definition port_eqb (a b : option N) : bool :=
  match a, b with
  | Some x, Some y => N.eqb x y
  | None, None => true
  | _, _ => false
  end.

Definition with_scheme (u : URL) (s : string) (p : option N) : URL :=
  {| scheme := s; username := username u; password := password u;
     host := host u; port := p; path := path u; query := query u;
     fragment := fragment u |}.

Definition with_host (u : URL) (h : option string) : URL :=
  {| scheme := scheme u; username := username u; password := password u;
     host := h; port := port u; path := path u; query := query u;
     fragment := fragment u |}.

Definition with_port (u : URL) (p : option N) : URL :=
  {| scheme := scheme u; username := username u; password := password u;
     host := host u; port := p; path := path u; query := query u;
     fragment := fragment u |}.

(** Getters.  [protocol] is the scheme followed by a colon; the setter
    reads it back up to that colon, so the setter below takes the scheme.
    [port] is the decimal port or the empty string; the setter below takes
    the number, [None] for the empty string. *)
Definition hostname (u : URL) : string :=
  match host u with Some h => h | None => "" end.

(** [u.protocol = s + ":"]: the scheme state of the URL parser run with a
    state override.  The four refusals are the standard's. *)
Definition set_protocol (u : URL) (buffer : string) : URL :=
  if is_special (scheme u) && negb (is_special buffer) then u
  else if negb (is_special (scheme u)) && is_special buffer then u
  else if (includes_credentials u || has_port u) && String.eqb buffer "file" then u
  else if String.eqb (scheme u) "file" && has_empty_host u then u
  else with_scheme u buffer
         (if port_eqb (port u) (default_port buffer) then None else port u).

Section Parser.

(** [new URL(s)]: [None] when the constructor throws. *)
Variable URL_parse : string -> option URL.

(** The host parser; the flag says that the URL is not special (opaque
    host).  The result is the serialized host. *)
Variable host_parse : bool -> string -> option string.

(** [u.hostname = value], for a [value] without delimiters (the
    [hostname] of another URL has none): the hostname state, or the file
    host state for a [file] URL, run with a state override. *)
Definition set_hostname (u : URL) (value : string) : URL :=
  if has_opaque_path u then u
  else if String.eqb (scheme u) "file" then
    if String.eqb value "" then with_host u (Some "")
    else match host_parse false value with
         | None => u
         | Some h => with_host u (Some (if String.eqb h "localhost" then "" else h))
         end
  else if String.eqb value "" then
    if is_special (scheme u) then u
    else if includes_credentials u || has_port u then u
    else with_host u (Some "")
  else match host_parse (negb (is_special (scheme u))) value with
       | None => u
       | Some h => with_host u (Some h)
       end.

(** [u.port = value]. *)
Definition set_port (u : URL) (value : option N) : URL :=
  if cannot_have_username_password_port u then u
  else match value with
       | None => with_port u None
       | Some p =>
           if (65535 <? p)%N then u
           else with_port u
                  (if port_eqb (Some p) (default_port (scheme u)) then None
                   else Some p)
       end.

(** The URL serializer ([toString()], [href]). *)
Definition serialize_path (p : UrlPath) : string :=
  match p with
  | OpaquePath s => s
  | ListPath segments => String.concat "" (map (fun s => "/" +:+ s) segments)
  end.

Definition serialize_port (p : option N) : string :=
  match p with Some n => ":" +:+ pretty n | None => "" end.

Definition href (u : URL) : string :=
  scheme u +:+ ":" +:+
  match host u with
  | Some h =>
      "//" +:+
      (if includes_credentials u then
         username u +:+
         (if String.eqb (password u) "" then "" else ":" +:+ password u) +:+ "@"
       else "") +:+
      h +:+ serialize_port (port u)
  | None =>
      match path u with
      | ListPath ("" :: _ :: _) => "/."
      | _ => ""
      end
  end +:+
  serialize_path (path u) +:+
  match query u with Some q => "?" +:+ q | None => "" end +:+
  match fragment u with Some f => "#" +:+ f | None => "" end.

(** The serialized origin: a tuple origin for the network schemes, the
    origin of the inner URL for [blob:], and ["null"] otherwise. *)
Definition tuple_origin (u : URL) : string :=
  scheme u +:+ "://" +:+ hostname u +:+ serialize_port (port u).

Definition origin (u : URL) : string :=
  if String.eqb (scheme u) "blob" then
    match URL_parse (serialize_path (path u)) with
    | Some inner =>
        if String.eqb (scheme inner) "http" || String.eqb (scheme inner) "https"
        then tuple_origin inner else "null"
    | None => "null"
    end
  else if String.eqb (scheme u) "file" then "null"
  else if is_special (scheme u) then tuple_origin u
  else "null".

(** *** utils.ts proper *)

(** The URL object that [resolveUrlToBase] serializes; [None] when one
    of the two constructors throws. *)
Definition resolveUrlToBase_url (locUrl baseUrl : string) : option URL :=
  match URL_parse locUrl with
  | None => None
  | Some loc =>
      match URL_parse baseUrl with
      | None => None
      | Some base =>
          let loc := set_protocol loc (scheme base) in
          let loc := set_hostname loc (hostname base) in
          let loc := set_port loc (port base) in
          Some loc
      end
  end.

Definition resolveUrlToBase (locUrl baseUrl : string) : option string :=
  match resolveUrlToBase_url locUrl baseUrl with
  | Some loc => Some (href loc)
  | None => None
  end.

Definition getOrigin (url : string) : option string :=
  match URL_parse url with
  | Some u => Some (origin u)
  | None => None
  end.

End Parser.

End utils.

(** ** sitemap.ts *)

Module sitemap.

Definition MAX_DEPTH : nat := 3.

(** What [parser.parse] returns, seen through the casts of the source:
    [parsed.sitemapindex] and [parsed.urlset] are [None] when the property
    is absent or falsy; [index.sitemap] and [urlset.url] are [None] when
    absent ([?? []] then supplies the empty array); the entries are
    [Record<string, string>], of which only [loc] is read. *)
Record Entry := { loc : option string }.
Record SitemapIndexNode := { sitemap : option (list Entry) }.
Record UrlSetNode := { url : option (list Entry) }.
Record Parsed := {
  sitemapindex : option SitemapIndexNode;
  urlset : option UrlSetNode;
}.

Definition or_empty {A} (o : option (list A)) : list A :=
  match o with Some l => l | None => [] end.

(** [typeof loc === 'string' && loc.length > 0], which for a string or
    [undefined] is also the truthiness of [entry.loc]. *)
Definition is_nonempty_string (loc : option string) : bool :=
  match loc with
  | Some s => negb (String.eqb s "")
  | None => false
  end.

(** [entries.map((entry) => entry.loc).filter(...)] *)
Fixpoint locs (entries : list Entry) : list string :=
  match entries with
  | [] => []
  | entry :: rest =>
      match loc entry with
      | Some s => if is_nonempty_string (Some s) then s :: locs rest else locs rest
      | None => locs rest
      end
  end.

Inductive ParseResult :=
| urls (urls : list string)
| sitemapindex_ (sitemapUrls : list string).

(** A call of [extractUrlsFromSitemap] either returns or throws an [Error]
    with a message. *)
Inductive Outcome (A : Type) :=
| Returned (a : A)
| Thrown (message : string)
| OutOfFuel.
Arguments Returned {A} a.
Arguments Thrown {A} message.
Arguments OutOfFuel {A}.

Section Parser.

(** [parser.parse(xmlText)]: the document, or the message of the error it
    throws.  Throughout, a thrown error is the left summand. *)
Variable parser_parse : string -> string + Parsed.

Definition parseUrlsFromXml (xmlText : string) : string + ParseResult :=
  match parser_parse xmlText with
  | inl message => inl message
  | inr parsed =>
      match urlset parsed with
      | Some urlset => inr (urls (locs (or_empty (url urlset))))
      | None =>
          match sitemapindex parsed with
          | Some index => inr (sitemapindex_ (locs (or_empty (sitemap index))))
          | None =>
              inl "Unrecognized XML format. Expected a sitemap <urlset> with <url> entries."
          end
      end
  end.

(** *** [extractUrlsFromSitemap]

    The network is a state [World]; [axios_get url w] is the response
    body or the error message, and the next state of the network.  The
    console is the list of lines written so far. *)
Variable World : Type.
Variable axios_get : string -> World -> (string + string) * World.

Record Env := { world : World; console : list string }.

Definition console_warn (line : string) (e : Env) : Env :=
  {| world := world e; console := console e ++ [line] |}.

Definition set_world (w : World) (e : Env) : Env :=
  {| world := w; console := console e |}.

(** The [for (const entry of sitemaps)] loop; [extract] is the recursive
    call at [depth + 1]. *)
Definition for_each_sitemap (extract : string -> Env -> Outcome (list string) * Env)
  : list Entry -> list string -> Env -> Outcome (list string) * Env :=
  fix loop (sitemaps : list Entry) (urls : list string) (e : Env) :=
    match sitemaps with
    | [] => (Returned urls, e)
    | entry :: sitemaps' =>
        match loc entry with
        | Some l =>
            if is_nonempty_string (Some l) then
              match extract l e with
              | (Returned nested, e') => loop sitemaps' (urls ++ nested) e'
              | (Thrown message, e') => (Thrown message, e')
              | (OutOfFuel, e') => (OutOfFuel, e')
              end
            else loop sitemaps' urls e
        | None => loop sitemaps' urls e
        end
    end.

(** The recursion of the source is on [depth], which grows up to
    [MAX_DEPTH + 1]; [fuel] makes it structural.  [extractUrlsFromSitemap]
    below supplies enough of it. *)
Fixpoint extractUrlsFromSitemap_fuel (fuel : nat) (sitemapUrl : string)
    (depth : nat) (e : Env) : Outcome (list string) * Env :=
  match fuel with
  | O => (OutOfFuel, e)
  | S fuel' =>
      if (MAX_DEPTH <? depth)%nat then
        (Returned [],
         console_warn ("Max sitemap depth (" +:+ pretty MAX_DEPTH +:+
                       ") reached, skipping: " +:+ sitemapUrl) e)
      else
        match axios_get sitemapUrl (world e) with
        | (inr message, w) =>
            (Thrown ("Failed to fetch sitemap at " +:+ sitemapUrl +:+ ": " +:+ message),
             set_world w e)
        | (inl xmlText, w) =>
            let e := set_world w e in
            match parser_parse xmlText with
            | inl message => (Thrown message, e)
            | inr parsed =>
                match sitemapindex parsed with
                | Some index =>
                    for_each_sitemap
                      (fun l e => extractUrlsFromSitemap_fuel fuel' l (depth + 1) e)
                      (or_empty (sitemap index)) [] e
                | None =>
                    match urlset parsed with
                    | Some urlset => (Returned (locs (or_empty (url urlset))), e)
                    | None =>
                        (Thrown ("Unrecognized sitemap format at " +:+ sitemapUrl), e)
                    end
                end
            end
        end
  end.

Definition extractUrlsFromSitemap (sitemapUrl : string) (depth : nat) (e : Env)
  : Outcome (list string) * Env :=
  extractUrlsFromSitemap_fuel (S (S MAX_DEPTH - depth)) sitemapUrl depth e.

End Parser.

End sitemap.

(** ** server.ts *)

Module server.
Import types.

(** *** Events

    [emit] pushes the text [data: <JSON of the event>] on the buffer; an
    event is kept here as the record that is serialized, one constructor
    per [type] tag that the server emits. *)
Inductive Event :=
| sitemap_error (message : string)
| sitemapindex_resolving (count : nat) (urls : list string)
| sitemapindex_fetching (url : string)
| sitemapindex_fetched (url : string) (count : nat)
| sitemapindex_fetch_error (url message : string)
| sitemapindex_resolved (totalUrls : nat)
| sitemap_done (count : nat) (urls : list string)
| page_fetching (index : nat) (url : string)
| page_validating (index : nat) (url : string)
| page_done (index : nat) (url : string) (status : PageStatus)
    (messages : list W3CMessage) (duration : option Z) (errorMessage : option string)
| cancelled
| done_ (summary : ReportSummary)
| stream_end.

Definition opt_string (o : option string) : list string :=
  match o with Some s => [s] | None => [] end.

Definition strings_of_message (m : W3CMessage) : list string :=
  message m :: opt_string (extract m) ++ opt_string (subType m).

(** The string values that [JSON.stringify] writes for an event, besides
    the [type] tag and the fixed enumeration values. *)
Definition strings_of_event (e : Event) : list string :=
  match e with
  | sitemap_error message => [message]
  | sitemapindex_resolving _ urls => urls
  | sitemapindex_fetching url => [url]
  | sitemapindex_fetched url _ => [url]
  | sitemapindex_fetch_error url message => [url; message]
  | sitemapindex_resolved _ => []
  | sitemap_done _ urls => urls
  | page_fetching _ url => [url]
  | page_validating _ url => [url]
  | page_done _ url _ messages _ errorMessage =>
      url :: flat_map strings_of_message messages ++ opt_string errorMessage
  | cancelled => []
  | done_ summary => [generatedAt summary; sitemapUrl summary]
  | stream_end => []
  end.

Fixpoint ends_with (suffix s : string) : bool :=
  String.eqb s suffix ||
  match s with
  | EmptyString => false
  | String _ s' => ends_with suffix s'
  end.

Definition quote : string := String (Ascii.ascii_of_nat 34) EmptyString.

(** [d.includes('"stream_end"')] on the serialized event.  In JSON text a
    quotation mark is a string delimiter or the second character of an
    escaped quotation mark, so the pattern occurs exactly when a string
    value is [stream_end] or ends with a quotation mark and [stream_end]. *)
Definition includes_stream_end (d : Event) : bool :=
  match d with
  | stream_end => true
  | _ =>
      List.existsb
        (fun s => String.eqb s "stream_end" || ends_with (quote +:+ "stream_end") s)
        (strings_of_event d)
  end.

(** *** Jobs and connections *)

(** A listener is the closure over one HTTP response; it is named by the
    position of that response in [conns]. *)
Record Job := {
  buffered : list Event;
  listeners : list nat;
  report : option string;
  done : bool;
  aborted : bool;
}.

(** The server's side of one [/api/stream] response: what was written
    before [res.end()]. *)
Record Response := {
  written : list Event;
  ended : bool;
}.

Definition res_write (d : Event) (res : Response) : Response :=
  if ended res then res
  else {| written := written res ++ [d]; ended := false |}.

Definition res_end (res : Response) : Response :=
  {| written := written res; ended := true |}.

(** [(d) => { res.write(d); if (d.includes('"stream_end"')) res.end() }] *)
Definition listener (d : Event) (res : Response) : Response :=
  let res := res_write d res in
  if includes_stream_end d then res_end res else res.

(** *** The pipeline between two awaits *)

Record Task := {
  index : nat;
  source : string;
  resolved : string;
}.

(** Where [runValidation] is suspended; [Start] before it is called. *)
Inductive Pc :=
| Start
| AwaitNested (sitemapUrl : string) (rest : list string) (rawUrls : list string)
| AwaitChecker (task : Task) (start : Z)
| AwaitSleep (task : Task) (ms : Z)
| Settled
| Rejected.

(** The body of a request: [xml] and [base] are read; the other
    properties of the JSON object are carried along and never read. *)
Record Params := {
  xml : string;
  base : string;
  concurrency : option nat;
  interTaskDelayMs : option nat;
}.

(** One job with its responses and the variables of its [runValidation]
    call that are read after the first [await]: [params_base] is
    [params.base], and [queue] holds the tasks that the limiter has not
    started yet. *)
Record Server := {
  job : Job;
  conns : list Response;
  pc : Pc;
  params_base : string;
  baseUrl : string;
  queue : list Task;
  results : list (option PageResult);
}.

(** [Date.now()] and [new Date().toISOString()] at the time a handler
    runs. *)
Record Clock := { now : Z; iso : string }.

Definition createJob : Job :=
  {| buffered := []; listeners := []; report := None; done := false; aborted := false |}.

Definition set_job (j : Job) (s : Server) : Server :=
  {| job := j; conns := conns s; pc := pc s; params_base := params_base s;
     baseUrl := baseUrl s; queue := queue s; results := results s |}.

Definition set_pc (p : Pc) (s : Server) : Server :=
  {| job := job s; conns := conns s; pc := p; params_base := params_base s;
     baseUrl := baseUrl s; queue := queue s; results := results s |}.

Definition set_conns (c : list Response) (s : Server) : Server :=
  {| job := job s; conns := c; pc := pc s; params_base := params_base s;
     baseUrl := baseUrl s; queue := queue s; results := results s |}.

Definition set_queue (q : list Task) (s : Server) : Server :=
  {| job := job s; conns := conns s; pc := pc s; params_base := params_base s;
     baseUrl := baseUrl s; queue := q; results := results s |}.

Definition set_results (r : list (option PageResult)) (s : Server) : Server :=
  {| job := job s; conns := conns s; pc := pc s; params_base := params_base s;
     baseUrl := baseUrl s; queue := queue s; results := r |}.

Definition set_baseUrl (b : string) (s : Server) : Server :=
  {| job := job s; conns := conns s; pc := pc s; params_base := params_base s;
     baseUrl := b; queue := queue s; results := results s |}.

(** [job.buffered.push(data); job.listeners.forEach((fn) => fn(data))] *)
Definition emit (event : Event) (s : Server) : Server :=
  let j := job s in
  let j := {| buffered := buffered j ++ [event]; listeners := listeners j;
              report := report j; done := done j; aborted := aborted j |} in
  let conns := fold_left (fun cs c => alter (listener event) c cs) (listeners j) (conns s) in
  set_conns conns (set_job j s).

Definition endJob (s : Server) : Server :=
  let s := emit stream_end s in
  let j := job s in
  set_job {| buffered := buffered j; listeners := listeners j;
             report := report j; done := true; aborted := aborted j |} s.

Definition count_type (t : MessageType) (messages : list W3CMessage) : nat :=
  length (List.filter (fun m => MessageType_eqb (type m) t) messages).

Definition count_status (st : PageStatus) (valid : list PageResult) : nat :=
  length (List.filter (fun r => PageStatus_eqb (status r) st) valid).

(** [results.filter(Boolean)]: the slots that were written. *)
Definition filter_Boolean (results : list (option PageResult)) : list PageResult :=
  omap id results.

Definition make_summary (valid : list PageResult) (generatedAt sitemapUrl : string)
  : ReportSummary :=
  {| totalPages := length valid;
     pagesWithErrors := count_status errors valid;
     pagesWithWarnings := count_status warnings valid;
     pagesClean := count_status clean valid;
     pagesFailed := count_status failed valid;
     totalErrors := fold_left (fun s r => s + count_type error (messages r)) valid 0;
     totalWarnings := fold_left (fun s r => s + count_type warning (messages r)) valid 0;
     totalInfos := fold_left (fun s r => s + count_type info (messages r)) valid 0;
     generatedAt := generatedAt;
     sitemapUrl := sitemapUrl |}.

(** The [try] block of a task after [validatePage] resolved with
    [messages]. *)
Definition classify (messages : list W3CMessage) : PageStatus :=
  let n_errors := count_type error messages in
  let n_warnings := count_type warning messages in
  if (0 <? n_errors)%nat then errors
  else if (0 <? n_warnings)%nat then warnings
  else clean.

(** The [PageResult] of a task: [outcome] is the value [validatePage]
    resolved with, or the message of the error it rejected with. *)
Definition page_result (t : Task) (outcome : list W3CMessage + string) (duration : Z)
  : PageResult :=
  match outcome with
  | inl messages =>
      {| url := resolved t; sourceUrl := source t; messages := messages;
         status := classify messages; errorMessage := None;
         duration := Some duration |}
  | inr message =>
      {| url := resolved t; sourceUrl := source t; messages := [];
         status := failed; errorMessage := Some message;
         duration := Some duration |}
  end.

(** The pacing constants of the source: [pLimit(1)] and [sleep(1000)]. *)
Definition LIMIT : nat := 1.
Definition SLEEP_MS : Z := 1000.

Definition set_report (r : string) (j : Job) : Job :=
  {| buffered := buffered j; listeners := listeners j; report := Some r;
     done := done j; aborted := aborted j |}.

Definition set_aborted (j : Job) : Job :=
  {| buffered := buffered j; listeners := listeners j; report := report j;
     done := done j; aborted := true |}.

Definition set_listeners (l : list nat) (j : Job) : Job :=
  {| buffered := buffered j; listeners := l; report := report j;
     done := done j; aborted := aborted j |}.

(** [resolvedUrls.map(({ source, resolved }, index) => limit(...))] *)
Fixpoint make_tasks (index : nat) (resolvedUrls : list (string * string)) : list Task :=
  match resolvedUrls with
  | [] => []
  | (source, resolved) :: rest =>
      {| index := index; source := source; resolved := resolved |}
        :: make_tasks (S index) rest
  end.

(** A task that does not find [job.aborted], up to its
    [await validatePage(resolved)]; [q] is what stays queued. *)
Definition start_task (t : Task) (q : list Task) (clk : Clock) (s : Server) : Server :=
  let start := now clk in
  let s := emit (page_fetching (index t) (resolved t)) s in
  set_pc (AwaitChecker t start) (set_queue q s).

(** The events of a task after [validatePage] settled with [outcome];
    [result] is its [PageResult]. *)
Definition page_events (t : Task) (outcome : list W3CMessage + string)
    (result : PageResult) : list Event :=
  match outcome with
  | inl _ => [page_validating (index t) (resolved t)]
  | inr _ => []
  end ++
  [page_done (index t) (url result) (status result) (messages result)
     (duration result) (errorMessage result)].

Section Platform.

Variable URL_parse : string -> option utils.URL.
Variable host_parse : bool -> string -> option string.
(** [String.prototype.trim] *)
Variable String_trim : string -> string.
Variable parser_parse : string -> string + sitemap.Parsed.
(** html-report.ts *)
Variable generateHtmlReport : Report -> string.

(** After [await Promise.all(tasks)]. *)
Definition finish (clk : Clock) (s : Server) : Server :=
  let valid := filter_Boolean (results s) in
  let summary := make_summary valid (iso clk) (baseUrl s) in
  let s := set_job (set_report (generateHtmlReport {| summary := summary; pages := valid |})
                      (job s)) s in
  let s := emit (done_ summary) s in
  set_pc Settled (endJob s).

(** The limiter takes the next task when the running one has settled.
    With [pLimit(1)] one task runs at a time; a task that finds
    [job.aborted] returns at once, and the limiter goes on to the next
    one in the same turn of the event loop. *)
Fixpoint run_queue (q : list Task) (clk : Clock) (s : Server) : Server :=
  match q with
  | [] => finish clk (set_queue [] s)
  | t :: q' =>
      if aborted (job s) then run_queue q' clk s
      else start_task t q' clk s
  end.

(** A task from the return of [validatePage] to its [await sleep(1000)]. *)
Definition task_checked (t : Task) (start : Z) (outcome : list W3CMessage + string)
    (clk : Clock) (s : Server) : Server :=
  let s := match outcome with
           | inl _ => emit (page_validating (index t) (resolved t)) s
           | inr _ => s
           end in
  let result := page_result t outcome (now clk - start) in
  let s := set_results (<[index t := Some result]> (results s)) s in
  let s := emit (page_done (index t) (url result) (status result) (messages result)
                   (duration result) (errorMessage result)) s in
  set_pc (AwaitSleep t SLEEP_MS) s.

(** A job before [runValidation] is called on it. *)
Definition created (p : Params) : Server :=
  {| job := createJob; conns := []; pc := Start; params_base := base p;
     baseUrl := ""; queue := []; results := [] |}.

(** [rawUrls.map((url) => ({ source: url, resolved: resolveUrlToBase(url, baseUrl) }))];
    [None] when [resolveUrlToBase] throws. *)
Fixpoint resolve_all (rawUrls : list string) (baseUrl : string)
  : option (list (string * string)) :=
  match rawUrls with
  | [] => Some []
  | url :: rest =>
      match utils.resolveUrlToBase URL_parse host_parse url baseUrl with
      | None => None
      | Some resolved =>
          match resolve_all rest baseUrl with
          | None => None
          | Some l => Some ((url, resolved) :: l)
          end
      end
  end.

(** [runValidation] from [if (rawUrls.length === 0)] to the start of the
    first task.  An error thrown here is not caught: the promise of
    [runValidation] is rejected and only logged. *)
Definition start_pages (rawUrls : list string) (clk : Clock) (s : Server) : Server :=
  match rawUrls with
  | [] =>
      set_pc Settled
        (endJob (emit (sitemap_error "No <url> entries found in the sitemap XML.") s))
  | first :: _ =>
      let trimmed := String_trim (params_base s) in
      match (if String.eqb trimmed "" then utils.getOrigin URL_parse first
             else Some trimmed) with
      | None => set_pc Rejected s
      | Some baseUrl =>
          match resolve_all rawUrls baseUrl with
          | None => set_pc Rejected s
          | Some resolvedUrls =>
              let s := set_baseUrl baseUrl s in
              let s := emit (sitemap_done (length resolvedUrls) (map snd resolvedUrls)) s in
              let s := set_results (replicate (length resolvedUrls) None) s in
              run_queue (make_tasks 0 resolvedUrls) clk s
          end
      end
  end.

(** The [for (const sitemapUrl of result.sitemapUrls)] loop up to its
    [await axios.get]. *)
Definition nested_loop (sitemapUrls rawUrls : list string) (clk : Clock) (s : Server)
  : Server :=
  match sitemapUrls with
  | [] => start_pages rawUrls clk (emit (sitemapindex_resolved (length rawUrls)) s)
  | sitemapUrl :: rest =>
      set_pc (AwaitNested sitemapUrl rest rawUrls)
        (emit (sitemapindex_fetching sitemapUrl) s)
  end.

(** The rest of one iteration: [resp] is the body that [axios.get]
    resolved with, or the message of its error. *)
Definition nested_fetched (sitemapUrl : string) (rest rawUrls : list string)
    (resp : string + string) (clk : Clock) (s : Server) : Server :=
  match resp with
  | inl data =>
      match sitemap.parseUrlsFromXml parser_parse data with
      | inr (sitemap.urls nested) =>
          nested_loop rest (rawUrls ++ nested) clk
            (emit (sitemapindex_fetched sitemapUrl (length nested)) s)
      | inr (sitemap.sitemapindex_ _) => nested_loop rest rawUrls clk s
      | inl message =>
          nested_loop rest rawUrls clk (emit (sitemapindex_fetch_error sitemapUrl message) s)
      end
  | inr message =>
      nested_loop rest rawUrls clk (emit (sitemapindex_fetch_error sitemapUrl message) s)
  end.

(** [runValidation] up to its first [await]. *)
Definition runValidation (params : Params) (clk : Clock) (s : Server) : Server :=
  match sitemap.parseUrlsFromXml parser_parse (xml params) with
  | inl message => set_pc Settled (endJob (emit (sitemap_error message) s))
  | inr (sitemap.urls rawUrls) => start_pages rawUrls clk s
  | inr (sitemap.sitemapindex_ sitemapUrls) =>
      nested_loop sitemapUrls [] clk
        (emit (sitemapindex_resolving (length sitemapUrls) sitemapUrls) s)
  end.

(** *** The request handlers *)

(** [POST /api/validate]: [createJob()] and the call of [runValidation]. *)
Definition post_validate (p : Params) (clk : Clock) : Server :=
  runValidation p clk (created p).

(** [POST /api/abort/:id] *)
Definition post_abort (s : Server) : Server :=
  let s := set_job (set_aborted (job s)) s in
  let s := emit cancelled s in
  endJob s.

(** [GET /api/stream/:id]: the new response is the last of [conns]. *)
Definition get_stream (s : Server) : Server :=
  let res := fold_left (fun res d => res_write d res) (buffered (job s))
               {| written := []; ended := false |} in
  if done (job s) then set_conns (conns s ++ [res_end res]) s
  else
    let listener := length (conns s) in
    set_job (set_listeners (listeners (job s) ++ [listener]) (job s))
      (set_conns (conns s ++ [res]) s).

(** [req.on('close', () => job.listeners.delete(listener))] *)
Definition on_close (conn : nat) (s : Server) : Server :=
  set_job (set_listeners (List.filter (fun c => negb (Nat.eqb c conn)) (listeners (job s)))
             (job s)) s.

(** *** The event loop *)

Inductive Label :=
| NestedFetchDone (resp : string + string) (clk : Clock)
| CheckerDone (outcome : list W3CMessage + string) (clk : Clock)
| SleepDone (clk : Clock)
| PostAbort
| GetStream
| Close (conn : nat).

(** One turn of the event loop.  A completion that nothing awaits does
    not occur; the step function leaves the state as it is. *)
Definition step (s : Server) (l : Label) : Server :=
  match l, pc s with
  | NestedFetchDone resp clk, AwaitNested sitemapUrl rest rawUrls =>
      nested_fetched sitemapUrl rest rawUrls resp clk s
  | CheckerDone outcome clk, AwaitChecker t start =>
      task_checked t start outcome clk s
  | SleepDone clk, AwaitSleep _ _ => run_queue (queue s) clk s
  | PostAbort, _ => post_abort s
  | GetStream, _ => get_stream s
  | Close conn, _ => on_close conn s
  | _, _ => s
  end.

Definition run (p : Params) (clk : Clock) (labels : list Label) : Server :=
  fold_left step labels (post_validate p clk).

End Platform.

End server.

(** ** Concrete inputs

    A small instance of the platform, used to run the model: a URL table
    holding the parse of each URL below as the URL Standard gives it, a host
    parser that accepts a serialized host as it is, and the documents of a
    two-page site, of a sitemap index and of an index nested in it. *)

Module examples.
Import types utils sitemap server.

Definition web (scheme host : string) (port : option N) (segments : list string) : URL :=
  {| scheme := scheme; username := ""; password := ""; host := Some host;
     port := port; path := ListPath segments; query := None; fragment := None |}.

Definition URL_parse (s : string) : option URL :=
  if String.eqb s "https://example.com/a" then Some (web "https" "example.com" None ["a"])
  else if String.eqb s "https://example.com/b" then Some (web "https" "example.com" None ["b"])
  else if String.eqb s "https://example.com" then Some (web "https" "example.com" None [""])
  else if String.eqb s "http://localhost:3000" then
    Some (web "http" "localhost" (Some 3000%N) [""])
  else if String.eqb s "https://example.com/nested.xml" then
    Some (web "https" "example.com" None ["nested.xml"])
  else if String.eqb s "mailto:team@example.com" then
    Some {| scheme := "mailto"; username := ""; password := ""; host := None;
            port := None; path := OpaquePath "team@example.com"; query := None;
            fragment := None |}
  else None.

Definition host_parse (opaque : bool) (s : string) : option string :=
  if String.eqb s "" then None else Some s.

Definition String_trim (s : string) : string := s.

Definition entry (l : string) : Entry := {| loc := Some l |}.

Definition xml_two_pages : string :=
  "<urlset><url><loc>https://example.com/a</loc></url><url><loc>https://example.com/b</loc></url></urlset>".

Definition xml_index : string :=
  "<sitemapindex><sitemap><loc>https://example.com/nested.xml</loc></sitemap></sitemapindex>".

Definition xml_inner_index : string :=
  "<sitemapindex><sitemap><loc>https://example.com/deep.xml</loc></sitemap></sitemapindex>".

Definition parser_parse (s : string) : string + Parsed :=
  if String.eqb s xml_two_pages then
    inr {| sitemapindex := None;
           urlset := Some {| url := Some [entry "https://example.com/a";
                                          entry "https://example.com/b"] |} |}
  else if String.eqb s xml_index then
    inr {| sitemapindex :=
             Some {| sitemap := Some [entry "https://example.com/nested.xml"] |};
           urlset := None |}
  else if String.eqb s xml_inner_index then
    inr {| sitemapindex :=
             Some {| sitemap := Some [entry "https://example.com/deep.xml"] |};
           urlset := None |}
  else inr {| sitemapindex := None; urlset := None |}.

Definition generateHtmlReport (r : Report) : string := "<html></html>".

(** A network in which every sitemap is an index of one further sitemap. *)
Definition axios_get (url : string) (w : nat) : (string + string) * nat :=
  (inl xml_inner_index, S w).

Definition clock (t : Z) : Clock := {| now := t; iso := "2024-01-01T00:00:00.000Z" |}.

Definition two_pages (c d : option nat) : Params :=
  {| xml := xml_two_pages; base := ""; concurrency := c; interTaskDelayMs := d |}.

Definition index_of_index : Params :=
  {| xml := xml_index; base := ""; concurrency := None; interTaskDelayMs := None |}.

Definition run : Params -> Clock -> list Label -> Server :=
  server.run URL_parse host_parse String_trim parser_parse generateHtmlReport.

(** The turns of a job of two pages that both validate without a message. *)
Definition both_pages_clean : list Label :=
  [CheckerDone (inl []) (clock 5); SleepDone (clock 1005);
   CheckerDone (inl []) (clock 1010); SleepDone (clock 2010)].

End examples.

(** ** Statements

    Predicates in which the properties below are phrased. *)

Module statements.
Import types utils sitemap server.

(** The URL resolver's contract, in the words of the specification: when
    both inputs parse, the result has the base's scheme, host and port and
    the discovered URL's path and query; when one does not parse, the
    operation fails. *)
Definition resolves_to_base (URL_parse : string -> option URL)
    (host_parse : bool -> string -> option string) (locUrl baseUrl : string) : Prop :=
  match URL_parse locUrl, URL_parse baseUrl with
  | Some loc, Some base =>
      exists u,
        resolveUrlToBase_url URL_parse host_parse locUrl baseUrl = Some u /\
        resolveUrlToBase URL_parse host_parse locUrl baseUrl = Some (href u) /\
        scheme u = scheme base /\ host u = host base /\ port u = port base /\
        path u = path loc /\ query u = query loc
  | _, _ => resolveUrlToBase URL_parse host_parse locUrl baseUrl = None
  end.

(** The line that [console.warn] writes for a sitemap beyond the bound. *)
Definition skip_line (sitemapUrl : string) : string :=
  "Max sitemap depth (3) reached, skipping: " +:+ sitemapUrl.

(** The schemes with a network host: the special schemes but [file]. *)
Definition is_network_scheme (s : string) : bool :=
  is_special s && negb (String.eqb s "file").

(** The form in which the URL parser leaves a URL with a network scheme:
    a list path, a host that is not empty and that the host parser takes
    back as it is, and a port that is not the default port of the scheme
    and fits sixteen bits. *)
Definition network_url (host_parse : bool -> string -> option string) (u : URL) : Prop :=
  is_network_scheme (scheme u) = true /\
  has_opaque_path u = false /\
  (exists h, host u = Some h /\ h <> "" /\ host_parse false h = Some h) /\
  match port u with
  | Some p => (p <= 65535)%N /\ default_port (scheme u) <> Some p
  | None => True
  end.

(** *** Turns of the pipeline

    A handler is a sequence of the moves below.  Each move says what it
    does to the buffer, the flags, the program point, the queue and the
    results; [frozen] says that a response that was ended keeps what was
    written to it. *)

Definition frozen (s s' : Server) : Prop :=
  forall c r, conns s !! c = Some r -> ended r = true -> conns s' !! c = Some r.

Definition sitemap_phase (p : Pc) : bool :=
  match p with Start | AwaitNested _ _ _ => true | _ => false end.

Definition may_dequeue (p : Pc) : bool :=
  match p with Start | AwaitNested _ _ _ | AwaitSleep _ _ => true | _ => false end.

Definition is_index_event (e : Event) : bool :=
  match e with
  | sitemapindex_resolving _ _ | sitemapindex_fetching _ | sitemapindex_fetched _ _
  | sitemapindex_fetch_error _ _ | sitemapindex_resolved _ => true
  | _ => false
  end.

Inductive pstep (s s' : Server) : Prop :=
| P_quiet :
    buffered (job s') = buffered (job s) ->
    done (job s') = done (job s) -> aborted (job s') = aborted (job s) ->
    pc s' = pc s -> queue s' = queue s -> results s' = results s ->
    baseUrl s' = baseUrl s -> frozen s s' ->
    pstep s s'
| P_index (e : Event) :
    sitemap_phase (pc s) = true -> sitemap_phase (pc s') = true ->
    is_index_event e = true ->
    buffered (job s') = buffered (job s) ++ [e] ->
    done (job s') = done (job s) -> aborted (job s') = aborted (job s) ->
    queue s' = queue s -> results s' = results s ->
    baseUrl s' = baseUrl s -> frozen s s' ->
    pstep s s'
| P_sitemap_error (message : string) :
    sitemap_phase (pc s) = true -> pc s' = Settled ->
    buffered (job s') = buffered (job s) ++ [sitemap_error message; stream_end] ->
    done (job s') = true -> aborted (job s') = aborted (job s) ->
    queue s' = queue s -> results s' = results s ->
    baseUrl s' = baseUrl s -> frozen s s' ->
    pstep s s'
| P_reject :
    sitemap_phase (pc s) = true -> pc s' = Rejected ->
    buffered (job s') = buffered (job s) ->
    done (job s') = done (job s) -> aborted (job s') = aborted (job s) ->
    queue s' = queue s -> results s' = results s ->
    baseUrl s' = baseUrl s -> frozen s s' ->
    pstep s s'
| P_sitemap_done (urls : list string) (t : Task) :
    sitemap_phase (pc s) = true -> pc s' = AwaitSleep t SLEEP_MS ->
    buffered (job s') = buffered (job s) ++ [sitemap_done (length urls) urls] ->
    done (job s') = done (job s) -> aborted (job s') = aborted (job s) ->
    map index (queue s') = seq 0 (length urls) ->
    results s' = replicate (length urls) None ->
    frozen s s' ->
    pstep s s'
| P_start (t : Task) (q : list Task) (start : Z) :
    may_dequeue (pc s) = true -> pc s' = AwaitChecker t start ->
    queue s = t :: q -> queue s' = q ->
    aborted (job s) = false ->
    buffered (job s') = buffered (job s) ++ [page_fetching (index t) (resolved t)] ->
    done (job s') = done (job s) -> aborted (job s') = aborted (job s) ->
    results s' = results s -> baseUrl s' = baseUrl s -> frozen s s' ->
    pstep s s'
| P_finish (generatedAt : string) :
    may_dequeue (pc s) = true -> pc s' = Settled ->
    aborted (job s) = true \/ queue s = [] ->
    queue s' = [] ->
    buffered (job s') =
      buffered (job s) ++
      [done_ (make_summary (filter_Boolean (results s)) generatedAt (baseUrl s));
       stream_end] ->
    done (job s') = true -> aborted (job s') = aborted (job s) ->
    results s' = results s -> baseUrl s' = baseUrl s -> frozen s s' ->
    pstep s s'
| P_checked (t : Task) (start : Z) (outcome : list W3CMessage + string) (d : Z) :
    pc s = AwaitChecker t start -> pc s' = AwaitSleep t SLEEP_MS ->
    buffered (job s') =
      buffered (job s) ++ page_events t outcome (page_result t outcome d) ->
    results s' = <[index t := Some (page_result t outcome d)]> (results s) ->
    done (job s') = done (job s) -> aborted (job s') = aborted (job s) ->
    queue s' = queue s -> baseUrl s' = baseUrl s -> frozen s s' ->
    pstep s s'.

(** *** Counting events *)

Definition is_cancelled (e : Event) : bool :=
  match e with cancelled => true | _ => false end.

Definition is_done (e : Event) : bool :=
  match e with done_ _ => true | _ => false end.

Definition is_page_fetching (e : Event) : bool :=
  match e with page_fetching _ _ => true | _ => false end.

Definition is_page_done (e : Event) : bool :=
  match e with page_done _ _ _ _ _ _ => true | _ => false end.

(** The terminal events of the specification that the server emits (it has
    no [error] event). *)
Definition is_terminal (e : Event) : bool :=
  match e with done_ _ | cancelled => true | _ => false end.

(** The events that can close a sequence: a terminal event, [sitemap_error],
    or the [stream_end] marker that follows them. *)
Definition closes_stream (e : Event) : bool :=
  match e with done_ _ | cancelled | sitemap_error _ | stream_end => true | _ => false end.

(** The turns in which the checker calls of the remaining pages settle with
    [outcomes], one after the other, each followed by the end of its sleep. *)
Definition settle_all (clk : Clock) (outcomes : list (list W3CMessage + string))
  : list Label :=
  flat_map (fun o => [CheckerDone o clk; SleepDone clk]) outcomes.

Definition count (f : Event -> bool) (l : list Event) : nat :=
  length (List.filter f l).

Definition is_abort (l : Label) : bool :=
  match l with PostAbort => true | _ => false end.

Definition count_aborts (labels : list Label) : nat :=
  length (List.filter is_abort labels).

(** *** Invariants of the reachable states *)

(** Every [page_fetching] event comes before every [cancelled] event. *)
Definition fetch_before_cancel (buf : list Event) : Prop :=
  forall i j k u,
    buf !! i = Some cancelled -> buf !! j = Some (page_fetching k u) -> j < i.

Definition abort_inv (s : Server) : Prop :=
  (1 <= count is_cancelled (buffered (job s)) -> aborted (job s) = true) /\
  fetch_before_cancel (buffered (job s)).

Definition done_inv (s : Server) : Prop :=
  count is_done (buffered (job s)) <= 1 /\
  (1 <= count is_done (buffered (job s)) -> pc s = Settled).

(** The indices of the tasks that have not written their result: the one
    awaiting the checker and the queued ones. *)
Definition pending (s : Server) : list nat :=
  match pc s with AwaitChecker t _ => [index t] | _ => [] end ++ map index (queue s).

(** Before the pages start there is neither queue nor results; a [done]
    event carries the summary of the results as they are; a slot that is
    not written belongs to a pending task unless the job was aborted; the
    count that [sitemap_done] announced is the size of the results array. *)
Definition summary_inv (s : Server) : Prop :=
  (sitemap_phase (pc s) = true -> queue s = [] /\ results s = []) /\
  (forall summary,
      In (done_ summary) (buffered (job s)) ->
      pc s = Settled /\
      exists generatedAt,
        summary = make_summary (filter_Boolean (results s)) generatedAt (baseUrl s)) /\
  (forall i,
      results s !! i = Some None ->
      aborted (job s) = true \/ (pc s <> Settled /\ In i (pending s))) /\
  (forall n urls,
      In (sitemap_done n urls) (buffered (job s)) ->
      sitemap_phase (pc s) = false /\ length (results s) = n /\ length urls = n).

(** The slots of the limiter that are taken: a task holds its slot from its
    start to the end of its sleep. *)
Definition slots_held (s : Server) : nat :=
  match pc s with AwaitChecker _ _ | AwaitSleep _ _ => 1 | _ => 0 end.

(** Every sleep lasts [SLEEP_MS]; the one task that has emitted
    [page_fetching] and not yet [page_done] is the one awaiting the
    checker; tasks wait in the queue only while the slot is taken. *)
Definition pace_inv (s : Server) : Prop :=
  (forall t ms, pc s = AwaitSleep t ms -> ms = SLEEP_MS) /\
  count is_page_fetching (buffered (job s)) =
    count is_page_done (buffered (job s)) +
    match pc s with AwaitChecker _ _ => 1 | _ => 0 end /\
  (queue s = [] \/ slots_held s = LIMIT).

(** A job marked [done] has emitted [stream_end], and the buffer of a job
    whose [runValidation] has returned ends with it. *)
Definition stream_inv (s : Server) : Prop :=
  (done (job s) = true -> In stream_end (buffered (job s))) /\
  (pc s = Settled -> last (buffered (job s)) = Some stream_end).

(** The tasks that have started and not finished. *)
Definition in_flight (buf : list Event) : nat :=
  count is_page_fetching buf - count is_page_done buf.

(** *** The registry's contract in the words of the specification *)

(** The options of a submission, with the defaults that the specification
    gives them. *)
Definition requested_concurrency (p : Params) : nat :=
  match concurrency p with Some c => c | None => 1 end.

Definition requested_delay (p : Params) : Z :=
  match interTaskDelayMs p with Some d => Z.of_nat d | None => 1000%Z end.

(** The pipeline honours the options: the limiter has the submitted width
    (no more slots are taken, and a task waits in the queue only when all
    of them are) and every task sleeps the submitted delay. *)
Definition honours_options (run : list Label -> Server) (p : Params) : Prop :=
  forall labels,
    let s := run labels in
    slots_held s <= requested_concurrency p /\
    (queue s <> [] -> slots_held s = requested_concurrency p) /\
    (forall t ms, pc s = AwaitSleep t ms -> ms = requested_delay p).

(** An observer attached to a job marked [done] receives a sequence that
    ends in a terminal event. *)
Definition late_observer_ends_terminal (s : Server) : Prop :=
  done (job s) = true ->
  exists r pre e,
    conns (get_stream s) !! length (conns s) = Some r /\
    written r = pre ++ [e] /\ closes_stream e = true.

(** The counts of the final summary add up to [totalPages], which is the
    number of resolved URLs (the count that [sitemap_done] announced). *)
Definition summary_covers_all_urls (s : Server) : Prop :=
  forall summary,
    In (done_ summary) (buffered (job s)) ->
    pagesClean summary + pagesWithWarnings summary + pagesWithErrors summary +
      pagesFailed summary = totalPages summary /\
    forall n urls,
      In (sitemap_done n urls) (buffered (job s)) -> totalPages summary = n.

(** Once a terminal event is in the buffer, the buffer does not change. *)
Definition frozen_once_terminal (run : list Label -> Server) : Prop :=
  forall labels l,
    List.existsb is_terminal (buffered (job (run labels))) = true ->
    buffered (job (run (labels ++ [l]))) = buffered (job (run labels)).

(** Two or more abort calls produce exactly one [cancelled] event. *)
Definition abort_idempotent (run : list Label -> Server) : Prop :=
  forall labels,
    2 <= count_aborts labels ->
    count is_cancelled (buffered (job (run labels))) = 1.

End statements.

(** ** html-report.ts: escaping *)

Module html_report.

(** [str.replace(/c/g, rep)] for a pattern of one character. *)
Fixpoint replace_all (c : Ascii.ascii) (rep : string) (str : string) : string :=
  match str with
  | EmptyString => EmptyString
  | String a rest =>
      if Ascii.eqb a c then rep +:+ replace_all c rep rest
      else String a (replace_all c rep rest)
  end.

Definition c_amp : Ascii.ascii := Ascii.ascii_of_nat 38.
Definition c_lt : Ascii.ascii := Ascii.ascii_of_nat 60.
Definition c_gt : Ascii.ascii := Ascii.ascii_of_nat 62.
Definition c_quot : Ascii.ascii := Ascii.ascii_of_nat 34.
Definition c_apos : Ascii.ascii := Ascii.ascii_of_nat 39.

Definition escapeHtml (str : string) : string :=
  replace_all c_apos "&#39;"
    (replace_all c_quot "&quot;"
       (replace_all c_gt "&gt;"
          (replace_all c_lt "&lt;"
             (replace_all c_amp "&amp;" str)))).

(** What one character becomes. *)
Definition escape_char (a : Ascii.ascii) : string :=
  if Ascii.eqb a c_amp then "&amp;"
  else if Ascii.eqb a c_lt then "&lt;"
  else if Ascii.eqb a c_gt then "&gt;"
  else if Ascii.eqb a c_quot then "&quot;"
  else if Ascii.eqb a c_apos then "&#39;"
  else String a EmptyString.

Definition is_markup (a : Ascii.ascii) : bool :=
  Ascii.eqb a c_lt || Ascii.eqb a c_gt || Ascii.eqb a c_quot || Ascii.eqb a c_apos.

Fixpoint chars (s : string) : list Ascii.ascii :=
  match s with
  | EmptyString => []
  | String a rest => a :: chars rest
  end.

End html_report.

(** ** validator.ts and the page check: the calls to the network *)

Module checker.
Import types validator.

Definition W3C_VALIDATOR_URL : string := "https://validator.w3.org/nu/?out=json".

(** [url.includes(sub)] *)
Fixpoint includes (sub url : string) : bool :=
  String.prefix sub url ||
  match url with
  | EmptyString => false
  | String _ rest => includes sub rest
  end.

(** The requests that were made, in order. *)
Inductive Call :=
| GetPage (url : string)
| PostMarkup (html : string)
| GetCheck (reqUrl : string).

Section Net.

Variable URL_parse : string -> option utils.URL.
Variable encodeURIComponent : string -> string.

(** The network is a state [World].  A request gives the response data or
    the message of the error that axios rejects with, and the next state. *)
Variable World : Type.
Variable get_text : string -> World -> (string + string) * World.
Variable post_html : string -> string -> World -> (W3CApiResponse + string) * World.
Variable get_json : string -> World -> (W3CApiResponse + string) * World.

Record Env := { world : World; calls : list Call }.

Definition called (c : Call) (w : World) (e : Env) : Env :=
  {| world := w; calls := calls e ++ [c] |}.

(** utils.ts *)
Definition isLocalhost (url : string) : bool :=
  match URL_parse url with
  | Some parsed =>
      String.eqb (utils.hostname parsed) "localhost" ||
      String.eqb (utils.hostname parsed) "127.0.0.1"
  | None => includes "localhost" url || includes "127.0.0.1" url
  end.

Definition fetchPageHtml (url : string) (e : Env) : (string + string) * Env :=
  let (r, w) := get_text url (world e) in
  (r, called (GetPage url) w e).

Definition validateHtml (html : string) (e : Env) : (list W3CMessage + string) * Env :=
  let (r, w) := post_html W3C_VALIDATOR_URL html (world e) in
  (match r with inl data => inl (mapMessages data) | inr message => inr message end,
   called (PostMarkup html) w e).

Definition validateUrl (url : string) (e : Env) : (list W3CMessage + string) * Env :=
  let reqUrl := W3C_VALIDATOR_URL +:+ "&doc=" +:+ encodeURIComponent url in
  let (r, w) := get_json reqUrl (world e) in
  (match r with inl data => inl (mapMessages data) | inr message => inr message end,
   called (GetCheck reqUrl) w e).

(** [const html = await fetchPageHtml(url); return validateHtml(html)] *)
Definition fetch_then_validate (url : string) (e : Env)
  : (list W3CMessage + string) * Env :=
  match fetchPageHtml url e with
  | (inl html, e) => validateHtml html e
  | (inr message, e) => (inr message, e)
  end.

(** [validatePage] of server.ts; the one of cli.ts differs by the text of
    its spinner only. *)
Definition validatePage (url : string) (e : Env) : (list W3CMessage + string) * Env :=
  if isLocalhost url then fetch_then_validate url e
  else
    match validateUrl url e with
    | (inl messages, e) => (inl messages, e)
    | (inr _, e) => fetch_then_validate url e
    end.

Definition is_GetCheck (c : Call) : bool :=
  match c with GetCheck _ => true | _ => false end.

Definition is_GetPage (c : Call) : bool :=
  match c with GetPage _ => true | _ => false end.

End Net.

End checker.

(** ** More concrete inputs *)

Module examples_more.
Import types utils sitemap server.

(** A network in which the root sitemap is an index of one nested sitemap
    that cannot be fetched. *)
Definition axios_get_refused (url : string) (w : nat) : (string + string) * nat :=
  if String.eqb url "https://example.com/sitemap.xml" then (inl examples.xml_index, S w)
  else (inr "connect ECONNREFUSED", S w).

(** A network in which the root sitemap is an index of one nested sitemap
    that lists two pages. *)
Definition axios_get_site (url : string) (w : nat) : (string + string) * nat :=
  if String.eqb url "https://example.com/sitemap.xml" then (inl examples.xml_index, S w)
  else (inl examples.xml_two_pages, S w).

(** The checker's answers: the first page has one error, the others none. *)
Definition one_error : validator.W3CApiResponse :=
  {| validator.api_messages :=
       [{| validator.api_type := "error"; validator.api_subType := None;
           validator.api_message := "Stray end tag."; validator.api_extract := None;
           validator.api_firstLine := None; validator.api_lastLine := Some 3%Z;
           validator.api_firstColumn := None; validator.api_lastColumn := None |}] |}.

Definition no_message : validator.W3CApiResponse := {| validator.api_messages := [] |}.

Definition encodeURIComponent (s : string) : string := s.

(** A network whose checker cannot fetch pages by itself and accepts
    posted markup. *)
Definition get_text (url : string) (w : nat) : (string + string) * nat :=
  (inl "<!DOCTYPE html><title>t</title>", S w).

Definition post_html (url html : string) (w : nat)
  : (validator.W3CApiResponse + string) * nat :=
  (inl one_error, S w).

Definition get_json_down (url : string) (w : nat)
  : (validator.W3CApiResponse + string) * nat :=
  (inr "Request failed with status code 503", S w).

Definition get_json_up (url : string) (w : nat)
  : (validator.W3CApiResponse + string) * nat :=
  (inl no_message, S w).

(** A page that is gone. *)
Definition get_text_gone (url : string) (w : nat) : (string + string) * nat :=
  (inr "Request failed with status code 404", S w).

End examples_more.

(** ** The pages of a job, as the events and the results array show them *)

Module progress.
Import types server statements.

Definition fetching_index (e : Event) : option nat :=
  match e with page_fetching index _ => Some index | _ => None end.

Definition done_index (e : Event) : option nat :=
  match e with page_done index _ _ _ _ _ => Some index | _ => None end.

(** The indices of the [page_fetching] events of a buffer, in the order of
    the buffer, and those of its [page_done] events. *)
Definition fetched (buf : list Event) : list nat := omap fetching_index buf.

Definition finished (buf : list Event) : list nat := omap done_index buf.

(** The [page_done] event that a task emits for the result it wrote at
    [index]. *)
Definition done_event (index : nat) (r : PageResult) : Event :=
  page_done index (url r) (status r) (messages r) (duration r) (errorMessage r).

Definition page_dones (buf : list Event) : list Event := List.filter is_page_done buf.

Definition checking (p : Pc) : nat :=
  match p with AwaitChecker _ _ => 1 | _ => 0 end.

(** A result as a task builds it. *)
Definition task_result (r : PageResult) : Prop :=
  exists t outcome d, r = page_result t outcome d.

(** The results array is a run of written slots followed by empty ones; the
    written slots are the pages of the [page_done] events; the pages started
    are the first ones of the sitemap, the last of them being the one that
    awaits the checker; the queue holds the next ones. *)
Definition pages_inv (s : Server) : Prop :=
  let buf := buffered (job s) in
  (sitemap_phase (pc s) = true -> queue s = [] /\ results s = []) /\
  exists (written : list PageResult) (free : nat),
    results s = map Some written ++ replicate free None /\
    Forall task_result written /\
    page_dones buf = imap done_event written /\
    fetched buf = seq 0 (length written + checking (pc s)) /\
    (forall t start, pc s = AwaitChecker t start -> index t = length written /\ 0 < free) /\
    map index (queue s) = seq (length (fetched buf)) (length (queue s)) /\
    length (fetched buf) + length (queue s) <= length (results s).

Definition has_status (st : PageStatus) (e : Event) : bool :=
  match e with
  | page_done _ _ status _ _ _ => PageStatus_eqb status st
  | _ => false
  end.

(** The messages of kind [t] that the [page_done] events of a buffer carry. *)
Definition messages_of (t : MessageType) (e : Event) : nat :=
  match e with
  | page_done _ _ _ messages _ _ => count_type t messages
  | _ => 0
  end.

Definition total_messages (t : MessageType) (buf : list Event) : nat :=
  list_sum (map (messages_of t) buf).

End progress.

(** ** How a run ends, as the buffer shows it *)

Module outcome.
Import types server statements.

Definition is_sitemap_error (e : Event) : bool :=
  match e with sitemap_error _ => true | _ => false end.

Definition is_sitemap_done (e : Event) : bool :=
  match e with sitemap_done _ _ => true | _ => false end.

Definition is_stream_end (e : Event) : bool :=
  match e with stream_end => true | _ => false end.

Definition is_page_event (e : Event) : bool :=
  match e with
  | page_fetching _ _ | page_validating _ _ | page_done _ _ _ _ _ _ => true
  | _ => false
  end.

(** The events that a run can have emitted before it knows its pages: the
    progress of a sitemap index, and what an abort request appends. *)
Definition early_event (e : Event) : bool :=
  is_index_event e || is_cancelled e || is_stream_end e.

(** 1 when [runValidation] has returned. *)
Definition returned (p : Pc) : nat :=
  match p with Settled => 1 | _ => 0 end.

Definition knows_no_page (p : Pc) : bool :=
  match p with Start | AwaitNested _ _ _ | Rejected => true | _ => false end.

Definition outcome_inv (s : Server) : Prop :=
  let buf := buffered (job s) in
  (sitemap_phase (pc s) = true -> queue s = [] /\ results s = []) /\
  (knows_no_page (pc s) = true -> Forall (fun e => early_event e = true) buf) /\
  count is_sitemap_error buf + count is_done buf = returned (pc s) /\
  (1 <= count is_sitemap_error buf ->
   count is_sitemap_done buf = 0 /\ count is_page_event buf = 0 /\ results s = []) /\
  count is_stream_end buf = count is_cancelled buf + returned (pc s) /\
  (done (job s) = true <-> 1 <= count is_stream_end buf).

(** A submission whose [base] is not a URL. *)
Definition bad_base : Params :=
  {| xml := examples.xml_two_pages; base := "not a url";
     concurrency := None; interTaskDelayMs := None |}.

(** The turns of a job of two pages, the second of which cannot be
    checked. *)
Definition second_page_fails : list Label :=
  [CheckerDone (inl []) (examples.clock 5); SleepDone (examples.clock 1005);
   CheckerDone (inr "timeout") (examples.clock 1010); SleepDone (examples.clock 2010)].

End outcome.

(** ** The report handler and the observers of a job *)

Module observers.
Import types server statements.

Inductive HttpResponse := Http (status : nat) (body : string).

Section Report.

Variable generateHtmlReport : Report -> string.

(** [GET /api/report/:id] on a job that exists.  [!job.report] holds for
    [null] and for the empty string. *)
Definition get_report (s : Server) : HttpResponse :=
  match report (job s) with
  | Some r => if String.eqb r "" then Http 404 "Report not ready" else Http 200 r
  | None => Http 404 "Report not ready"
  end.

(** A job has a report only when its run has returned; it is the report of
    the results as they are, with the summary that the [done] event
    carries. *)
Definition report_inv (s : Server) : Prop :=
  match report (job s) with
  | None => count is_done (buffered (job s)) = 0
  | Some r =>
      pc s = Settled /\
      exists generatedAt,
        let summary := make_summary (filter_Boolean (results s)) generatedAt (baseUrl s) in
        In (done_ summary) (buffered (job s)) /\
        r = generateHtmlReport {| summary := summary; pages := filter_Boolean (results s) |}
  end.

End Report.

(** What the responses of a job hold: each carries a prefix of the buffer;
    a response that is registered and not ended carries all of it; a
    response was ended only after it carried an event with the [stream_end]
    marker.  The listeners are distinct responses of the job. *)
Definition conn_inv (s : Server) : Prop :=
  let buf := buffered (job s) in
  NoDup (listeners (job s)) /\
  (forall c, In c (listeners (job s)) -> c < length (conns s)) /\
  (done (job s) = true -> In stream_end buf) /\
  forall c r,
    conns s !! c = Some r ->
    (exists rest, buf = written r ++ rest) /\
    (ended r = false -> In c (listeners (job s)) -> written r = buf) /\
    (ended r = true -> List.existsb includes_stream_end (written r) = true).

(** The job without its observers. *)
Definition forget (s : Server) : Server :=
  set_conns [] (set_job (set_listeners [] (job s)) s).

(** The turns of the event loop that are not due to an observer. *)
Definition is_pipeline (l : Label) : bool :=
  match l with GetStream | Close _ => false | _ => true end.

(** The turns of a job of two pages that is observed from the start, up to
    the answer of the checker for the first page, and to its end. *)
Definition watched_first_page : list Label :=
  [GetStream; CheckerDone (inl []) (examples.clock 5)].

Definition watched_to_the_end : list Label :=
  GetStream :: examples.both_pages_clean.

End observers.

(** ** reporter.ts: the unique issues *)

Module reporter.
Import types.

Definition type_name (t : MessageType) : string :=
  match t with error => "error" | warning => "warning" | info => "info" end.

(** A value of the [seen] map. *)
Record Seen := { msg : W3CMessage; count : nat }.

(** The [seen] map is kept as the list of its entries in the order of
    insertion, which is the order in which a [Map] is iterated. *)
Fixpoint get (hash : string) (seen : list (string * Seen)) : option Seen :=
  match seen with
  | [] => None
  | (h, v) :: rest => if String.eqb h hash then Some v else get hash rest
  end.

(** [existing.count++] when the key is there, [seen.set(hash, { msg, count: 1 })]
    when it is not. *)
Fixpoint bump (hash : string) (m : W3CMessage) (seen : list (string * Seen))
  : list (string * Seen) :=
  match seen with
  | [] => [(hash, {| msg := m; count := 1 |})]
  | (h, v) :: rest =>
      if String.eqb h hash then (h, {| msg := msg v; count := S (count v) |}) :: rest
      else (h, v) :: bump hash m rest
  end.

(** What [printUniqueErrors] prints besides the frame: the two totals, and
    for every entry the text of its message and the count of its label,
    which is shown when the count is above 1. *)
Record UniqueIssues := {
  total_occurrences : nat;
  unique_issues : nat;
  issues : list (string * option nat);
}.

Section Unique.

Variable String_trim : string -> string.

Definition hash (m : W3CMessage) : string :=
  type_name (type m) +:+ "::" +:+ String_trim (message m).

(** [for (const msg of result.messages)] *)
Definition loop (ms : list W3CMessage) (seen : list (string * Seen))
  : list (string * Seen) :=
  fold_left (fun seen m => bump (hash m) m seen) ms seen.

(** [for (const result of results)] around it. *)
Definition collect (results : list PageResult) : list (string * Seen) :=
  fold_left (fun seen result => loop (messages result) seen) results [].

(** [None] when the function returns at [if (seen.size === 0) return]. *)
Definition printUniqueErrors (results : list PageResult) : option UniqueIssues :=
  match collect results with
  | [] => None
  | seen =>
      Some {| total_occurrences := fold_left (fun s v => s + count (snd v)) seen 0;
              unique_issues := length seen;
              issues :=
                map (fun entry =>
                       (message (msg (snd entry)),
                        if (1 <? count (snd entry))%nat then Some (count (snd entry))
                        else None))
                    seen |}
  end.

(** The messages of all pages, in the order of the loops. *)
Definition all_messages (results : list PageResult) : list W3CMessage :=
  flat_map messages results.

(** The messages that raise the issue with key [h]. *)
Definition raising (h : string) (ms : list W3CMessage) : list W3CMessage :=
  List.filter (fun m => String.eqb (hash m) h) ms.

End Unique.

(** One page that carries the same error twice. *)
Definition stray_tag : W3CMessage :=
  {| type := error; message := "Stray end tag."; extract := None; firstLine := None;
     lastLine := Some 3%Z; firstColumn := None; lastColumn := None; subType := None |}.

Definition twice_on_one_page : list PageResult :=
  [{| url := "https://example.com/a"; sourceUrl := "https://example.com/a";
      messages := [stray_tag; stray_tag]; status := errors; errorMessage := None;
      duration := Some 5%Z |}].

End reporter.

(** ** cli.ts *)

Module cli.
Import types.

(** [program.opts()]: [sitemap] is required, [output] and [delay] have
    defaults, [base] and [unique] are absent unless given. *)
Record Options := {
  sitemap : string;
  base : option string;
  output : string;
  delay : string;
  unique : bool;
}.

(** How [main] ends: [process.exit(1)] after the sitemap could not be
    fetched, [process.exit(0)] on a sitemap without URLs, the handler of
    [main().catch] for any other error, or the end of [main] after the
    report was written, with the exit code of the process. *)
Inductive Outcome :=
| SitemapFailed (message : string)
| NoUrls
| Fatal
| Reported (report : Report) (code : nat).

Definition exit_code (o : Outcome) : nat :=
  match o with
  | SitemapFailed _ => 1
  | NoUrls => 0
  | Fatal => 1
  | Reported _ code => code
  end.

Section Main.

Variable URL_parse : string -> option utils.URL.
Variable host_parse : bool -> string -> option string.
Variable parser_parse : string -> string + sitemap.Parsed.
(** [parseInt(s, 10)]: [None] is [NaN]. *)
Variable parseInt : string -> option Z.
Variable encodeURIComponent : string -> string.
Variable String_trim : string -> string.
Variable generateHtmlReport : Report -> string.

(** The world outside the process: the network, the clock, the timers and
    the file system. *)
Variable World : Type.
Variable axios_get : string -> World -> (string + string) * World.
Variable get_text : string -> World -> (string + string) * World.
Variable post_html : string -> string -> World -> (validator.W3CApiResponse + string) * World.
Variable get_json : string -> World -> (validator.W3CApiResponse + string) * World.
Variable Date_now : World -> Z.
Variable toISOString : World -> string.
Variable sleep : Z -> World -> World.
(** [writeFile(path, data, 'utf-8')]: [Some] is the error it rejects with. *)
Variable writeFile : string -> string -> World -> option string * World.

(** What the process has done: the lines of [console.warn], the requests
    of the page checks, the sleeps, the file written and the unique issues
    printed.  The other lines of the console are left out. *)
Record State := {
  world : World;
  console : list string;
  calls : list checker.Call;
  slept : list Z;
  file : option (string * string);
  unique_issues : option reporter.UniqueIssues;
}.

(** [Math.max(0, parseInt(options.delay, 10) || 1000)] *)
Definition delay_ms (o : Options) : Z :=
  Z.max 0 (match parseInt (delay o) with
           | Some n => if Z.eqb n 0 then 1000%Z else n
           | None => 1000%Z
           end).

Definition validatePage (url : string) (e : checker.Env World)
  : (list W3CMessage + string) * checker.Env World :=
  checker.validatePage URL_parse encodeURIComponent World get_text post_html get_json url e.

(** One task of the limiter.  The tasks run one at a time in the order of
    their creation, so [results[index] = result] appends. *)
Definition run_task (delay : Z) (acc : list PageResult * State) (t : server.Task)
  : list PageResult * State :=
  let s := snd acc in
  let startTime := Date_now (world s) in
  let checked :=
    validatePage (server.resolved t)
      {| checker.world := world s; checker.calls := calls s |} in
  let w := checker.world World (snd checked) in
  let result := server.page_result t (fst checked) (Date_now w - startTime) in
  let pause := (0 <? delay)%Z in
  (fst acc ++ [result],
   {| world := if pause then sleep delay w else w;
      console := console s;
      calls := checker.calls World (snd checked);
      slept := if pause then slept s ++ [delay] else slept s;
      file := file s;
      unique_issues := unique_issues s |}).

Definition after_sitemap (e : sitemap.Env World) : State :=
  {| world := sitemap.world World e; console := sitemap.console World e;
     calls := []; slept := []; file := None; unique_issues := None |}.

Definition main (o : Options) (w : World) : Outcome * State :=
  let s0 := {| world := w; console := []; calls := []; slept := []; file := None;
               unique_issues := None |} in
  match (match base o with
         | Some b => Some b
         | None => utils.getOrigin URL_parse (sitemap o)
         end) with
  | None => (Fatal, s0)
  | Some baseUrl =>
      let delay := delay_ms o in
      match sitemap.extractUrlsFromSitemap parser_parse World axios_get (sitemap o) 0
              {| sitemap.world := w; sitemap.console := [] |} with
      | (sitemap.Thrown message, e) => (SitemapFailed message, after_sitemap e)
      | (sitemap.OutOfFuel, e) => (Fatal, after_sitemap e)
      | (sitemap.Returned rawUrls, e) =>
          match rawUrls with
          | [] => (NoUrls, after_sitemap e)
          | _ :: _ =>
              match server.resolve_all URL_parse host_parse rawUrls baseUrl with
              | None => (Fatal, after_sitemap e)
              | Some resolvedUrls =>
                  let ran :=
                    fold_left (run_task delay) (server.make_tasks 0 resolvedUrls)
                      ([], after_sitemap e) in
                  let results := fst ran in
                  let s := snd ran in
                  let printed :=
                    if unique o then reporter.printUniqueErrors String_trim results
                    else None in
                  let summary :=
                    server.make_summary results (toISOString (world s)) (sitemap o) in
                  let report := {| summary := summary; pages := results |} in
                  let html := generateHtmlReport report in
                  let wrote := writeFile (output o) html (world s) in
                  let s' :=
                    {| world := snd wrote; console := console s; calls := calls s;
                       slept := slept s;
                       file := match fst wrote with
                               | None => Some (output o, html)
                               | Some _ => None
                               end;
                       unique_issues := printed |} in
                  match fst wrote with
                  | Some _ => (Fatal, s')
                  | None =>
                      (Reported report
                         (if (0 <? pagesWithErrors summary)%nat ||
                             (0 <? pagesFailed summary)%nat
                          then 1 else 0),
                       s')
                  end
              end
          end
      end
  end.

End Main.

(** *** A run of the program

    The site of two pages behind a sitemap index, a checker that answers
    every page without a message, a clock that advances with every request
    and a file system that accepts the report. *)

Definition parseInt_example (s : string) : option Z :=
  if String.eqb s "1000" then Some 1000%Z
  else if String.eqb s "0" then Some 0%Z
  else if String.eqb s "-1" then Some (-1)%Z
  else None.

Definition options_example (delay : string) : Options :=
  {| sitemap := "https://example.com/sitemap.xml"; base := Some "https://example.com";
     output := "report.html"; delay := delay; unique := true |}.

Definition main_example (axios_get : string -> nat -> (string + string) * nat)
    (o : Options) : Outcome * State nat :=
  main examples.URL_parse examples.host_parse examples.parser_parse parseInt_example
    examples_more.encodeURIComponent examples.String_trim examples.generateHtmlReport
    nat axios_get examples_more.get_text examples_more.post_html
    examples_more.get_json_up (fun w => Z.of_nat w)
    (fun _ => "2024-01-01T00:00:00.000Z") (fun _ w => S w) (fun _ _ w => (None, S w))
    o 0.

End cli.

(** ** The server's loop over a sitemap index, in closed form *)

Module nested_index.
Import types server.

Section Nested.

Variable parser_parse : string -> string + sitemap.Parsed.

(** The URLs that the answer to one nested request adds to [rawUrls]. *)
Definition gathered (resp : string + string) : list string :=
  match resp with
  | inl data =>
      match sitemap.parseUrlsFromXml parser_parse data with
      | inr (sitemap.urls nested) => nested
      | _ => []
      end
  | inr _ => []
  end.

(** The event that the answer to the request for [sitemapUrl] emits. *)
Definition answer_events (sitemapUrl : string) (resp : string + string) : list Event :=
  match resp with
  | inl data =>
      match sitemap.parseUrlsFromXml parser_parse data with
      | inr (sitemap.urls nested) => [sitemapindex_fetched sitemapUrl (length nested)]
      | inr (sitemap.sitemapindex_ _) => []
      | inl message => [sitemapindex_fetch_error sitemapUrl message]
      end
  | inr message => [sitemapindex_fetch_error sitemapUrl message]
  end.

Fixpoint loop_events (sitemapUrls : list string) (resps : list (string + string))
  : list Event :=
  match sitemapUrls, resps with
  | sitemapUrl :: sitemapUrls', resp :: resps' =>
      sitemapindex_fetching sitemapUrl ::
      answer_events sitemapUrl resp ++ loop_events sitemapUrls' resps'
  | _, _ => []
  end.

End Nested.

(** The turns in which the nested requests settle with [resps]. *)
Definition nested_turns (clk : Clock) (resps : list (string + string)) : list Label :=
  map (fun resp => NestedFetchDone resp clk) resps.

(** A network answer for the nested sitemap of [examples.index_of_index]
    that lists two pages, and one that fails. *)
Definition two_then_refused : list (string + string) :=
  [inl examples.xml_two_pages; inr "connect ECONNREFUSED"].

Definition index_of_two : Params :=
  {| xml := "<sitemapindex><sitemap><loc>https://example.com/nested.xml</loc></sitemap><sitemap><loc>https://example.com/b</loc></sitemap></sitemapindex>";
     base := ""; concurrency := None; interTaskDelayMs := None |}.

Definition parser_parse_two (s : string) : string + sitemap.Parsed :=
  if String.eqb s (xml index_of_two) then
    inr {| sitemap.sitemapindex :=
             Some {| sitemap.sitemap :=
                       Some [examples.entry "https://example.com/nested.xml";
                             examples.entry "https://example.com/b"] |};
           sitemap.urlset := None |}
  else examples.parser_parse s.

End nested_index.

(** * Properties *)

(** ** validator.ts: the kind of a diagnostic message *)

Section ValidatorProps.
Import types validator.

Lemma normalizeType_error type subType :
  normalizeType type subType = error <-> type = "error".
Proof.
  unfold normalizeType.
  destruct (String.eqb_spec type "error") as [->|Hne]; [tauto|].
  split; [|congruence].
  destruct (_ && _); discriminate.
Qed.

Lemma normalizeType_warning type subType :
  normalizeType type subType = warning <->
  type = "info" /\ subType = Some "warning".
Proof.
  unfold normalizeType.
  destruct (String.eqb_spec type "error") as [->|Hne].
  - split; [discriminate|]. intros [? _]; discriminate.
  - destruct (String.eqb_spec type "info") as [->|Hni]; simpl.
    + destruct subType as [s|]; simpl.
      * destruct (String.eqb_spec s "warning") as [->|Hs].
        -- tauto.
        -- split; [discriminate|]. intros [_ ?]; congruence.
      * split; [discriminate|]. intros [_ ?]; discriminate.
    + split; [discriminate|]. intros [? _]; contradiction.
Qed.

Lemma normalizeType_info type subType :
  normalizeType type subType = info <->
  type <> "error" /\ ~ (type = "info" /\ subType = Some "warning").
Proof.
  pose proof (normalizeType_error type subType) as He.
  pose proof (normalizeType_warning type subType) as Hw.
  destruct (normalizeType type subType) eqn:E.
  - split; [discriminate|]. intros [Hn _]. destruct Hn. now apply He.
  - split; [discriminate|]. intros [_ Hn]. destruct Hn. now apply Hw.
  - split; [|reflexivity]. intros _. split.
    + intros H. apply He in H. discriminate.
    + intros H. apply Hw in H. discriminate.
Qed.

(** C10. Every message that [mapMessages] produces has kind error,
    warning or info, decided by the raw message it comes from: error
    exactly for raw type ["error"], warning exactly for raw type ["info"]
    with subType ["warning"], and info for every other combination,
    unrecognized types included. *)
Theorem mapMessages_kind (data : W3CApiResponse) :
  Forall2
    (fun raw m =>
       (type m = error \/ type m = warning \/ type m = info) /\
       (type m = error <-> api_type raw = "error") /\
       (type m = warning <->
        api_type raw = "info" /\ api_subType raw = Some "warning") /\
       (type m = info <->
        api_type raw <> "error" /\
        ~ (api_type raw = "info" /\ api_subType raw = Some "warning")) /\
       message m = api_message raw)
    (api_messages data) (mapMessages data).
Proof.
  unfold mapMessages.
  induction (api_messages data) as [|raw raws IH]; simpl; constructor; [|exact IH].
  simpl. split; [|split; [|split; [|split]]].
  - destruct (normalizeType _ _); auto.
  - apply normalizeType_error.
  - apply normalizeType_warning.
  - apply normalizeType_info.
  - reflexivity.
Qed.

End ValidatorProps.

(** ** utils.ts: rewriting a URL onto the base *)

Section UtilsProps.
Import utils statements.

Variable URL_parse : string -> option URL.
Variable host_parse : bool -> string -> option string.

Lemma resolveUrlToBase_fails (locUrl baseUrl : string) :
  URL_parse locUrl = None \/ URL_parse baseUrl = None ->
  resolveUrlToBase URL_parse host_parse locUrl baseUrl = None.
Proof.
  unfold resolveUrlToBase, resolveUrlToBase_url.
  intros [H|H]; rewrite H; [reflexivity|].
  destruct (URL_parse locUrl); reflexivity.
Qed.

Lemma port_eqb_eq a b : port_eqb a b = true <-> a = b.
Proof.
  destruct a as [x|], b as [y|]; simpl; try (split; congruence).
  rewrite N.eqb_eq. split; congruence.
Qed.

(** The three assignments on two parsed network URLs. *)
Lemma substitute_network (loc base : URL) :
  network_url host_parse loc -> network_url host_parse base ->
  let u := set_port (set_hostname host_parse (set_protocol loc (scheme base))
                       (hostname base)) (port base) in
  scheme u = scheme base /\ host u = host base /\ port u = port base /\
  path u = path loc /\ query u = query loc /\ fragment u = fragment loc /\
  username u = username loc /\ password u = password loc.
Proof.
  intros (Hsl & Hol & _ & _) (Hsb & _ & (h & Hh & Hne & Hhp) & Hpb).
  assert (Hspl : is_special (scheme loc) = true)
    by (unfold is_network_scheme in Hsl; apply andb_true_iff in Hsl; tauto).
  assert (Hspb : is_special (scheme base) = true)
    by (unfold is_network_scheme in Hsb; apply andb_true_iff in Hsb; tauto).
  assert (Hfl : String.eqb (scheme loc) "file" = false)
    by (unfold is_network_scheme in Hsl; apply andb_true_iff in Hsl;
        destruct Hsl as [_ H]; now apply negb_true_iff in H).
  assert (Hfb : String.eqb (scheme base) "file" = false)
    by (unfold is_network_scheme in Hsb; apply andb_true_iff in Hsb;
        destruct Hsb as [_ H]; now apply negb_true_iff in H).
  assert (Hhe : String.eqb h "" = false) by now apply String.eqb_neq.
  unfold set_protocol. rewrite Hspl, Hspb, Hfb, Hfl. simpl.
  rewrite andb_false_r. simpl.
  set (p1 := if port_eqb (port loc) (default_port (scheme base)) then None else port loc).
  unfold set_hostname, has_opaque_path in *. simpl. rewrite Hol, Hfb.
  unfold hostname. rewrite Hh, Hhe, Hspb. simpl. rewrite Hhp.
  unfold set_port, cannot_have_username_password_port. simpl.
  rewrite Hhe, Hfb. simpl.
  destruct (port base) as [p|] eqn:Hp.
  - destruct Hpb as [Hle Hdef].
    assert ((65535 <? p)%N = false) as -> by (apply N.ltb_ge; exact Hle).
    destruct (port_eqb (Some p) (default_port (scheme base))) eqn:E.
    + apply port_eqb_eq in E. congruence.
    + simpl in E |- *. rewrite E. repeat split; congruence.
  - simpl. repeat split; congruence.
Qed.

(** C8, as the code has it.  When both inputs parse as URLs with a
    network scheme (http, https, ws, wss, ftp), [resolveUrlToBase] returns
    the serialization of a URL with the base's scheme, host and port and
    with the discovered URL's path and query (and its fragment and
    credentials) unchanged; when either input does not parse, it fails. *)
Theorem resolveUrlToBase_network (locUrl baseUrl : string) :
  match URL_parse locUrl, URL_parse baseUrl with
  | Some loc, Some base =>
      network_url host_parse loc -> network_url host_parse base ->
      exists u,
        resolveUrlToBase_url URL_parse host_parse locUrl baseUrl = Some u /\
        resolveUrlToBase URL_parse host_parse locUrl baseUrl = Some (href u) /\
        scheme u = scheme base /\ host u = host base /\ port u = port base /\
        path u = path loc /\ query u = query loc /\ fragment u = fragment loc /\
        username u = username loc /\ password u = password loc
  | _, _ => resolveUrlToBase URL_parse host_parse locUrl baseUrl = None
  end.
Proof.
  destruct (URL_parse locUrl) as [loc|] eqn:Hl;
    [destruct (URL_parse baseUrl) as [base|] eqn:Hb|].
  - intros Hnl Hnb.
    unfold resolveUrlToBase, resolveUrlToBase_url. rewrite Hl, Hb.
    eexists. split; [reflexivity|]. split; [reflexivity|].
    exact (substitute_network loc base Hnl Hnb).
  - apply resolveUrlToBase_fails. now right.
  - apply resolveUrlToBase_fails. now left.
Qed.

End UtilsProps.

(** C8 at [https://example.com/a] and the base [http://localhost:3000]. *)
Lemma resolveUrlToBase_network_witness :
  utils.resolveUrlToBase examples.URL_parse examples.host_parse
    "https://example.com/a" "http://localhost:3000" = Some "http://localhost:3000/a".
Proof.
  pose proof (resolveUrlToBase_network examples.URL_parse examples.host_parse
                "https://example.com/a" "http://localhost:3000") as H.
  simpl in H.
  destruct H as (u & Hu & Hs & _).
  - repeat split; try reflexivity. exists "example.com". repeat split; [discriminate].
  - repeat split; try reflexivity; try discriminate.
    exists "localhost". repeat split; discriminate.
  - rewrite Hs. injection Hu as <-. reflexivity.
Defined.

(** C8 as written fails at a [mailto:] URL: it parses, and the setters
    refuse to turn it into an [http:] URL, so scheme and host stay. *)
Lemma resolveUrlToBase_keeps_mailto :
  ~ statements.resolves_to_base examples.URL_parse examples.host_parse
      "mailto:team@example.com" "http://localhost:3000".
Proof.
  unfold statements.resolves_to_base. simpl.
  intros (u & Hu & _ & Hs & _).
  vm_compute in Hu. injection Hu as <-. discriminate Hs.
Qed.

(** ** sitemap.ts: the depth bound *)

Section SitemapProps.
Import sitemap.

Variable parser_parse : string -> string + Parsed.
Variable World : Type.
Variable axios_get : string -> World -> (string + string) * World.

Local Abbreviation Env := (Env World).
Local Abbreviation extract_fuel := (extractUrlsFromSitemap_fuel parser_parse World axios_get).
Local Abbreviation extract := (extractUrlsFromSitemap parser_parse World axios_get).
Local Abbreviation for_each := (for_each_sitemap World).

(** Beyond the bound a call does nothing but warn. *)
Lemma extract_fuel_beyond (fuel : nat) (sitemapUrl : string) (depth : nat) (e : Env) :
  MAX_DEPTH < depth ->
  extract_fuel (S fuel) sitemapUrl depth e =
  (Returned [], console_warn World (statements.skip_line sitemapUrl) e).
Proof.
  intros Hd. simpl.
  destruct (Nat.ltb_spec MAX_DEPTH depth) as [_|Hle]; [reflexivity|lia].
Qed.

(** A loop whose recursive calls all return no URL and leave the network
    alone returns the URLs it started with. *)
Lemma for_each_nothing (rec : string -> Env -> Outcome (list string) * Env) :
  (forall l e, exists e', rec l e = (Returned [], e') /\ world World e' = world World e) ->
  forall sitemaps urls e,
    exists e', for_each rec sitemaps urls e = (Returned urls, e') /\
               world World e' = world World e.
Proof.
  intros Hrec sitemaps.
  induction sitemaps as [|entry sitemaps IH]; intros urls e; simpl.
  - eauto.
  - destruct (loc entry) as [l|]; [|apply IH].
    destruct (negb _); [|apply IH].
    destruct (Hrec l e) as (e1 & -> & Hw).
    rewrite app_nil_r.
    destruct (IH urls e1) as (e2 & -> & Hw2).
    exists e2. split; [reflexivity|congruence].
Qed.

(** The fuel that [extractUrlsFromSitemap] supplies is never used up: the
    call returns or throws. *)
Lemma for_each_fuel (rec : string -> Env -> Outcome (list string) * Env) :
  (forall l e, fst (rec l e) <> OutOfFuel) ->
  forall sitemaps urls e, fst (for_each rec sitemaps urls e) <> OutOfFuel.
Proof.
  intros Hrec sitemaps.
  induction sitemaps as [|entry sitemaps IH]; intros urls e; simpl.
  - discriminate.
  - destruct (loc entry) as [l|]; [|apply IH].
    destruct (negb _); [|apply IH].
    specialize (Hrec l e).
    destruct (rec l e) as [[nested|message|] e1]; simpl in *.
    + apply IH.
    + discriminate.
    + contradiction.
Qed.

Lemma extract_fuel_enough (fuel : nat) :
  forall sitemapUrl depth e,
    S MAX_DEPTH - depth < fuel ->
    fst (extract_fuel fuel sitemapUrl depth e) <> OutOfFuel.
Proof.
  induction fuel as [|fuel IH]; intros sitemapUrl depth e Hf; [lia|].
  simpl.
  destruct (Nat.ltb_spec MAX_DEPTH depth) as [Hd|Hd]; [discriminate|].
  destruct (axios_get sitemapUrl (world World e)) as [[xmlText|message] w]; [|discriminate].
  destruct (parser_parse xmlText) as [message|parsed]; [discriminate|].
  destruct (sitemapindex parsed) as [index|].
  - apply for_each_fuel. intros l e1. apply IH. unfold MAX_DEPTH in *. lia.
  - destruct (urlset parsed); discriminate.
Qed.

Lemma extractUrlsFromSitemap_total (sitemapUrl : string) (depth : nat) (e : Env) :
  fst (extract sitemapUrl depth e) <> OutOfFuel.
Proof. apply extract_fuel_enough. lia. Qed.

(** C4. A branch of the nested resolution whose depth exceeds
    [MAX_DEPTH = 3] stops there: the call fetches nothing, returns the
    empty list and only writes a warning; it does not throw, so the job
    does not fail because of it: a sitemap index at depth [MAX_DEPTH],
    whose entries are all beyond the bound, returns normally with no URL
    whatever its entries are. *)
Theorem extractUrlsFromSitemap_beyond_MAX_DEPTH
    (sitemapUrl : string) (depth : nat) (e : Env) :
  MAX_DEPTH < depth ->
  MAX_DEPTH = 3 /\
  extract sitemapUrl depth e =
    (Returned [], console_warn World (statements.skip_line sitemapUrl) e) /\
  world World (snd (extract sitemapUrl depth e)) = world World e /\
  forall parent e0 xmlText w parsed index,
    axios_get parent (world World e0) = (inl xmlText, w) ->
    parser_parse xmlText = inr parsed ->
    sitemapindex parsed = Some index ->
    exists e', extract parent MAX_DEPTH e0 = (Returned [], e') /\ world World e' = w.
Proof.
  intros Hd.
  assert (Hx : extract sitemapUrl depth e =
               (Returned [], console_warn World (statements.skip_line sitemapUrl) e))
    by (apply extract_fuel_beyond; exact Hd).
  split; [reflexivity|]. split; [exact Hx|]. split; [rewrite Hx; reflexivity|].
  intros parent e0 xmlText w parsed index Hget Hparse Hindex.
  unfold extractUrlsFromSitemap.
  replace (S (S MAX_DEPTH - MAX_DEPTH)) with 2 by reflexivity.
  cbn [extractUrlsFromSitemap_fuel].
  replace (MAX_DEPTH <? MAX_DEPTH)%nat with false by reflexivity.
  rewrite Hget, Hparse, Hindex.
  apply (for_each_nothing
           (fun l e1 => extract_fuel 1 l (MAX_DEPTH + 1) e1)).
  intros l e1. eexists. split.
  - apply extract_fuel_beyond. unfold MAX_DEPTH. lia.
  - reflexivity.
Qed.

End SitemapProps.

(** C4 at depth 4, in a network where every sitemap is an index. *)
Lemma extractUrlsFromSitemap_beyond_MAX_DEPTH_witness :
  sitemap.MAX_DEPTH < 4 /\
  sitemap.extractUrlsFromSitemap examples.parser_parse nat examples.axios_get
    "https://example.com/deep.xml" 4 (sitemap.Build_Env nat 0 []) =
  (sitemap.Returned [],
   sitemap.Build_Env nat 0
     ["Max sitemap depth (3) reached, skipping: https://example.com/deep.xml"]).
Proof.
  assert (H : sitemap.MAX_DEPTH < 4) by (unfold sitemap.MAX_DEPTH; lia).
  split; [exact H|].
  exact (proj1 (proj2 (extractUrlsFromSitemap_beyond_MAX_DEPTH
                         examples.parser_parse nat examples.axios_get
                         "https://example.com/deep.xml" 4
                         (sitemap.Build_Env nat 0 []) H))).
Defined.

(** ** server.ts: the job, its buffer and the pipeline *)

Section ServerProps.
Import types server.

Variable URL_parse : string -> option utils.URL.
Variable host_parse : bool -> string -> option string.
Variable String_trim : string -> string.
Variable parser_parse : string -> string + sitemap.Parsed.
Variable generateHtmlReport : Report -> string.

Local Abbreviation finish := (finish generateHtmlReport).
Local Abbreviation run_queue := (run_queue generateHtmlReport).
Local Abbreviation start_pages :=
  (start_pages URL_parse host_parse String_trim generateHtmlReport).
Local Abbreviation nested_loop :=
  (nested_loop URL_parse host_parse String_trim generateHtmlReport).
Local Abbreviation nested_fetched :=
  (nested_fetched URL_parse host_parse String_trim parser_parse generateHtmlReport).
Local Abbreviation post_validate :=
  (post_validate URL_parse host_parse String_trim parser_parse generateHtmlReport).
Local Abbreviation step :=
  (step URL_parse host_parse String_trim parser_parse generateHtmlReport).
Local Abbreviation run :=
  (run URL_parse host_parse String_trim parser_parse generateHtmlReport).

(** *** The limiter's queue in closed form *)

Lemma run_queue_aborted (q : list Task) (clk : Clock) (s : Server) :
  aborted (job s) = true -> run_queue q clk s = finish clk (set_queue [] s).
Proof.
  intros Ha. induction q as [|t q IH]; simpl; [reflexivity|].
  rewrite Ha. exact IH.
Qed.

Lemma run_queue_cases (q : list Task) (clk : Clock) (s : Server) :
  (run_queue q clk s = finish clk (set_queue [] s) /\
   (aborted (job s) = true \/ q = [])) \/
  (exists t q', q = t :: q' /\ aborted (job s) = false /\
                run_queue q clk s = start_task t q' clk s).
Proof.
  destruct (aborted (job s)) eqn:Ha.
  - left. split; [now apply run_queue_aborted|now left].
  - destruct q as [|t q'].
    + left. split; [reflexivity|now right].
    + right. exists t, q'. simpl. rewrite Ha. auto.
Qed.

(** *** Ended responses *)

Import statements.

Lemma frozen_refl (s : Server) : frozen s s.
Proof. intros c r H _. exact H. Qed.

Lemma listener_ended (e : Event) (r : Response) :
  ended r = true -> listener e r = r.
Proof.
  intros H. unfold listener, res_write. rewrite H.
  destruct (includes_stream_end e); [|reflexivity].
  destruct r as [w b]. simpl in *. now subst.
Qed.

Lemma forEach_listener_frozen (e : Event) (ls : list nat) :
  forall (cs : list Response) c r,
    cs !! c = Some r -> ended r = true ->
    fold_left (fun cs c => alter (listener e) c cs) ls cs !! c = Some r.
Proof.
  induction ls as [|l ls IH]; intros cs c r Hc He; simpl; [exact Hc|].
  apply IH; [|exact He].
  destruct (decide (l = c)) as [->|Hne].
  - rewrite list_lookup_alter_eq, Hc. simpl. now rewrite listener_ended.
  - now rewrite list_lookup_alter_ne.
Qed.

Lemma frozen_conns (s0 s1 s' : Server) :
  conns s' = conns s1 -> frozen s0 s1 -> frozen s0 s'.
Proof. intros E H c r Hc He. rewrite E. now apply H. Qed.

Lemma frozen_emit (s0 : Server) (e : Event) (s : Server) :
  frozen s0 s -> frozen s0 (emit e s).
Proof.
  intros H c r Hc He. unfold emit. cbn.
  apply forEach_listener_frozen; [|exact He]. now apply H.
Qed.

Lemma frozen_endJob (s0 s : Server) : frozen s0 s -> frozen s0 (endJob s).
Proof.
  intros H. unfold endJob.
  apply (frozen_conns s0 (emit stream_end s)); [reflexivity|].
  now apply frozen_emit.
Qed.

Lemma frozen_trans (s0 s1 s2 : Server) : frozen s0 s1 -> frozen s1 s2 -> frozen s0 s2.
Proof. intros H1 H2 c r Hc He. apply H2; [|exact He]. now apply H1. Qed.

Ltac frozen_tac :=
  repeat first
    [ apply frozen_refl
    | apply frozen_emit
    | apply frozen_endJob
    | match goal with
      | |- frozen ?s0 (set_pc ?p ?s) => apply (frozen_conns s0 s); [reflexivity|]
      | |- frozen ?s0 (set_queue ?p ?s) => apply (frozen_conns s0 s); [reflexivity|]
      | |- frozen ?s0 (set_results ?p ?s) => apply (frozen_conns s0 s); [reflexivity|]
      | |- frozen ?s0 (set_baseUrl ?p ?s) => apply (frozen_conns s0 s); [reflexivity|]
      | |- frozen ?s0 (set_job ?p ?s) => apply (frozen_conns s0 s); [reflexivity|]
      end ].

(** *** Every handler but the abort handler is a sequence of turns *)

Lemma pstep_finish (clk : Clock) (s : Server) :
  may_dequeue (pc s) = true ->
  aborted (job s) = true \/ queue s = [] ->
  pstep s (finish clk (set_queue [] s)).
Proof.
  intros Hpc Hq.
  apply (P_finish s _ (iso clk)); try reflexivity; try assumption.
  - cbn. now rewrite <- app_assoc.
  - unfold server.finish. frozen_tac.
Qed.

Lemma pstep_start_task (t : Task) (q : list Task) (clk : Clock) (s : Server) :
  may_dequeue (pc s) = true -> queue s = t :: q -> aborted (job s) = false ->
  pstep s (start_task t q clk s).
Proof.
  intros Hpc Hq Ha.
  apply (P_start s _ t q (now clk)); try reflexivity; try assumption.
  unfold start_task. frozen_tac.
Qed.

Lemma pstep_run_queue (clk : Clock) (s : Server) :
  may_dequeue (pc s) = true -> pstep s (run_queue (queue s) clk s).
Proof.
  intros Hpc.
  destruct (run_queue_cases (queue s) clk s) as [[-> Hq]|(t & q' & Hq & Ha & ->)].
  - now apply pstep_finish.
  - now apply pstep_start_task.
Qed.

(** The queue is an argument of [run_queue]: the fields [queue] and [pc]
    of the state it starts from are not read. *)
Lemma run_queue_args (q : list Task) (clk : Clock) (s : Server) (p : Pc) :
  run_queue q clk s = run_queue q clk (set_pc p (set_queue q s)).
Proof.
  destruct (run_queue_cases q clk s) as [[-> Hq]|(t & q' & Hq & Ha & ->)];
    destruct (run_queue_cases q clk (set_pc p (set_queue q s)))
      as [[-> Hq']|(t' & q'' & Hq' & Ha' & ->)]; cbn in *.
  - reflexivity.
  - destruct Hq; congruence.
  - destruct Hq'; congruence.
  - assert (t' = t /\ q'' = q') as [-> ->] by (split; congruence). reflexivity.
Qed.

Lemma make_tasks_index (resolvedUrls : list (string * string)) (i : nat) :
  map index (make_tasks i resolvedUrls) = seq i (length resolvedUrls).
Proof.
  revert i. induction resolvedUrls as [|[src res] l IH]; intros i; simpl; [reflexivity|].
  now rewrite IH.
Qed.

Lemma psteps_start_pages (rawUrls : list string) (clk : Clock) (s : Server) :
  sitemap_phase (pc s) = true -> rtc pstep s (start_pages rawUrls clk s).
Proof.
  intros Hpc. unfold server.start_pages.
  destruct rawUrls as [|first rest].
  { apply rtc_once.
    apply (P_sitemap_error s _ "No <url> entries found in the sitemap XML.");
      try reflexivity; try assumption.
    - cbn. now rewrite <- app_assoc.
    - frozen_tac. }
  match goal with
  | |- context [match ?x with Some _ => _ | None => _ end] => destruct x as [b|]
  end.
  2: { apply rtc_once. apply P_reject; try reflexivity; try assumption. frozen_tac. }
  destruct (resolve_all URL_parse host_parse (first :: rest) b) as [resolvedUrls|].
  2: { apply rtc_once. apply P_reject; try reflexivity; try assumption. frozen_tac. }
  cbv zeta.
  set (t0 := {| index := 0; source := ""; resolved := "" |}).
  rewrite (run_queue_args _ clk _ (AwaitSleep t0 SLEEP_MS)).
  match goal with
  | |- rtc pstep s (server.run_queue _ ?q clk ?b) =>
      apply (rtc_l _ _ b);
      [| apply rtc_once; change (pstep b (run_queue (queue b) clk b));
         apply pstep_run_queue; reflexivity ]
  end.
  apply (P_sitemap_done s _ (map snd resolvedUrls) t0); try assumption; cbn.
  - reflexivity.
  - now rewrite length_map.
  - reflexivity.
  - reflexivity.
  - rewrite length_map. apply make_tasks_index.
  - now rewrite length_map.
  - frozen_tac.
Qed.

Lemma pstep_index (e : Event) (p : Pc) (s : Server) :
  sitemap_phase (pc s) = true -> sitemap_phase p = true -> is_index_event e = true ->
  pstep s (set_pc p (emit e s)).
Proof.
  intros Hs Hp He. apply (P_index s _ e); try reflexivity; try assumption. frozen_tac.
Qed.

Lemma psteps_nested_loop (sitemapUrls rawUrls : list string) (clk : Clock) (s : Server) :
  sitemap_phase (pc s) = true -> rtc pstep s (nested_loop sitemapUrls rawUrls clk s).
Proof.
  intros Hpc. unfold server.nested_loop.
  destruct sitemapUrls as [|sitemapUrl rest].
  - apply (rtc_l _ _ (set_pc (pc s) (emit (sitemapindex_resolved (length rawUrls)) s))).
    + now apply pstep_index.
    + apply psteps_start_pages. exact Hpc.
  - apply rtc_once. now apply pstep_index.
Qed.

Lemma psteps_emit_nested_loop (e : Event) (sitemapUrls rawUrls : list string)
    (clk : Clock) (s : Server) :
  sitemap_phase (pc s) = true -> is_index_event e = true ->
  rtc pstep s (nested_loop sitemapUrls rawUrls clk (emit e s)).
Proof.
  intros Hpc He.
  apply (rtc_l _ _ (set_pc (pc s) (emit e s))).
  - now apply pstep_index.
  - apply psteps_nested_loop. exact Hpc.
Qed.

Lemma psteps_nested_fetched (sitemapUrl : string) (rest rawUrls : list string)
    (resp : string + string) (clk : Clock) (s : Server) :
  sitemap_phase (pc s) = true ->
  rtc pstep s (nested_fetched sitemapUrl rest rawUrls resp clk s).
Proof.
  intros Hpc. unfold server.nested_fetched.
  destruct resp as [data|message].
  - destruct (sitemap.parseUrlsFromXml parser_parse data) as [message|[nested|inner]].
    + now apply psteps_emit_nested_loop.
    + now apply psteps_emit_nested_loop.
    + now apply psteps_nested_loop.
  - now apply psteps_emit_nested_loop.
Qed.

Lemma psteps_runValidation (p : Params) (clk : Clock) (s : Server) :
  sitemap_phase (pc s) = true ->
  rtc pstep s
    (runValidation URL_parse host_parse String_trim parser_parse generateHtmlReport
       p clk s).
Proof.
  intros Hpc. unfold runValidation.
  destruct (sitemap.parseUrlsFromXml parser_parse (xml p)) as [message|[rawUrls|sitemapUrls]].
  - apply rtc_once.
    apply (P_sitemap_error s _ message); try reflexivity; try assumption.
    + cbn. now rewrite <- app_assoc.
    + frozen_tac.
  - now apply psteps_start_pages.
  - now apply psteps_emit_nested_loop.
Qed.

Lemma pstep_task_checked (t : Task) (start : Z) (outcome : list W3CMessage + string)
    (clk : Clock) (s : Server) :
  pc s = AwaitChecker t start ->
  pstep s (task_checked t start outcome clk s).
Proof.
  intros Hpc.
  apply (P_checked s _ t start outcome (now clk - start));
    try assumption; try (destruct outcome; reflexivity).
  - destruct outcome; cbn; [now rewrite <- app_assoc|reflexivity].
  - unfold task_checked. destruct outcome; frozen_tac.
Qed.

Lemma pstep_get_stream (s : Server) : pstep s (get_stream s).
Proof.
  unfold get_stream.
  destruct (done (job s)); apply P_quiet; try reflexivity;
    intros c r Hc _; cbn; now apply lookup_app_l_Some.
Qed.

Lemma pstep_on_close (conn : nat) (s : Server) : pstep s (on_close conn s).
Proof.
  apply P_quiet; try reflexivity.
  apply (frozen_conns s s); [reflexivity|apply frozen_refl].
Qed.

(** One turn of the event loop is an abort request or a sequence of
    turns of the pipeline. *)
Lemma step_psteps (s : Server) (l : Label) :
  l <> PostAbort -> rtc pstep s (step s l).
Proof.
  intros Hl. unfold server.step.
  destruct l as [resp clk|outcome clk|clk| | |conn]; try contradiction.
  - destruct (pc s) eqn:Hpc; try apply rtc_refl.
    apply psteps_nested_fetched. now rewrite Hpc.
  - destruct (pc s) eqn:Hpc; try apply rtc_refl.
    apply rtc_once. now apply pstep_task_checked.
  - destruct (pc s) eqn:Hpc; try apply rtc_refl.
    apply rtc_once. apply pstep_run_queue. now rewrite Hpc.
  - destruct (pc s); apply rtc_once, pstep_get_stream.
  - destruct (pc s); apply rtc_once, pstep_on_close.
Qed.

Lemma step_abort (s : Server) : step s PostAbort = post_abort s.
Proof. unfold server.step. now destruct (pc s). Qed.

Lemma post_abort_fields (s : Server) :
  buffered (job (post_abort s)) = buffered (job s) ++ [cancelled; stream_end] /\
  done (job (post_abort s)) = true /\ aborted (job (post_abort s)) = true /\
  pc (post_abort s) = pc s /\ queue (post_abort s) = queue s /\
  results (post_abort s) = results s /\ baseUrl (post_abort s) = baseUrl s /\
  frozen s (post_abort s).
Proof.
  repeat split; try reflexivity.
  - cbn. now rewrite <- app_assoc.
  - unfold post_abort. frozen_tac.
Qed.

Lemma post_validate_psteps (p : Params) (clk : Clock) :
  rtc pstep (created p) (post_validate p clk).
Proof. apply psteps_runValidation. reflexivity. Qed.

(** Induction over the reachable states, turn by turn. *)
Lemma reachable_ind (P : Server -> Prop) :
  (forall p, P (created p)) ->
  (forall s s', pstep s s' -> P s -> P s') ->
  (forall s, P s -> P (post_abort s)) ->
  forall p clk labels, P (run p clk labels).
Proof.
  intros H0 Hp Ha p clk labels.
  assert (Hrtc : forall s s', rtc pstep s s' -> P s -> P s').
  { intros s s' H. induction H as [|x y z Hxy _ IH]; [auto|].
    intros Hx. apply IH. now apply (Hp x y). }
  induction labels as [|l labels IH] using rev_ind.
  - apply (Hrtc (created p)); [apply post_validate_psteps|apply H0].
  - unfold server.run. rewrite fold_left_app. cbn [fold_left].
    assert (l = PostAbort \/ l <> PostAbort) as [->|Hl]
      by (destruct l; (now left) || (right; discriminate)).
    + rewrite step_abort. now apply Ha.
    + apply (Hrtc _ _ (step_psteps _ l Hl)). exact IH.
Qed.

(** *** What a turn appends *)

Lemma count_app (f : Event -> bool) (l l' : list Event) :
  count f (l ++ l') = count f l + count f l'.
Proof. unfold count. now rewrite List.filter_app, length_app. Qed.

Lemma pstep_extends (s s' : Server) :
  pstep s s' -> exists es, buffered (job s') = buffered (job s) ++ es.
Proof.
  intros [ ]; try (eexists; eassumption).
  - exists []. now rewrite app_nil_r.
  - exists []. now rewrite app_nil_r.
Qed.

Lemma pstep_aborted (s s' : Server) : pstep s s' -> aborted (job s') = aborted (job s).
Proof. now intros [ ]. Qed.

Lemma pstep_cancelled (s s' : Server) :
  pstep s s' ->
  count is_cancelled (buffered (job s')) = count is_cancelled (buffered (job s)).
Proof.
  intros [ ];
    repeat match goal with
           | H : buffered (job s') = _ |- _ => rewrite H; clear H
           end; rewrite ?count_app; try reflexivity; try (cbn; lia).
  - destruct e; try discriminate; cbn; lia.
  - destruct outcome; cbn; lia.
Qed.

Lemma psteps_cancelled (s s' : Server) :
  rtc pstep s s' ->
  count is_cancelled (buffered (job s')) = count is_cancelled (buffered (job s)).
Proof.
  induction 1 as [|x y z Hxy _ IH]; [reflexivity|].
  rewrite IH. now apply pstep_cancelled.
Qed.

Lemma run_as_step (p : Params) (clk : Clock) (labels : list Label) (l : Label) :
  run p clk (labels ++ [l]) = step (run p clk labels) l.
Proof. unfold server.run. now rewrite fold_left_app. Qed.

Lemma pstep_fetching (s s' : Server) :
  pstep s s' ->
  exists es,
    buffered (job s') = buffered (job s) ++ es /\
    count is_cancelled es = 0 /\
    (count is_page_fetching es = 0 \/ aborted (job s) = false).
Proof.
  intros [ ];
    match goal with
    | H : buffered (job s') = _ |- _ => rewrite H; clear H
    end;
    first [ eexists; split; [reflexivity|]
          | exists []; split; [now rewrite app_nil_r|] ];
    try (cbn; auto; fail).
  - destruct e; try discriminate; cbn; auto.
  - destruct outcome; cbn; auto.
Qed.

Lemma pstep_done (s s' : Server) :
  pstep s s' ->
  (count is_done (buffered (job s')) = count is_done (buffered (job s)) /\
   (pc s = Settled -> pc s' = Settled)) \/
  (count is_done (buffered (job s')) = S (count is_done (buffered (job s))) /\
   pc s <> Settled /\ pc s' = Settled).
Proof.
  intros [ ];
    repeat match goal with
           | H : buffered (job s') = _ |- _ => rewrite H; clear H
           end; rewrite ?count_app;
    try (left; split; [cbn; lia|];
         intros Hs; rewrite Hs in *; (discriminate || congruence)).
  - left. split; [destruct e; try discriminate; cbn; lia|].
    intros Hs. rewrite Hs in *. discriminate.
  - right. split; [cbn; lia|]. split; [|assumption].
    intros Hs. rewrite Hs in *. discriminate.
  - left. split; [destruct outcome; cbn; lia|]. congruence.
Qed.

Lemma pstep_settled (s s' : Server) :
  pstep s s' -> pc s = Settled ->
  buffered (job s') = buffered (job s) /\ pc s' = Settled.
Proof.
  intros [ ] Hs; rewrite Hs in *; try discriminate.
  split; congruence.
Qed.

Lemma psteps_settled (s s' : Server) :
  rtc pstep s s' -> pc s = Settled ->
  buffered (job s') = buffered (job s) /\ pc s' = Settled.
Proof.
  induction 1 as [|x y z Hxy _ IH]; intros Hs; [auto|].
  destruct (pstep_settled _ _ Hxy Hs) as [Hb Hp].
  destruct (IH Hp) as [Hb' Hp']. split; congruence.
Qed.

Lemma psteps_extends (s s' : Server) :
  rtc pstep s s' -> exists es, buffered (job s') = buffered (job s) ++ es.
Proof.
  induction 1 as [|x y z Hxy _ [es' IH]].
  - exists []. now rewrite app_nil_r.
  - destruct (pstep_extends _ _ Hxy) as [es Hes].
    exists (es ++ es'). now rewrite IH, Hes, app_assoc.
Qed.

Lemma step_extends (s : Server) (l : Label) :
  exists es, buffered (job (step s l)) = buffered (job s) ++ es.
Proof.
  assert (l = PostAbort \/ l <> PostAbort) as [->|Hl]
    by (destruct l; (now left) || (right; discriminate)).
  - rewrite step_abort. eexists. apply post_abort_fields.
  - apply psteps_extends. now apply step_psteps.
Qed.

(** *** No task starts after an abort *)

Lemma count_lookup (f : Event -> bool) (l : list Event) (i : nat) (e : Event) :
  l !! i = Some e -> f e = true -> 1 <= count f l.
Proof.
  revert i. induction l as [|x l IH]; intros [|i] H Hf; try discriminate.
  - injection H as ->. unfold count. cbn. rewrite Hf. cbn. lia.
  - unfold count in *. cbn. specialize (IH i H Hf).
    destruct (f x); cbn; lia.
Qed.

Lemma fetch_before_cancel_app (buf es : list Event) :
  fetch_before_cancel buf ->
  count is_page_fetching es = 0 \/
  (count is_cancelled es = 0 /\ count is_cancelled buf = 0) ->
  fetch_before_cancel (buf ++ es).
Proof.
  intros IH Hes i j k u Hi Hj.
  destruct Hes as [Hf|[Hc Hb]].
  - destruct (decide (j < length buf)) as [Hlt|Hge].
    + destruct (decide (i < length buf)) as [Hi'|Hi']; [|lia].
      rewrite lookup_app_l in Hi, Hj by assumption. eauto.
    + rewrite lookup_app_r in Hj by lia.
      pose proof (count_lookup is_page_fetching _ _ _ Hj eq_refl). lia.
  - destruct (decide (i < length buf)) as [Hi'|Hi'].
    + rewrite lookup_app_l in Hi by assumption.
      pose proof (count_lookup is_cancelled _ _ _ Hi eq_refl). lia.
    + rewrite lookup_app_r in Hi by lia.
      pose proof (count_lookup is_cancelled _ _ _ Hi eq_refl). lia.
Qed.

Lemma abort_inv_run (p : Params) (clk : Clock) (labels : list Label) :
  abort_inv (run p clk labels).
Proof.
  apply reachable_ind; clear.
  - intros p. split; [cbn; lia|]. intros i j k u H. destruct i; discriminate H.
  - intros s s' Hp [Hc Ho]. unfold abort_inv.
    destruct (pstep_fetching _ _ Hp) as (es & Hes & Hnc & Hf).
    pose proof (pstep_cancelled _ _ Hp) as Hcc.
    pose proof (pstep_aborted _ _ Hp) as Ha.
    split; [rewrite Hcc, Ha; exact Hc|].
    rewrite Hes. apply fetch_before_cancel_app; [exact Ho|].
    destruct Hf as [Hf|Hf]; [now left|right].
    split; [exact Hnc|].
    destruct (count is_cancelled (buffered (job s))); [reflexivity|].
    rewrite Hc in Hf by lia. discriminate.
  - intros s [Hc Ho]. unfold abort_inv.
    destruct (post_abort_fields s) as (Hb & _ & Ha & _).
    split; [now intros _|].
    rewrite Hb. apply fetch_before_cancel_app; [exact Ho|now left].
Qed.

Lemma done_inv_run (p : Params) (clk : Clock) (labels : list Label) :
  done_inv (run p clk labels).
Proof.
  apply reachable_ind; clear.
  - intros p. split; cbn; lia.
  - intros s s' Hp [Hle Hs]. unfold done_inv.
    destruct (pstep_done _ _ Hp) as [[-> Hk]|(-> & Hn & Hk)].
    + split; [exact Hle|auto].
    + assert (count is_done (buffered (job s)) = 0) as ->.
      { destruct (count is_done (buffered (job s))); [reflexivity|].
        exfalso. apply Hn, Hs. lia. }
      split; [lia|auto].
  - intros s [Hle Hs]. unfold done_inv.
    destruct (post_abort_fields s) as (Hb & _ & _ & Hp & _).
    rewrite Hb, count_app, Hp. cbn. rewrite Nat.add_0_r. now split.
Qed.

(** C1, as the code has it.  The buffer of a job is append-only: every
    turn of the event loop adds events at its end and changes none.  Once
    [runValidation] has returned, only an abort request adds events.  No
    task starts after an abort: no [page_fetching] event follows a
    [cancelled] event.  The pipeline emits [done] at most once. *)
Theorem buffer_append_only (p : Params) (clk : Clock) (labels : list Label) :
  let s := run p clk labels in
  (forall l, exists es, buffered (job (step s l)) = buffered (job s) ++ es) /\
  (forall l, pc s = Settled -> l <> PostAbort ->
             buffered (job (step s l)) = buffered (job s)) /\
  (forall i j k u,
      buffered (job s) !! i = Some cancelled ->
      buffered (job s) !! j = Some (page_fetching k u) -> j < i) /\
  count is_done (buffered (job s)) <= 1.
Proof.
  cbv zeta. split; [|split; [|split]].
  - intros l. apply step_extends.
  - intros l Hs Hl. now apply (psteps_settled _ _ (step_psteps _ l Hl)).
  - apply abort_inv_run.
  - apply done_inv_run.
Qed.

(** *** The summary *)

Lemma count_status_sum (valid : list PageResult) :
  count_status clean valid + count_status warnings valid +
    count_status errors valid + count_status failed valid = length valid.
Proof.
  unfold count_status.
  induction valid as [|r valid IH]; [reflexivity|].
  cbn. destruct (status r); cbn; lia.
Qed.

Lemma filter_Boolean_length (results : list (option PageResult)) :
  length (filter_Boolean results) <= length results.
Proof.
  unfold filter_Boolean.
  induction results as [|[r|] results IH]; cbn; lia.
Qed.

Lemma filter_Boolean_full (results : list (option PageResult)) :
  (forall i, results !! i <> Some None) ->
  length (filter_Boolean results) = length results.
Proof.
  unfold filter_Boolean.
  induction results as [|[r|] results IH]; intros H; cbn.
  - reflexivity.
  - f_equal. apply IH. intros i. exact (H (S i)).
  - now destruct (H 0).
Qed.

Ltac inv_app H :=
  apply in_app_iff in H; destruct H as [H|H];
  [|cbn in H; repeat (destruct H as [H|H]; try discriminate H); try contradiction].

Lemma summary_inv_pstep (s s' : Server) : pstep s s' -> summary_inv s -> summary_inv s'.
Proof.
  intros Hp (K0 & K1 & K2 & K3). unfold summary_inv, pending in *.
  destruct Hp as
    [Hb Hd Ha Hpc Hq Hr Hu _
    |e Hs Hs' He Hb Hd Ha Hq Hr Hu _
    |m Hs Hpc Hb Hd Ha Hq Hr Hu _
    |Hs Hpc Hb Hd Ha Hq Hr Hu _
    |urls t Hs Hpc Hb Hd Ha Hq Hr _
    |t q start Hm Hpc Hq Hq' Haf Hb Hd Ha Hr Hu _
    |g Hm Hpc Haq Hq' Hb Hd Ha Hr Hu _
    |t start outcome d Hc Hpc Hb Hr Hd Ha Hq Hu _];
    rewrite ?Hb, ?Ha, ?Hr, ?Hu.
  - rewrite Hpc, Hq. auto.
  - destruct (K0 Hs) as [Eq Er]. rewrite Hq, Eq, Er.
    split; [auto|]. split; [|split].
    + intros sm H. inv_app H; [|subst; discriminate].
      apply K1 in H as [H _]. rewrite H in Hs. discriminate.
    + intros i H. destruct i; discriminate.
    + intros n urls H. inv_app H; [|subst; discriminate].
      apply K3 in H as [H _]. congruence.
  - destruct (K0 Hs) as [Eq Er]. rewrite Hpc, Er.
    split; [discriminate|]. split; [|split].
    + intros sm H. inv_app H.
      apply K1 in H as [H _]. rewrite H in Hs. discriminate.
    + intros i H. destruct i; discriminate.
    + intros n urls H. inv_app H.
      apply K3 in H as [H _]. congruence.
  - destruct (K0 Hs) as [Eq Er]. rewrite Hpc, Er.
    split; [discriminate|]. split; [|split].
    + intros sm H. apply K1 in H as [H _]. rewrite H in Hs. discriminate.
    + intros i H. destruct i; discriminate.
    + intros n urls H. apply K3 in H as [H _]. congruence.
  - rewrite Hpc.
    split; [discriminate|]. split; [|split].
    + intros sm H. inv_app H.
      apply K1 in H as [H _]. rewrite H in Hs. discriminate.
    + intros i H. right. split; [discriminate|]. cbn. rewrite Hq.
      apply lookup_replicate in H as [_ H]. apply in_seq. lia.
    + intros n urls' H. inv_app H.
      * apply K3 in H as [H _]. congruence.
      * injection H as <- <-. rewrite length_replicate. auto.
  - rewrite Hpc, Hq'.
    split; [discriminate|]. split; [|split].
    + intros sm H. inv_app H.
      apply K1 in H as [H _]. rewrite H in Hm. discriminate.
    + intros i H. apply K2 in H as [H|[_ H]]; [now left|right].
      split; [discriminate|]. rewrite Hq in H.
      destruct (pc s); try discriminate; exact H.
    + intros n urls H. inv_app H. apply K3 in H as (_ & H1 & H2). auto.
  - rewrite Hpc, Hq'.
    split; [discriminate|]. split; [|split].
    + intros sm H. split; [reflexivity|]. inv_app H.
      * apply K1 in H as [H _]. rewrite H in Hm. discriminate.
      * injection H as <-. now exists g.
    + intros i H. apply K2 in H as [H|[_ H]]; [now left|left].
      destruct Haq as [Haq|Haq]; [exact Haq|].
      rewrite Haq in H. destruct (pc s); try discriminate; destruct H.
    + intros n urls H. inv_app H. apply K3 in H as (_ & H1 & H2). auto.
  - rewrite Hpc, Hq.
    split; [discriminate|]. split; [|split].
    + intros sm H. apply in_app_iff in H as [H|H].
      * apply K1 in H as [H _]. congruence.
      * destruct outcome; cbn in H;
          repeat (destruct H as [H|H]; try discriminate H); contradiction.
    + intros i H.
      destruct (decide (i = index t)) as [->|Hne].
      * pose proof (lookup_lt_Some _ _ _ H) as Hlt. rewrite length_insert in Hlt.
        rewrite list_lookup_insert_eq in H by exact Hlt. discriminate.
      * rewrite list_lookup_insert_ne in H by congruence.
        apply K2 in H as [H|[_ H]]; [now left|right].
        split; [discriminate|]. rewrite Hc in H. cbn in *.
        destruct H as [H|H]; [congruence|exact H].
    + intros n urls H. rewrite length_insert. apply in_app_iff in H as [H|H].
      * apply K3 in H as (_ & H1 & H2). auto.
      * destruct outcome; cbn in H;
          repeat (destruct H as [H|H]; try discriminate H); contradiction.
Qed.

Lemma summary_inv_run (p : Params) (clk : Clock) (labels : list Label) :
  summary_inv (run p clk labels).
Proof.
  apply reachable_ind; clear.
  - intros p. unfold summary_inv. cbn. repeat split; try contradiction.
    intros i H. destruct i; discriminate.
  - intros s s' Hp. now apply summary_inv_pstep.
  - intros s (K0 & K1 & K2 & K3). unfold summary_inv, pending.
    destruct (post_abort_fields s) as (Hb & _ & Ha & Hpc & Hq & Hr & Hu & _).
    rewrite Hb, Ha, Hpc, Hq, Hr, Hu.
    split; [exact K0|]. split; [|split].
    + intros sm H. inv_app H. now apply K1.
    + intros i _. now left.
    + intros n urls H. inv_app H. now apply K3.
Qed.

(** C5, as the code has it.  In the summary of a [done] event the four
    page counts add up to [totalPages], and [totalPages] is the number of
    slots of the results array that were written: at most the number of
    resolved URLs, and exactly that number when the job was not aborted. *)
Theorem summary_counts (p : Params) (clk : Clock) (labels : list Label)
    (summary : ReportSummary) :
  let s := run p clk labels in
  In (done_ summary) (buffered (job s)) ->
  pagesClean summary + pagesWithWarnings summary + pagesWithErrors summary +
    pagesFailed summary = totalPages summary /\
  totalPages summary = length (filter_Boolean (results s)) /\
  totalPages summary <= length (results s) /\
  (aborted (job s) = false -> totalPages summary = length (results s)) /\
  (forall n urls,
      In (sitemap_done n urls) (buffered (job s)) ->
      length (results s) = n /\ length urls = n).
Proof.
  cbv zeta. intros H.
  destruct (summary_inv_run p clk labels) as (_ & K1 & K2 & K3).
  destruct (K1 _ H) as (Hpc & g & ->). cbn.
  split; [apply count_status_sum|]. split; [reflexivity|].
  split; [apply filter_Boolean_length|]. split.
  - intros Ha. apply filter_Boolean_full. intros i Hi.
    apply K2 in Hi as [Hi|[Hi _]]; congruence.
  - intros n urls Hn. now apply K3 in Hn.
Qed.

(** *** Pacing *)

Lemma pace_inv_run (p : Params) (clk : Clock) (labels : list Label) :
  pace_inv (run p clk labels).
Proof.
  apply reachable_ind; clear.
  - intros p. split; [discriminate|]. split; [reflexivity|now left].
  - intros s s' Hp (Hs & Hc & Hw). unfold pace_inv, slots_held in *.
    destruct Hp as
      [Hb Hd Ha Hpc Hq Hr Hu _
      |e Hph Hph' He Hb Hd Ha Hq Hr Hu _
      |m Hph Hpc Hb Hd Ha Hq Hr Hu _
      |Hph Hpc Hb Hd Ha Hq Hr Hu _
      |urls t Hph Hpc Hb Hd Ha Hq Hr _
      |t q start Hm Hpc Hq Hq' Haf Hb Hd Ha Hr Hu _
      |g Hm Hpc Haq Hq' Hb Hd Ha Hr Hu _
      |t start outcome d Hk Hpc Hb Hr Hd Ha Hq Hu _];
      rewrite ?Hb, ?Hpc, ?count_app, ?Hc.
    + rewrite Hq. auto.
    + split; [|split].
      * intros t ms E. rewrite E in Hph'. discriminate.
      * destruct (pc s); try discriminate; destruct (pc s'); try discriminate;
          destruct e; try discriminate; cbn; lia.
      * left. rewrite Hq. destruct Hw as [Hw|Hw]; [exact Hw|].
        destruct (pc s); discriminate.
    + split; [discriminate|]. split.
      * destruct (pc s); try discriminate; cbn; lia.
      * left. rewrite Hq. destruct Hw as [Hw|Hw]; [exact Hw|].
        destruct (pc s); discriminate.
    + split; [discriminate|]. split.
      * destruct (pc s); try discriminate; cbn; lia.
      * left. rewrite Hq. destruct Hw as [Hw|Hw]; [exact Hw|].
        destruct (pc s); discriminate.
    + split; [congruence|]. split; [|now right].
      destruct (pc s); try discriminate; cbn; lia.
    + split; [discriminate|]. split; [|now right].
      destruct (pc s); try discriminate; cbn; lia.
    + split; [discriminate|]. split; [|left; exact Hq'].
      destruct (pc s); try discriminate; cbn; lia.
    + split; [congruence|]. split; [|now right]. rewrite Hk.
      destruct outcome; cbn; lia.
  - intros s (Hs & Hc & Hw). unfold pace_inv, slots_held in *.
    destruct (post_abort_fields s) as (Hb & _ & _ & Hpc & Hq & _).
    rewrite Hb, Hpc, Hq, !count_app, Hc. split; [exact Hs|]. split; [cbn; lia|exact Hw].
Qed.

(** C6, as the code has it.  The limiter has width 1 and every task sleeps
    1000 ms, whatever the submission carries: at most one page is between
    its [page_fetching] and its [page_done], at most one slot is taken and a
    task waits in the queue only while it is, every sleep of the pipeline
    lasts 1000 ms, and two submissions that differ only in [concurrency]
    and [interTaskDelayMs] run alike. *)
Theorem pipeline_pacing (p : Params) (clk : Clock) (labels : list Label) :
  let s := run p clk labels in
  LIMIT = 1 /\ SLEEP_MS = 1000%Z /\
  in_flight (buffered (job s)) <= LIMIT /\
  slots_held s <= LIMIT /\
  (queue s <> [] -> slots_held s = LIMIT) /\
  (forall t ms, pc s = AwaitSleep t ms -> ms = SLEEP_MS) /\
  (forall c d,
      run {| xml := xml p; base := base p; concurrency := c; interTaskDelayMs := d |}
        clk labels = s).
Proof.
  cbv zeta. destruct (pace_inv_run p clk labels) as (Hs & Hc & Hw).
  split; [reflexivity|]. split; [reflexivity|]. split; [|split; [|split; [|split]]].
  - unfold in_flight, LIMIT. rewrite Hc.
    destruct (pc (run p clk labels)); lia.
  - unfold slots_held, LIMIT. destruct (pc (run p clk labels)); lia.
  - intros Hq. destruct Hw as [Hw|Hw]; [contradiction|exact Hw].
  - exact Hs.
  - reflexivity.
Qed.

(** *** One page *)

Lemma count_type_pos (t : MessageType) (messages : list W3CMessage) :
  0 < count_type t messages <-> exists m, In m messages /\ type m = t.
Proof.
  unfold count_type.
  induction messages as [|m messages IH]; cbn.
  - split; [lia|]. intros (m & [] & _).
  - destruct (MessageType_eqb (type m) t) eqn:E; cbn.
    + split; [|lia]. intros _. exists m. split; [now left|].
      destruct (type m), t; (reflexivity || discriminate).
    + rewrite IH. split.
      * intros (m' & Hin & Ht). exists m'. split; [now right|exact Ht].
      * intros (m' & [->|Hin] & Ht); [|now exists m'].
        rewrite Ht in E. destruct t; discriminate.
Qed.

Lemma classify_spec (messages : list W3CMessage) :
  let has t := exists m, In m messages /\ type m = t in
  (classify messages = errors <-> has error) /\
  (classify messages = warnings <-> ~ has error /\ has warning) /\
  (classify messages = clean <-> ~ has error /\ ~ has warning) /\
  classify messages <> failed.
Proof.
  cbv zeta. unfold classify.
  rewrite <- !count_type_pos.
  destruct (Nat.ltb_spec 0 (count_type error messages)) as [He|He];
    [|destruct (Nat.ltb_spec 0 (count_type warning messages)) as [Hw|Hw]];
    repeat split; try discriminate; try lia; try (intros; lia);
    try (intros [? ?]; lia).
Qed.

Lemma step_checker_done (s : Server) (t : Task) (start : Z)
    (outcome : list W3CMessage + string) (clk : Clock) :
  pc s = AwaitChecker t start ->
  let result := page_result t outcome (now clk - start) in
  let s' := step s (CheckerDone outcome clk) in
  buffered (job s') = buffered (job s) ++ page_events t outcome result /\
  results s' = <[index t := Some result]> (results s) /\
  pc s' = AwaitSleep t SLEEP_MS /\ queue s' = queue s /\
  done (job s') = done (job s) /\ aborted (job s') = aborted (job s).
Proof.
  intros Hpc. cbv zeta. unfold server.step. rewrite Hpc.
  destruct outcome; cbn; rewrite <- ?app_assoc; repeat split; reflexivity.
Qed.

Lemma step_sleep_done (s : Server) (t : Task) (ms : Z) (clk : Clock) :
  pc s = AwaitSleep t ms -> aborted (job s) = false ->
  let s' := step s (SleepDone clk) in
  match queue s with
  | t' :: q =>
      buffered (job s') =
        buffered (job s) ++ [page_fetching (index t') (resolved t')] /\
      pc s' = AwaitChecker t' (now clk) /\ queue s' = q /\
      done (job s') = done (job s) /\ aborted (job s') = false
  | [] =>
      buffered (job s') =
        buffered (job s) ++
        [done_ (make_summary (filter_Boolean (results s)) (iso clk) (baseUrl s));
         stream_end] /\
      pc s' = Settled /\ done (job s') = true
  end.
Proof.
  intros Hpc Ha. cbv zeta. unfold server.step. rewrite Hpc.
  destruct (queue s) as [|t' q]; cbn; rewrite ?Ha; cbn;
    rewrite <- ?app_assoc; repeat split; reflexivity || exact Ha.
Qed.

Lemma settle_all_cons (clk : Clock) (o : list W3CMessage + string)
    (os : list (list W3CMessage + string)) (s : Server) :
  fold_left step (settle_all clk (o :: os)) s =
  fold_left step (settle_all clk os) (step (step s (CheckerDone o clk)) (SleepDone clk)).
Proof. reflexivity. Qed.

(** A job that is not aborted runs through all its remaining pages,
    whatever their checker calls settle with, and ends with [done]. *)
Lemma pages_run_to_done (q : list Task) :
  forall s t start clk outcomes,
    pc s = AwaitChecker t start -> queue s = q -> aborted (job s) = false ->
    length outcomes = S (length q) ->
    let s' := fold_left step (settle_all clk outcomes) s in
    pc s' = Settled /\ done (job s') = true /\
    count is_page_done (buffered (job s')) =
      count is_page_done (buffered (job s)) + length outcomes /\
    count is_done (buffered (job s')) = S (count is_done (buffered (job s))).
Proof.
  induction q as [|t' q IH]; intros s t start clk outcomes Hpc Hq Ha Hlen; cbv zeta;
    destruct outcomes as [|o os]; try discriminate Hlen;
    rewrite settle_all_cons;
    pose proof (step_checker_done s t start o clk Hpc) as H1; cbv zeta in H1;
    destruct H1 as (Hb1 & _ & Hpc1 & Hq1 & _ & Ha1);
    rewrite Ha in Ha1;
    pose proof (step_sleep_done _ t SLEEP_MS clk Hpc1 Ha1) as H2; cbv zeta in H2;
    rewrite Hq1, Hq in H2.
  - destruct os; [|discriminate Hlen]. cbn [settle_all flat_map fold_left].
    destruct H2 as (Hb2 & Hpc2 & Hd2).
    split; [exact Hpc2|]. split; [exact Hd2|].
    rewrite Hb2, Hb1, !count_app. destruct o; cbn; lia.
  - destruct H2 as (Hb2 & Hpc2 & Hq2 & _ & Ha2).
    assert (Hlen' : length os = S (length q)) by (cbn in Hlen; lia).
    pose proof (IH _ t' (now clk) clk os Hpc2 Hq2 Ha2 Hlen') as H3; cbv zeta in H3.
    destruct H3 as (Hpc3 & Hd3 & Hc3 & Hn3).
    split; [exact Hpc3|]. split; [exact Hd3|].
    rewrite Hc3, Hn3, Hb2, Hb1, !count_app. destruct o; cbn; lia.
Qed.

(** A nested sitemap that is itself an index leaves no trace: the loop goes
    on to the next nested sitemap with the URLs collected so far. *)
Lemma step_nested_index (s : Server) (sitemapUrl : string) (rest rawUrls : list string)
    (data : string) (inner : list string) (clk : Clock) :
  pc s = AwaitNested sitemapUrl rest rawUrls ->
  sitemap.parseUrlsFromXml parser_parse data = inr (sitemap.sitemapindex_ inner) ->
  step s (NestedFetchDone (inl data) clk) = nested_loop rest rawUrls clk s.
Proof.
  intros Hpc Hparse. unfold server.step, server.nested_fetched.
  now rewrite Hpc, Hparse.
Qed.

(** C7. A page whose checker call succeeds is classified errors exactly
    when a message of kind error is present, else warnings exactly when a
    message of kind warning is present, else clean.  A page whose checker
    call fails gets status failed, no messages and the failure description
    as errorMessage.  Either way the task writes its result, emits
    [page_done] and goes to sleep with the queue as it was, the job not
    ended by it; when the sleep is over the pipeline starts the next
    queued page, or emits the summary when none is left.  So a job that is
    not aborted emits [page_done] for every remaining page and then [done],
    whatever the checker calls settle with. *)
Theorem page_result_classification (t : Task) (d : Z) :
  (forall messages,
      let r := page_result t (inl messages) d in
      let has k := exists m, In m messages /\ type m = k in
      (status r = errors <-> has error) /\
      (status r = warnings <-> ~ has error /\ has warning) /\
      (status r = clean <-> ~ has error /\ ~ has warning) /\
      status r <> failed /\ messages = types.messages r /\ errorMessage r = None) /\
  (forall message,
      let r := page_result t (inr message) d in
      status r = failed /\ types.messages r = [] /\ errorMessage r = Some message) /\
  (forall s start outcome clk,
      pc s = AwaitChecker t start ->
      let result := page_result t outcome (now clk - start) in
      let s' := step s (CheckerDone outcome clk) in
      buffered (job s') = buffered (job s) ++ page_events t outcome result /\
      results s' = <[index t := Some result]> (results s) /\
      pc s' = AwaitSleep t SLEEP_MS /\ queue s' = queue s /\
      done (job s') = done (job s) /\ aborted (job s') = aborted (job s)) /\
  (forall s ms clk,
      pc s = AwaitSleep t ms -> aborted (job s) = false ->
      let s' := step s (SleepDone clk) in
      match queue s with
      | t' :: q =>
          buffered (job s') =
            buffered (job s) ++ [page_fetching (index t') (resolved t')] /\
          pc s' = AwaitChecker t' (now clk) /\ queue s' = q /\
          done (job s') = done (job s)
      | [] =>
          buffered (job s') =
            buffered (job s) ++
            [done_ (make_summary (filter_Boolean (results s)) (iso clk) (baseUrl s));
             stream_end] /\
          pc s' = Settled /\ done (job s') = true
      end) /\
  (forall s start clk outcomes,
      pc s = AwaitChecker t start -> aborted (job s) = false ->
      length outcomes = S (length (queue s)) ->
      let s' := fold_left step (settle_all clk outcomes) s in
      pc s' = Settled /\ done (job s') = true /\
      count is_page_done (buffered (job s')) =
        count is_page_done (buffered (job s)) + length outcomes /\
      count is_done (buffered (job s')) = S (count is_done (buffered (job s)))).
Proof.
  split; [|split; [|split; [|split]]].
  - intros messages. cbv zeta. cbn.
    destruct (classify_spec messages) as (H1 & H2 & H3 & H4).
    split; [exact H1|]. split; [exact H2|]. split; [exact H3|].
    split; [exact H4|]. split; reflexivity.
  - intros message. cbn. auto.
  - intros s start outcome clk Hpc. now apply step_checker_done.
  - intros s ms clk Hpc Ha.
    pose proof (step_sleep_done s t ms clk Hpc Ha) as H. cbv zeta in H |- *.
    destruct (queue s); [exact H|]. destruct H as (H1 & H2 & H3 & H4 & _). auto.
  - intros s start clk outcomes Hpc Ha Hlen.
    now apply (pages_run_to_done (queue s) s t start).
Qed.

(** *** Observers *)

Lemma replay (buf w : list Event) :
  fold_left (fun res d => res_write d res) buf {| written := w; ended := false |} =
  {| written := w ++ buf; ended := false |}.
Proof.
  revert w. induction buf as [|d buf IH]; intros w; cbn.
  - now rewrite app_nil_r.
  - rewrite IH. now rewrite <- app_assoc.
Qed.

Lemma pstep_frozen (s s' : Server) : pstep s s' -> frozen s s'.
Proof. now intros [ ]. Qed.

Lemma psteps_frozen (s s' : Server) : rtc pstep s s' -> frozen s s'.
Proof.
  induction 1 as [|x y z Hxy _ IH].
  - apply frozen_refl.
  - apply (frozen_trans x y z); [apply pstep_frozen; exact Hxy|exact IH].
Qed.

Lemma step_frozen (s : Server) (l : Label) : frozen s (step s l).
Proof.
  assert (l = PostAbort \/ l <> PostAbort) as [->|Hl]
    by (destruct l; (now left) || (right; discriminate)).
  - rewrite step_abort. apply post_abort_fields.
  - apply psteps_frozen. now apply step_psteps.
Qed.

Lemma steps_frozen (labels : list Label) (s : Server) :
  frozen s (fold_left step labels s).
Proof.
  revert s. induction labels as [|l labels IH]; intros s; cbn.
  - apply frozen_refl.
  - eapply frozen_trans; [apply step_frozen|apply IH].
Qed.

Lemma last_two (buf : list Event) (a b : Event) : last (buf ++ [a; b]) = Some b.
Proof. change (buf ++ [a; b]) with (buf ++ [a] ++ [b]). now rewrite app_assoc, last_snoc. Qed.

Lemma stream_inv_run (p : Params) (clk : Clock) (labels : list Label) :
  stream_inv (run p clk labels).
Proof.
  apply reachable_ind; clear.
  - intros p. split; discriminate.
  - intros s s' Hp [Hd Hl]. unfold stream_inv.
    destruct Hp as
      [Hb Hdn Ha Hpc Hq Hr Hu _
      |e Hph Hph' He Hb Hdn Ha Hq Hr Hu _
      |m Hph Hpc Hb Hdn Ha Hq Hr Hu _
      |Hph Hpc Hb Hdn Ha Hq Hr Hu _
      |urls t Hph Hpc Hb Hdn Ha Hq Hr _
      |t q start Hm Hpc Hq Hq' Haf Hb Hdn Ha Hr Hu _
      |g Hm Hpc Haq Hq' Hb Hdn Ha Hr Hu _
      |t start outcome d Hk Hpc Hb Hr Hdn Ha Hq Hu _];
      rewrite ?Hb, ?Hdn, ?Hpc.
    + auto.
    + split; [intros H; apply in_app_iff; auto|].
      intros E. rewrite E in Hph'. discriminate.
    + split; [intros _; apply in_app_iff; right; cbn; auto|].
      intros _. apply last_two.
    + split; [exact Hd|discriminate].
    + split; [intros H; apply in_app_iff; auto|discriminate].
    + split; [intros H; apply in_app_iff; auto|discriminate].
    + split; [intros _; apply in_app_iff; right; cbn; auto|].
      intros _. apply last_two.
    + split; [intros H; apply in_app_iff; auto|discriminate].
  - intros s [Hd Hl]. unfold stream_inv.
    destruct (post_abort_fields s) as (Hb & _).
    rewrite Hb. split; [intros _; apply in_app_iff; right; cbn; auto|].
    intros _. apply last_two.
Qed.

(** C9, as the code has it.  An observer attached to a job that is marked
    [done] is sent at once the whole sequence buffered at that moment,
    which holds a [stream_end] (and ends with it when [runValidation] has
    returned); its response is ended, no listener is registered for it,
    and nothing is ever written to it afterwards. *)
Theorem late_observer_replay (p : Params) (clk : Clock) (labels : list Label) :
  let s := run p clk labels in
  done (job s) = true ->
  let c := length (conns s) in
  let s1 := step s GetStream in
  let sent := {| written := buffered (job s); ended := true |} in
  conns s1 !! c = Some sent /\
  listeners (job s1) = listeners (job s) /\
  In stream_end (buffered (job s)) /\
  (pc s = Settled -> last (buffered (job s)) = Some stream_end) /\
  (forall labels', conns (fold_left step labels' s1) !! c = Some sent).
Proof.
  cbv zeta. intros Hd.
  assert (Hs : step (run p clk labels) GetStream = get_stream (run p clk labels))
    by (unfold server.step; now destruct (pc (run p clk labels))).
  assert (Hc : conns (get_stream (run p clk labels)) !! length (conns (run p clk labels)) =
               Some {| written := buffered (job (run p clk labels)); ended := true |}).
  { unfold get_stream. rewrite Hd. cbn.
    rewrite lookup_app_r by lia. rewrite Nat.sub_diag. cbn.
    now rewrite replay. }
  destruct (stream_inv_run p clk labels) as [Hi Hl].
  rewrite Hs. split; [exact Hc|]. split.
  - unfold get_stream. now rewrite Hd.
  - split; [now apply Hi|]. split; [exact Hl|].
    intros labels'. now apply steps_frozen.
Qed.

(** *** Abort requests *)

Lemma count_aborts_app (labels : list Label) (l : Label) :
  count_aborts (labels ++ [l]) = count_aborts labels + (if is_abort l then 1 else 0).
Proof.
  unfold count_aborts. rewrite List.filter_app, length_app. cbn.
  now destruct (is_abort l).
Qed.

Lemma run_cancelled (p : Params) (clk : Clock) (labels : list Label) :
  count is_cancelled (buffered (job (run p clk labels))) = count_aborts labels.
Proof.
  induction labels as [|l labels IH] using rev_ind.
  - unfold server.run. cbn [fold_left].
    now rewrite (psteps_cancelled _ _ (post_validate_psteps p clk)).
  - rewrite run_as_step, count_aborts_app.
    assert (l = PostAbort \/ l <> PostAbort) as [->|Hl]
      by (destruct l; (now left) || (right; discriminate)).
    + rewrite step_abort.
      destruct (post_abort_fields (run p clk labels)) as (-> & _).
      rewrite count_app, IH. reflexivity.
    + rewrite (psteps_cancelled _ _ (step_psteps _ l Hl)), IH.
      destruct l; try contradiction; cbn; lia.
Qed.

(** C2, as the code has it.  Every abort request appends one [cancelled]
    event followed by [stream_end]: the number of [cancelled] events in
    the sequence of a job is the number of abort requests it received.  A
    request after the first leaves the [aborted] and [done] flags, the
    program point, the queue and the results as they are. *)
Theorem abort_appends_cancelled (p : Params) (clk : Clock) (labels : list Label) :
  let s := run p clk labels in
  let s1 := step s PostAbort in
  let s2 := step s1 PostAbort in
  count is_cancelled (buffered (job s)) = count_aborts labels /\
  buffered (job s1) = buffered (job s) ++ [cancelled; stream_end] /\
  aborted (job s1) = true /\ done (job s1) = true /\
  buffered (job s2) = buffered (job s1) ++ [cancelled; stream_end] /\
  aborted (job s2) = aborted (job s1) /\ done (job s2) = done (job s1) /\
  pc s2 = pc s1 /\ queue s2 = queue s1 /\ results s2 = results s1.
Proof.
  cbv zeta. rewrite !step_abort.
  destruct (post_abort_fields (run p clk labels)) as (Hb & Hd & Ha & _).
  destruct (post_abort_fields (post_abort (run p clk labels)))
    as (Hb2 & Hd2 & Ha2 & Hp2 & Hq2 & Hr2 & _).
  split; [apply run_cancelled|].
  repeat split; congruence.
Qed.

End ServerProps.

(** C2 as written fails on two abort requests in a row: each appends its own
    [cancelled] event. *)
Lemma abort_twice_two_cancelled :
  ~ statements.abort_idempotent
      (examples.run (examples.two_pages None None) (examples.clock 0)).
Proof.
  intros H.
  specialize (H [server.PostAbort; server.PostAbort]).
  vm_compute in H.
  specialize (H (le_n 2)). discriminate H.
Qed.

(** C1 as written fails when a job is aborted while a task is in flight:
    [cancelled] is in the buffer, and the task's completion still appends
    its events. *)
Lemma events_follow_cancelled :
  ~ statements.frozen_once_terminal
      (examples.run (examples.two_pages None None) (examples.clock 0)).
Proof.
  intros H.
  specialize (H [server.PostAbort] (server.CheckerDone (inl []) (examples.clock 5))).
  vm_compute in H.
  specialize (H eq_refl). discriminate H.
Qed.

(** C5 on a run of two pages, the second of which fails. *)
Lemma summary_counts_witness :
  exists summary,
    In (server.done_ summary)
       (server.buffered (server.job
          (examples.run (examples.two_pages None None) (examples.clock 0)
             [server.CheckerDone (inl []) (examples.clock 5);
              server.SleepDone (examples.clock 1005);
              server.CheckerDone (inr "timeout") (examples.clock 1010);
              server.SleepDone (examples.clock 2010)]))) /\
    types.totalPages summary = 2 /\ types.pagesClean summary = 1 /\
    types.pagesFailed summary = 1.
Proof.
  eexists. split; [|split; [|split]].
  - vm_compute. do 6 right. left. reflexivity.
  - pose proof (summary_counts examples.URL_parse examples.host_parse
                  examples.String_trim examples.parser_parse
                  examples.generateHtmlReport
                  (examples.two_pages None None) (examples.clock 0)
                  [server.CheckerDone (inl []) (examples.clock 5);
                   server.SleepDone (examples.clock 1005);
                   server.CheckerDone (inr "timeout") (examples.clock 1010);
                   server.SleepDone (examples.clock 2010)] _
                  ltac:(vm_compute; do 6 right; left; reflexivity)) as (_ & H & _).
    exact H.
  - reflexivity.
  - reflexivity.
Defined.

(** C5 as written fails when a job of two pages is aborted while the first
    page is in flight: the summary counts one page. *)
Lemma summary_after_abort_counts_less :
  ~ statements.summary_covers_all_urls
      (examples.run (examples.two_pages None None) (examples.clock 0)
         [server.PostAbort;
          server.CheckerDone (inl []) (examples.clock 5);
          server.SleepDone (examples.clock 1005)]).
Proof.
  intros H. unfold statements.summary_covers_all_urls in H.
  vm_compute in H.
  edestruct H as [_ H2].
  - do 6 right. left. reflexivity.
  - specialize (H2 2 _ (or_introl eq_refl)). discriminate H2.
Qed.

(** C6 as written fails on a submission of two pages that asks for a width
    of 2 and no delay: the second page waits in the queue while one slot is
    taken, and the first task then sleeps 1000 ms. *)
Lemma options_are_not_read :
  ~ statements.honours_options
      (examples.run (examples.two_pages (Some 2) (Some 0)) (examples.clock 0))
      (examples.two_pages (Some 2) (Some 0)).
Proof.
  intros H.
  destruct (H []) as (_ & Hw & _).
  vm_compute in Hw.
  assert (Hq : forall t : server.Task, [t] <> []) by discriminate.
  specialize (Hw (Hq _)). discriminate Hw.
Qed.

(** C7 on a run of two pages whose first checker call fails: the second
    page is fetched all the same. *)
Lemma page_result_classification_witness :
  let t0 := {| server.index := 0; server.source := "https://example.com/a";
               server.resolved := "https://example.com/a" |} in
  let s0 := examples.run (examples.two_pages None None) (examples.clock 0) [] in
  let s1 := examples.run (examples.two_pages None None) (examples.clock 0)
              [server.CheckerDone (inr "timeout") (examples.clock 5)] in
  server.pc s0 = server.AwaitChecker t0 0 /\
  server.results s1 =
    [Some (server.page_result t0 (inr "timeout") 5); None] /\
  server.pc s1 = server.AwaitSleep t0 1000 /\
  server.done (server.job s1) = false.
Proof.
  cbv zeta.
  assert (H0 : server.pc (examples.run (examples.two_pages None None) (examples.clock 0) []) =
               server.AwaitChecker
                 {| server.index := 0; server.source := "https://example.com/a";
                    server.resolved := "https://example.com/a" |} 0) by reflexivity.
  split; [exact H0|].
  destruct (page_result_classification examples.URL_parse examples.host_parse
              examples.String_trim examples.parser_parse examples.generateHtmlReport
              {| server.index := 0; server.source := "https://example.com/a";
                 server.resolved := "https://example.com/a" |} 0)
    as (_ & _ & H & _ & _).
  destruct (H (examples.run (examples.two_pages None None) (examples.clock 0) [])
              0%Z (inr "timeout") (examples.clock 5) H0)
    as (_ & Hr & Hpc & _ & Hd & _).
  split; [exact Hr|]. split; [exact Hpc|]. exact Hd.
Defined.

(** C9 on a job that ran to its end. *)
Lemma late_observer_replay_witness :
  let s := server.run examples.URL_parse examples.host_parse examples.String_trim
             examples.parser_parse examples.generateHtmlReport
             (examples.two_pages None None) (examples.clock 0)
             examples.both_pages_clean in
  server.done (server.job s) = true /\
  server.conns
    (server.step examples.URL_parse examples.host_parse examples.String_trim
       examples.parser_parse examples.generateHtmlReport s server.GetStream)
    !! length (server.conns s) =
  Some {| server.written := server.buffered (server.job s); server.ended := true |}.
Proof.
  cbv zeta.
  assert (Hd : server.done (server.job
                 (server.run examples.URL_parse examples.host_parse examples.String_trim
                    examples.parser_parse examples.generateHtmlReport
                    (examples.two_pages None None) (examples.clock 0)
                    examples.both_pages_clean)) = true)
    by (vm_compute; reflexivity).
  split; [exact Hd|].
  exact (proj1 (late_observer_replay examples.URL_parse examples.host_parse
                  examples.String_trim examples.parser_parse examples.generateHtmlReport
                  (examples.two_pages None None) (examples.clock 0)
                  examples.both_pages_clean Hd)).
Defined.

(** C9 as written fails on a job aborted while its first page is in flight:
    the job is marked [done], the task then appends its events, and an
    observer attached at that moment receives a sequence that ends with
    [page_done]. *)
Lemma late_observer_sees_page_done_last :
  ~ statements.late_observer_ends_terminal
      (examples.run (examples.two_pages None None) (examples.clock 0)
         [server.PostAbort; server.CheckerDone (inl []) (examples.clock 5)]).
Proof.
  intros H. unfold statements.late_observer_ends_terminal in H.
  destruct (H eq_refl) as (r & pre & e & Hr & Hw & He).
  vm_compute in Hr. injection Hr as <-. cbn in Hw.
  assert (Hl : last (pre ++ [e]) = Some e) by apply last_snoc.
  rewrite <- Hw in Hl. cbn in Hl. injection Hl as <-. discriminate He.
Qed.

(** C3 at a sitemap index whose one nested sitemap is itself an index: the
    server emits [sitemapindex_fetching] for it and then neither
    [sitemapindex_fetched] nor [sitemapindex_fetch_error]; the inner index is
    not followed and the job ends with an empty-sitemap error. *)
Lemma nested_index_is_dropped :
  server.buffered (server.job
    (examples.run examples.index_of_index (examples.clock 0)
       [server.NestedFetchDone (inl examples.xml_inner_index) (examples.clock 3)])) =
  [server.sitemapindex_resolving 1 ["https://example.com/nested.xml"];
   server.sitemapindex_fetching "https://example.com/nested.xml";
   server.sitemapindex_resolved 0;
   server.sitemap_error "No <url> entries found in the sitemap XML.";
   server.stream_end].
Proof. reflexivity. Qed.


(** * Further properties of the code *)

(** ** html-report.ts: [escapeHtml] *)

Section EscapeProps.
Import html_report.

Lemma append_cons (a : Ascii.ascii) (x y : string) :
  String a x +:+ y = String a (x +:+ y).
Proof. reflexivity. Qed.

Lemma append_assoc (x y z : string) : (x +:+ y) +:+ z = x +:+ (y +:+ z).
Proof.
  induction x as [|a x IH]; [reflexivity|]. now rewrite !append_cons, IH.
Qed.

Lemma replace_all_append (c : Ascii.ascii) (rep x y : string) :
  replace_all c rep (x +:+ y) = replace_all c rep x +:+ replace_all c rep y.
Proof.
  induction x as [|a x IH]; [reflexivity|].
  rewrite append_cons. cbn [replace_all].
  destruct (Ascii.eqb a c); rewrite IH; [now rewrite append_assoc|reflexivity].
Qed.

(** The five passes together rewrite each character on its own. *)
Lemma escapeHtml_cons (a : Ascii.ascii) (rest : string) :
  escapeHtml (String a rest) = escape_char a +:+ escapeHtml rest.
Proof.
  unfold escapeHtml, escape_char.
  cbn [replace_all].
  destruct (Ascii.eqb_spec a c_amp) as [->|Hamp].
  { rewrite !replace_all_append. reflexivity. }
  cbn [replace_all].
  destruct (Ascii.eqb_spec a c_lt) as [->|Hlt].
  { rewrite !replace_all_append. reflexivity. }
  cbn [replace_all].
  destruct (Ascii.eqb_spec a c_gt) as [->|Hgt].
  { rewrite !replace_all_append. reflexivity. }
  cbn [replace_all].
  destruct (Ascii.eqb_spec a c_quot) as [->|Hquot].
  { rewrite !replace_all_append. reflexivity. }
  cbn [replace_all].
  destruct (Ascii.eqb_spec a c_apos) as [->|Hapos]; reflexivity.
Qed.

Lemma chars_append (x y : string) : chars (x +:+ y) = chars x ++ chars y.
Proof.
  induction x as [|a x IH]; [reflexivity|]. rewrite append_cons. cbn. now rewrite IH.
Qed.

(** X1. The text that [escapeHtml] returns holds none of the characters
    [<], [>], the quotation mark and the apostrophe, whatever the input; a
    text without those characters and without [&] comes back unchanged. *)
Theorem escapeHtml_no_markup (str : string) :
  Forall (fun a => is_markup a = false) (chars (escapeHtml str)) /\
  (Forall (fun a => is_markup a = false /\ a <> c_amp) (chars str) ->
   escapeHtml str = str).
Proof.
  split.
  - induction str as [|a rest IH]; [constructor|].
    rewrite escapeHtml_cons, chars_append. apply Forall_app. split; [|exact IH].
    unfold escape_char.
    destruct (Ascii.eqb_spec a c_amp); [repeat constructor|].
    destruct (Ascii.eqb a c_lt) eqn:E1; [repeat constructor|].
    destruct (Ascii.eqb a c_gt) eqn:E2; [repeat constructor|].
    destruct (Ascii.eqb a c_quot) eqn:E3; [repeat constructor|].
    destruct (Ascii.eqb a c_apos) eqn:E4; [repeat constructor|].
    repeat constructor. unfold is_markup. now rewrite E1, E2, E3, E4.
  - induction str as [|a rest IH]; intros H; [reflexivity|].
    cbn in H. apply Forall_cons in H as [[Hm Ha] Hr].
    rewrite escapeHtml_cons, (IH Hr). unfold escape_char.
    unfold is_markup in Hm.
    apply orb_false_iff in Hm as [Hm H4]. apply orb_false_iff in Hm as [Hm H3].
    apply orb_false_iff in Hm as [H1 H2].
    rewrite H1, H2, H3, H4.
    destruct (Ascii.eqb_spec a c_amp); [contradiction|reflexivity].
Qed.

(** X2. [escapeHtml] loses nothing: two texts with the same escaped form
    are the same text. *)
Theorem escapeHtml_injective (s1 s2 : string) :
  escapeHtml s1 = escapeHtml s2 -> s1 = s2.
Proof.
  revert s2. induction s1 as [|a r1 IH]; intros [|b r2] H.
  - reflexivity.
  - rewrite escapeHtml_cons in H. unfold escape_char in H.
    repeat match type of H with
           | context [if ?c then _ else _] => destruct c
           end; discriminate H.
  - rewrite escapeHtml_cons in H. unfold escape_char in H.
    repeat match type of H with
           | context [if ?c then _ else _] => destruct c
           end; discriminate H.
  - rewrite !escapeHtml_cons in H. unfold escape_char in H.
    destruct (Ascii.eqb_spec a c_amp) as [->|Ha1];
      [|destruct (Ascii.eqb_spec a c_lt) as [->|Ha2];
        [|destruct (Ascii.eqb_spec a c_gt) as [->|Ha3];
          [|destruct (Ascii.eqb_spec a c_quot) as [->|Ha4];
            [|destruct (Ascii.eqb_spec a c_apos) as [->|Ha5]]]]];
      (destruct (Ascii.eqb_spec b c_amp) as [->|Hb1];
       [|destruct (Ascii.eqb_spec b c_lt) as [->|Hb2];
         [|destruct (Ascii.eqb_spec b c_gt) as [->|Hb3];
           [|destruct (Ascii.eqb_spec b c_quot) as [->|Hb4];
             [|destruct (Ascii.eqb_spec b c_apos) as [->|Hb5]]]]]);
      cbv [String.append] in H; try discriminate H;
      try (injection H as H; f_equal; now apply IH);
      try (injection H as Hc H; subst; first [contradiction | congruence | (f_equal; now apply IH)]).
Qed.

End EscapeProps.

(** ** sitemap.ts: what the two resolvers return *)

Section LocsProps.
Import sitemap.

Lemma locs_In (entries : list Entry) (u : string) :
  In u (locs entries) <-> u <> "" /\ In (Some u) (map loc entries).
Proof.
  induction entries as [|entry entries IH]; cbn.
  - tauto.
  - destruct (loc entry) as [l|]; cbn.
    + destruct (String.eqb_spec l "") as [->|Hl]; cbn.
      * rewrite IH. split; [tauto|]. intros [Hu [H|H]]; [congruence|tauto].
      * rewrite IH. split.
        -- intros [->|[Hu H]]; auto.
        -- intros [Hu [H|H]]; [left; congruence|auto].
    + rewrite IH. split; [tauto|]. intros [Hu [H|H]]; [discriminate|tauto].
Qed.

Lemma locs_nonempty (entries : list Entry) : Forall (fun u => u <> "") (locs entries).
Proof. apply List.Forall_forall. intros u H. now apply locs_In in H. Qed.

Lemma locs_length (entries : list Entry) : length (locs entries) <= length entries.
Proof.
  induction entries as [|entry entries IH]; cbn; [lia|].
  destruct (loc entry) as [l|]; [destruct (negb _)|]; cbn; lia.
Qed.

End LocsProps.

Section ParseProps.
Import sitemap.

Variable parser_parse : string -> string + Parsed.


End ParseProps.

Section SitemapMoreProps.
Import sitemap.

Variable parser_parse : string -> string + Parsed.
Variable World : Type.
Variable axios_get : string -> World -> (string + string) * World.

Local Abbreviation Env := (Env World).
Local Abbreviation extract_fuel := (extractUrlsFromSitemap_fuel parser_parse World axios_get).
Local Abbreviation extract := (extractUrlsFromSitemap parser_parse World axios_get).
Local Abbreviation for_each := (for_each_sitemap World).

(** The recursion of [extractUrlsFromSitemap], one level at a time. *)
Lemma extract_unfold (sitemapUrl : string) (depth : nat) (e : Env) :
  depth <= MAX_DEPTH ->
  extract sitemapUrl depth e =
  match axios_get sitemapUrl (world World e) with
  | (inr message, w) =>
      (Thrown ("Failed to fetch sitemap at " +:+ sitemapUrl +:+ ": " +:+ message),
       set_world World w e)
  | (inl xmlText, w) =>
      match parser_parse xmlText with
      | inl message => (Thrown message, set_world World w e)
      | inr parsed =>
          match sitemapindex parsed with
          | Some index =>
              for_each (fun l e => extract l (depth + 1) e)
                (or_empty (sitemap index)) [] (set_world World w e)
          | None =>
              match urlset parsed with
              | Some urlset =>
                  (Returned (locs (or_empty (url urlset))), set_world World w e)
              | None =>
                  (Thrown ("Unrecognized sitemap format at " +:+ sitemapUrl),
                   set_world World w e)
              end
          end
      end
  end.
Proof.
  intros Hd. unfold extractUrlsFromSitemap.
  replace (S (S MAX_DEPTH - (depth + 1))) with (S MAX_DEPTH - depth)
    by (unfold MAX_DEPTH in *; lia).
  cbn [extractUrlsFromSitemap_fuel].
  destruct (Nat.ltb_spec MAX_DEPTH depth) as [Hlt|_]; [lia|].
  destruct (axios_get sitemapUrl (world World e)) as [[xmlText|message] w]; reflexivity.
Qed.

Lemma for_each_nonempty (rec : string -> Env -> Outcome (list string) * Env) :
  (forall l e found e', rec l e = (Returned found, e') -> Forall (fun u => u <> "") found) ->
  forall sitemaps urls e found e',
    Forall (fun u => u <> "") urls ->
    for_each rec sitemaps urls e = (Returned found, e') ->
    Forall (fun u => u <> "") found.
Proof.
  intros Hrec sitemaps.
  induction sitemaps as [|entry sitemaps IH]; intros urls e found e' Hu H; cbn in H.
  - now injection H as <- _.
  - destruct (loc entry) as [l|]; [|exact (IH urls e found e' Hu H)].
    destruct (negb _); [|exact (IH urls e found e' Hu H)].
    destruct (rec l e) as [[nested|message|] e1] eqn:Hr; try discriminate H.
    apply (IH (urls ++ nested) e1 found e'); [|exact H].
    apply Forall_app. split; [exact Hu|]. now apply (Hrec l e nested e1).
Qed.

Lemma extract_fuel_nonempty (fuel : nat) :
  forall sitemapUrl depth e found e',
    extract_fuel fuel sitemapUrl depth e = (Returned found, e') ->
    Forall (fun u => u <> "") found.
Proof.
  induction fuel as [|fuel IH]; intros sitemapUrl depth e found e' H; [discriminate|].
  cbn [extractUrlsFromSitemap_fuel] in H.
  destruct (MAX_DEPTH <? depth)%nat; [injection H as <- _; constructor|].
  destruct (axios_get sitemapUrl (world World e)) as [[xmlText|message] w]; [|discriminate].
  destruct (parser_parse xmlText) as [message|parsed]; [discriminate|].
  destruct (sitemapindex parsed) as [index|].
  - revert H. apply for_each_nonempty; [|constructor].
    intros l e1 f e2. apply IH.
  - destruct (urlset parsed) as [node|]; [|discriminate].
    injection H as <- _. apply locs_nonempty.
Qed.

(** X4. [extractUrlsFromSitemap] never returns an empty URL, however deep
    the sitemap indexes it followed. *)
Theorem extractUrlsFromSitemap_nonempty (sitemapUrl : string) (depth : nat) (e e' : Env)
    (found : list string) :
  extract sitemapUrl depth e = (Returned found, e') ->
  Forall (fun u => u <> "") found.
Proof. apply extract_fuel_nonempty. Qed.

Lemma for_each_throws (rec : string -> Env -> Outcome (list string) * Env)
    (before : list Entry) :
  forall (entry : Entry) (after : list Entry) urls e urls1 e1 l message e2,
    for_each rec before urls e = (Returned urls1, e1) ->
    loc entry = Some l -> l <> "" ->
    rec l e1 = (Thrown message, e2) ->
    for_each rec (before ++ entry :: after) urls e = (Thrown message, e2).
Proof.
  induction before as [|b before IH];
    intros entry after urls e urls1 e1 l message e2 Hb Hl Hne Hrec.
  - cbn in Hb. injection Hb as <- <-. cbn. rewrite Hl.
    destruct (String.eqb_spec l "") as [->|_]; [contradiction|]. cbn. now rewrite Hrec.
  - cbn in Hb |- *.
    destruct (loc b) as [lb|]; [|now apply (IH entry after urls e urls1 e1 l)].
    destruct (negb _); [|now apply (IH entry after urls e urls1 e1 l)].
    destruct (rec lb e) as [[nested|m|] eb]; try discriminate Hb.
    now apply (IH entry after (urls ++ nested) eb urls1 e1 l).
Qed.


End SitemapMoreProps.


(** X4 on an index whose nested sitemap lists two pages. *)
Lemma extractUrlsFromSitemap_nonempty_witness :
  Forall (fun u => u <> "") ["https://example.com/a"; "https://example.com/b"].
Proof.
  apply (extractUrlsFromSitemap_nonempty examples.parser_parse nat
           examples_more.axios_get_site
           "https://example.com/sitemap.xml" 0 (sitemap.Build_Env nat 0 [])
           (sitemap.Build_Env nat 2 [])).
  vm_compute. reflexivity.
Defined.


(** ** utils.ts: a base with the URL's own origin *)

Section UtilsMoreProps.
Import utils statements.

Variable URL_parse : string -> option URL.
Variable host_parse : bool -> string -> option string.

(** X6. Rewriting a URL onto a base that has the URL's own scheme, host and
    port changes nothing: [resolveUrlToBase] returns the serialization of
    the URL as it was parsed.  This is what the server does to every URL of
    the sitemap's own site when no base is submitted. *)
Theorem resolveUrlToBase_same_origin (locUrl baseUrl : string) (loc base : URL) :
  URL_parse locUrl = Some loc -> URL_parse baseUrl = Some base ->
  network_url host_parse loc -> network_url host_parse base ->
  scheme base = scheme loc -> host base = host loc -> port base = port loc ->
  resolveUrlToBase_url URL_parse host_parse locUrl baseUrl = Some loc /\
  resolveUrlToBase URL_parse host_parse locUrl baseUrl = Some (href loc).
Proof.
  intros Hl Hb Hnl Hnb Hs Hh Hp.
  pose proof (substitute_network URL_parse host_parse loc base Hnl Hnb) as H.
  cbv zeta in H.
  unfold resolveUrlToBase, resolveUrlToBase_url. rewrite Hl, Hb.
  set (u := set_port _ _) in *.
  destruct H as (H1 & H2 & H3 & H4 & H5 & H6 & H7 & H8).
  assert (Hu : u = loc).
  { destruct u, loc. cbn in *. congruence. }
  now rewrite Hu.
Qed.

End UtilsMoreProps.

(** X6 at [https://example.com/a] and its origin. *)
Lemma resolveUrlToBase_same_origin_witness :
  utils.resolveUrlToBase examples.URL_parse examples.host_parse
    "https://example.com/a" "https://example.com" = Some "https://example.com/a".
Proof.
  assert (Hn : forall segs,
             statements.network_url examples.host_parse
               (examples.web "https" "example.com" None segs)).
  { intros segs. repeat split; try reflexivity.
    exists "example.com". repeat split; [discriminate]. }
  exact (proj2 (resolveUrlToBase_same_origin examples.URL_parse examples.host_parse
                  "https://example.com/a" "https://example.com"
                  (examples.web "https" "example.com" None ["a"])
                  (examples.web "https" "example.com" None [""])
                  eq_refl eq_refl (Hn ["a"]) (Hn [""]) eq_refl eq_refl eq_refl)).
Defined.

(** ** validator.ts and server.ts: from the checker's answer to the status *)

Section StatusProps.
Import types validator server.

Lemma mapMessages_has (data : W3CApiResponse) (k : MessageType) :
  (exists m, In m (mapMessages data) /\ type m = k) <->
  (exists raw, In raw (api_messages data) /\
               normalizeType (api_type raw) (api_subType raw) = k).
Proof.
  unfold mapMessages. split.
  - intros (m & Hin & Hk). apply in_map_iff in Hin as (raw & <- & Hraw).
    exists raw. split; [exact Hraw|exact Hk].
  - intros (raw & Hraw & Hk). eexists. split; [apply in_map; exact Hraw|exact Hk].
Qed.

(** X7. The status of a page follows from the raw answer of the checker:
    errors exactly when a raw message has type ["error"]; warnings exactly
    when none has and some raw message has type ["info"] with subType
    ["warning"]; clean otherwise, so an answer of unrecognized or plain
    informational messages only leaves the page clean.  No message is lost
    on the way: the page carries as many messages as the answer. *)
Theorem status_of_raw_answer (t : Task) (d : Z) (data : W3CApiResponse) :
  let r := page_result t (inl (mapMessages data)) d in
  let raw_error := exists raw, In raw (api_messages data) /\ api_type raw = "error" in
  let raw_warning :=
    exists raw, In raw (api_messages data) /\
                api_type raw = "info" /\ api_subType raw = Some "warning" in
  (status r = errors <-> raw_error) /\
  (status r = warnings <-> ~ raw_error /\ raw_warning) /\
  (status r = clean <-> ~ raw_error /\ ~ raw_warning) /\
  length (messages r) = length (api_messages data).
Proof.
  cbv zeta. cbn [page_result status messages].
  destruct (classify_spec (mapMessages data)) as (H1 & H2 & H3 & _).
  rewrite (mapMessages_has data error) in H1, H2, H3.
  rewrite (mapMessages_has data warning) in H2, H3.
  assert (He : (exists raw, In raw (api_messages data) /\
                            normalizeType (api_type raw) (api_subType raw) = error) <->
               (exists raw, In raw (api_messages data) /\ api_type raw = "error")).
  { split; intros (raw & Hin & H); exists raw; (split; [exact Hin|]).
    - exact (proj1 (normalizeType_error _ _) H).
    - exact (proj2 (normalizeType_error _ _) H). }
  assert (Hw : (exists raw, In raw (api_messages data) /\
                            normalizeType (api_type raw) (api_subType raw) = warning) <->
               (exists raw, In raw (api_messages data) /\
                            api_type raw = "info" /\ api_subType raw = Some "warning")).
  { split; intros (raw & Hin & H); exists raw; (split; [exact Hin|]).
    - exact (proj1 (normalizeType_warning _ _) H).
    - exact (proj2 (normalizeType_warning _ _) H). }
  rewrite He, Hw in *.
  split; [exact H1|]. split; [exact H2|]. split; [exact H3|].
  unfold mapMessages. apply length_map.
Qed.

End StatusProps.

(** ** The page check: which requests are made *)

Section CheckerProps.
Import types validator checker.

Variable URL_parse : string -> option utils.URL.
Variable encodeURIComponent : string -> string.
Variable World : Type.
Variable get_text : string -> World -> (string + string) * World.
Variable post_html : string -> string -> World -> (W3CApiResponse + string) * World.
Variable get_json : string -> World -> (W3CApiResponse + string) * World.

Local Abbreviation Env := (Env World).
Local Abbreviation isLocalhost := (isLocalhost URL_parse).
Local Abbreviation fetch_then_validate :=
  (fetch_then_validate World get_text post_html).
Local Abbreviation validatePage :=
  (validatePage URL_parse encodeURIComponent World get_text post_html get_json).

Lemma fetch_then_validate_calls (url : string) (e : Env) :
  exists new,
    calls World (snd (fetch_then_validate url e)) = calls World e ++ GetPage url :: new /\
    Forall (fun c => is_GetCheck c = false /\ is_GetPage c = false) new.
Proof.
  unfold checker.fetch_then_validate, fetchPageHtml, validateHtml.
  destruct (get_text url (world World e)) as [[html|message] w]; cbn.
  - destruct (post_html W3C_VALIDATOR_URL html w) as [r w']; cbn.
    exists [PostMarkup html]. rewrite <- app_assoc. split; [reflexivity|].
    repeat constructor.
  - exists []. split; [reflexivity|constructor].
Qed.

Lemma fetch_then_validate_failure (url : string) (e e' : Env) (message : string) :
  fetch_then_validate url e = (inr message, e') ->
  (exists w w', get_text url w = (inr message, w')) \/
  (exists html w w', post_html W3C_VALIDATOR_URL html w = (inr message, w')).
Proof.
  unfold checker.fetch_then_validate, fetchPageHtml, validateHtml.
  destruct (get_text url (world World e)) as [[html|m] w] eqn:Hg; cbn.
  - destruct (post_html W3C_VALIDATOR_URL html w) as [[data|m] w'] eqn:Hp; cbn;
      intros H; [discriminate|].
    injection H as -> _. right. eauto.
  - intros H. injection H as -> _. left. eauto.
Qed.


(** X9. When a page check fails, the failure it reports is that of the
    page fetch or of the markup post: the error of the checker's own
    fetch-by-URL request is swallowed by the fallback and never becomes the
    result. *)
Theorem validatePage_failure (url : string) (e e' : Env) (message : string) :
  validatePage url e = (inr message, e') ->
  (exists w w', get_text url w = (inr message, w')) \/
  (exists html w w', post_html W3C_VALIDATOR_URL html w = (inr message, w')).
Proof.
  unfold checker.validatePage.
  destruct (isLocalhost url).
  - apply fetch_then_validate_failure.
  - destruct (validateUrl encodeURIComponent World get_json url e) as [[ms|m] e1];
      [discriminate|].
    apply fetch_then_validate_failure.
Qed.

End CheckerProps.


(** X9 at a page that neither the checker nor this program can fetch: the
    failure reported is the 404 of the page fetch, not the 503 of the
    checker. *)
Lemma validatePage_failure_witness :
  (exists w w', examples_more.get_text_gone "https://example.com/a" w =
                (inr "Request failed with status code 404", w')) \/
  (exists html w w', examples_more.post_html checker.W3C_VALIDATOR_URL html w =
                     (inr "Request failed with status code 404", w')).
Proof.
  apply (validatePage_failure examples.URL_parse examples_more.encodeURIComponent nat
           examples_more.get_text_gone examples_more.post_html
           examples_more.get_json_down
           "https://example.com/a" (checker.Build_Env nat 0 [])
           (snd (checker.validatePage examples.URL_parse
                   examples_more.encodeURIComponent nat
                   examples_more.get_text_gone examples_more.post_html
                   examples_more.get_json_down
                   "https://example.com/a" (checker.Build_Env nat 0 [])))).
  vm_compute. reflexivity.
Defined.

(** X2 at two spellings of one text. *)
Lemma escapeHtml_injective_witness :
  "a<b" +:+ "&c" = "a<" +:+ "b&c".
Proof.
  apply (escapeHtml_injective ("a<b" +:+ "&c") ("a<" +:+ "b&c")).
  vm_compute. reflexivity.
Defined.

(** ** The server: pages, results and the summary *)

Section ProgressProps.
Import types server statements progress.

Variable URL_parse : string -> option utils.URL.
Variable host_parse : bool -> string -> option string.
Variable String_trim : string -> string.
Variable parser_parse : string -> string + sitemap.Parsed.
Variable generateHtmlReport : Report -> string.

Local Abbreviation run :=
  (run URL_parse host_parse String_trim parser_parse generateHtmlReport).

Lemma fetched_app (buf es : list Event) : fetched (buf ++ es) = fetched buf ++ fetched es.
Proof. apply omap_app. Qed.

Lemma page_dones_app (buf es : list Event) :
  page_dones (buf ++ es) = page_dones buf ++ page_dones es.
Proof. apply List.filter_app. Qed.

Lemma checking_early (p : Pc) : may_dequeue p = true -> checking p = 0.
Proof. now destruct p. Qed.

Lemma sitemap_phase_may_dequeue (p : Pc) : sitemap_phase p = true -> may_dequeue p = true.
Proof. now destruct p. Qed.

Lemma pages_inv_other (s s' : Server) (es : list Event) :
  pages_inv s ->
  buffered (job s') = buffered (job s) ++ es ->
  fetched es = [] -> page_dones es = [] ->
  queue s' = queue s \/ queue s' = [] ->
  results s' = results s ->
  (sitemap_phase (pc s') = true -> sitemap_phase (pc s) = true) ->
  (forall t start, pc s' = AwaitChecker t start -> pc s = AwaitChecker t start) ->
  checking (pc s') = checking (pc s) ->
  pages_inv s'.
Proof.
  intros (K0 & written & free & Kr & Kt & Kd & Kf & Kc & Kq & Kl) Hb Hf Hd Hq Hr Hs Hc Hk.
  unfold pages_inv. rewrite Hb, fetched_app, page_dones_app, Hf, Hd, !app_nil_r, Hr, Hk.
  split.
  - intros H. destruct (K0 (Hs H)) as [Eq Er]. split; [|exact Er].
    destruct Hq as [->| ->]; [exact Eq|reflexivity].
  - exists written, free. repeat (split; [assumption|]).
    split; [|split].
    + intros t start H. apply (Kc t start). now apply Hc.
    + destruct Hq as [->| ->]; [exact Kq|reflexivity].
    + destruct Hq as [->| ->]; [exact Kl|cbn; lia].
Qed.

Lemma pages_inv_pstep (s s' : Server) : pstep s s' -> pages_inv s -> pages_inv s'.
Proof.
  intros Hp K.
  destruct Hp as
    [Hb Hd Ha Hpc Hq Hr Hu _
    |e Hs Hs' He Hb Hd Ha Hq Hr Hu _
    |m Hs Hpc Hb Hd Ha Hq Hr Hu _
    |Hs Hpc Hb Hd Ha Hq Hr Hu _
    |urls t Hs Hpc Hb Hd Ha Hq Hr _
    |t q start Hm Hpc Hq Hq' Haf Hb Hd Ha Hr Hu _
    |g Hm Hpc Haq Hq' Hb Hd Ha Hr Hu _
    |t start outcome d Hc Hpc Hb Hr Hd Ha Hq Hu _].
  - apply (pages_inv_other s s' []); auto; rewrite ?app_nil_r, ?Hpc; auto.
  - apply (pages_inv_other s s' [e]); auto;
      try (destruct e; try discriminate; reflexivity);
      try (intros t start H; rewrite H in Hs'; discriminate);
      destruct (pc s); try discriminate; destruct (pc s'); try discriminate; reflexivity.
  - apply (pages_inv_other s s' [sitemap_error m; stream_end]); auto;
      rewrite Hpc; try discriminate;
      destruct (pc s); try discriminate; reflexivity.
  - apply (pages_inv_other s s' []); auto; rewrite ?app_nil_r, ?Hpc; auto;
      try discriminate;
      destruct (pc s); try discriminate; reflexivity.
  - destruct K as (K0 & written & free & Kr & Kt & Kd & Kf & Kc & Kq & Kl).
    destruct (K0 Hs) as [Eq Er]. rewrite Er in Kr.
    assert (written = []) as -> by (destruct written; [reflexivity|discriminate]).
    unfold pages_inv.
    rewrite Hb, fetched_app, page_dones_app, Kd, Kf, Hpc, Hr, Hq.
    rewrite (checking_early (pc s)) by now apply sitemap_phase_may_dequeue.
    assert (El : length (queue s') = length urls)
      by (rewrite <- (length_map index), Hq; apply length_seq).
    split; [discriminate|]. exists [], (length urls). cbn.
    rewrite El, length_replicate.
    repeat split; try discriminate; auto.
  - destruct K as (K0 & written & free & Kr & Kt & Kd & Kf & Kc & Kq & Kl).
    rewrite (checking_early _ Hm), Nat.add_0_r in Kf.
    rewrite Kf, length_seq in Kq, Kl. rewrite Hq in Kq, Kl. cbn in Kq, Kl.
    injection Kq as Hi Kq.
    unfold pages_inv.
    rewrite Hb, fetched_app, page_dones_app, Kd, Kf, Hpc, Hr, Hq'. cbn.
    rewrite app_nil_r, length_app, length_seq. cbn.
    split; [discriminate|]. exists written, free.
    split; [exact Kr|]. split; [exact Kt|]. split; [reflexivity|].
    split; [|split; [|split]].
    + rewrite Hi, seq_app. reflexivity.
    + intros t' start' E. injection E as <- <-. split; [exact Hi|].
      rewrite Kr, length_app, length_map, length_replicate in Kl. lia.
    + rewrite Nat.add_1_r. exact Kq.
    + lia.
  - apply (pages_inv_other s s'
             [done_ (make_summary (filter_Boolean (results s)) g (baseUrl s)); stream_end]);
      auto; rewrite Hpc; try discriminate.
    now rewrite (checking_early (pc s)).
  - destruct K as (K0 & written & free & Kr & Kt & Kd & Kf & Kc & Kq & Kl).
    destruct (Kc t start Hc) as [Hi Hfree].
    destruct free as [|free]; [lia|].
    set (r := page_result t outcome d) in *.
    assert (Ef : fetched (page_events t outcome r) = [])
      by (destruct outcome; reflexivity).
    assert (Ed : page_dones (page_events t outcome r) = [done_event (index t) r])
      by (destruct outcome; reflexivity).
    unfold pages_inv.
    rewrite Hb, fetched_app, page_dones_app, Ef, Ed, Kd, Kf, Hpc, Hr, Hq, app_nil_r.
    rewrite Hc in *. cbn [checking] in *.
    split; [discriminate|]. exists (written ++ [r]), free.
    split; [|split; [|split; [|split; [|split; [|split]]]]].
    + rewrite Kr, Hi, insert_app_r_alt by (rewrite length_map; lia).
      rewrite length_map, Nat.sub_diag. cbn.
      rewrite map_app, <- app_assoc. reflexivity.
    + apply Forall_app. split; [exact Kt|]. constructor; [|constructor].
      now exists t, outcome, d.
    + rewrite imap_app. cbn. now rewrite Nat.add_0_r, Hi.
    + rewrite length_app. cbn. now rewrite Nat.add_0_r.
    + discriminate.
    + rewrite Kf in Kq. exact Kq.
    + rewrite length_insert. rewrite Kf in Kl. exact Kl.
Qed.

Lemma pages_inv_run (p : Params) (clk : Clock) (labels : list Label) :
  pages_inv (run p clk labels).
Proof.
  apply reachable_ind; clear.
  - intros p. split; [auto|]. exists [], 0. cbn.
    repeat split; try discriminate; auto.
  - intros s s' Hp. now apply pages_inv_pstep.
  - intros s K.
    destruct (post_abort_fields s) as (Hb & _ & _ & Hpc & Hq & Hr & _).
    apply (pages_inv_other s (post_abort s) [cancelled; stream_end]); auto;
      rewrite Hpc; auto.
Qed.

End ProgressProps.

Section ProgressLists.
Import types server statements progress.

Lemma fetched_length (buf : list Event) :
  length (fetched buf) = count is_page_fetching buf.
Proof.
  unfold fetched, count.
  induction buf as [|e buf IH]; [reflexivity|].
  destruct e; cbn; auto.
Qed.

Lemma finished_page_dones (buf : list Event) : finished buf = finished (page_dones buf).
Proof.
  unfold finished, page_dones.
  induction buf as [|e buf IH]; [reflexivity|].
  destruct e; cbn; auto. now f_equal.
Qed.

Lemma finished_imap (written : list PageResult) (k : nat) :
  finished (imap (fun i => done_event (k + i)) written) = seq k (length written).
Proof.
  revert k. induction written as [|r written IH]; intros k; [reflexivity|].
  cbn. rewrite Nat.add_0_r. f_equal.
  rewrite <- IH. f_equal. apply imap_ext. intros i x _. cbn. f_equal. lia.
Qed.

Lemma page_dones_length (buf : list Event) :
  length (page_dones buf) = count is_page_done buf.
Proof. reflexivity. Qed.

Lemma filter_Boolean_written (written : list PageResult) (free : nat) :
  filter_Boolean (map Some written ++ replicate free None) = written.
Proof.
  unfold filter_Boolean.
  induction written as [|r written IH]; cbn.
  - induction free as [|free IH]; [reflexivity|exact IH].
  - now f_equal.
Qed.

Lemma has_status_page_dones (st : PageStatus) (buf : list Event) :
  count (has_status st) buf = count (has_status st) (page_dones buf).
Proof.
  unfold count, page_dones.
  induction buf as [|e buf IH]; [reflexivity|].
  destruct e; cbn; auto. destruct (PageStatus_eqb _ _); cbn; auto.
Qed.

Lemma has_status_imap (st : PageStatus) (written : list PageResult) (k : nat) :
  count (has_status st) (imap (fun i => done_event (k + i)) written) =
  count_status st written.
Proof.
  unfold count, count_status.
  revert k. induction written as [|r written IH]; intros k; [reflexivity|].
  rewrite imap_cons.
  rewrite (imap_ext _ (fun i => done_event (S k + i)) written)
    by (intros i x _; cbn; f_equal; lia).
  cbn [List.filter].
  change (has_status st (done_event (k + 0) r)) with (PageStatus_eqb (status r) st).
  destruct (PageStatus_eqb _ _); cbn [length]; now rewrite IH.
Qed.

Lemma total_messages_page_dones (t : MessageType) (buf : list Event) :
  total_messages t buf = total_messages t (page_dones buf).
Proof.
  unfold total_messages, page_dones.
  induction buf as [|e buf IH]; [reflexivity|].
  destruct e; cbn; auto.
Qed.

Lemma fold_left_sum {A : Type} (f : A -> nat) (l : list A) (a : nat) :
  fold_left (fun s r => s + f r) l a = a + list_sum (map f l).
Proof.
  revert a. unfold list_sum. induction l as [|x l IH]; intros a; cbn; [lia|].
  rewrite IH. lia.
Qed.

Lemma total_messages_imap (t : MessageType) (written : list PageResult) (k : nat) :
  total_messages t (imap (fun i => done_event (k + i)) written) =
  fold_left (fun s r => s + count_type t (messages r)) written 0.
Proof.
  rewrite fold_left_sum. unfold total_messages. cbn.
  revert k. induction written as [|r written IH]; intros k; [reflexivity|].
  rewrite imap_cons.
  rewrite (imap_ext _ (fun i => done_event (S k + i)) written)
    by (intros i x _; cbn; f_equal; lia).
  cbn [map list_sum foldr]. rewrite IH. reflexivity.
Qed.

Lemma count_type_le (t : MessageType) (messages : list W3CMessage) :
  count_type t messages <= length messages.
Proof. unfold count_type. apply List.filter_length_le. Qed.

Lemma count_type_nil (t : MessageType) : count_type t [] = 0.
Proof. reflexivity. Qed.

(** What a task's result says about its messages. *)
Lemma task_result_status (r : PageResult) :
  task_result r ->
  (status r = errors <-> 0 < count_type error (messages r)) /\
  (status r = warnings ->
   count_type error (messages r) = 0 /\ 0 < count_type warning (messages r)) /\
  (status r = clean ->
   count_type error (messages r) = 0 /\ count_type warning (messages r) = 0) /\
  (status r = failed -> messages r = []).
Proof.
  intros (t & [ms|m] & d & ->); unfold page_result; cbn [status messages].
  - unfold classify.
    destruct (Nat.ltb_spec 0 (count_type error ms)) as [He|He];
      [|destruct (Nat.ltb_spec 0 (count_type warning ms)) as [Hw|Hw]];
      (split; [split|split; [|split]]); try discriminate; try lia; intros;
      try reflexivity; lia.
  - (split; [split|split; [|split]]); try discriminate; auto.
    rewrite count_type_nil. lia.
Qed.

Lemma pages_with_errors (valid : list PageResult) :
  Forall task_result valid ->
  let total t := list_sum (map (fun r => count_type t (messages r)) valid) in
  count_status errors valid <= total error /\
  (count_status errors valid = 0 -> total error = 0) /\
  count_status warnings valid <= total warning /\
  (count_status errors valid = 0 -> count_status warnings valid = 0 -> total warning = 0).
Proof.
  cbv zeta. unfold count_status, list_sum.
  induction 1 as [|r valid Hr _ IH]; cbn; [lia|].
  destruct (task_result_status r Hr) as (He & Hw & Hc & Hf).
  destruct (status r) eqn:E; cbn.
  - specialize (Hc eq_refl). lia.
  - specialize (Hw eq_refl). lia.
  - pose proof (proj1 He eq_refl). lia.
  - rewrite (Hf eq_refl), !count_type_nil. lia.
Qed.

End ProgressLists.

Section ProgressTheorems.
Import types server statements progress.

Variable URL_parse : string -> option utils.URL.
Variable host_parse : bool -> string -> option string.
Variable String_trim : string -> string.
Variable parser_parse : string -> string + sitemap.Parsed.
Variable generateHtmlReport : Report -> string.

Local Abbreviation run :=
  (run URL_parse host_parse String_trim parser_parse generateHtmlReport).
Local Abbreviation pages_inv_run :=
  (pages_inv_run URL_parse host_parse String_trim parser_parse generateHtmlReport).
Local Abbreviation summary_inv_run :=
  (summary_inv_run URL_parse host_parse String_trim parser_parse generateHtmlReport).


(** X11. The results array mirrors the [page_done] events: it is a run of
    written slots followed by empty ones, and the written slots are, in
    order, the pages that the [page_done] events of the buffer announce,
    with their index, URL, status, messages, duration and error message. *)
Theorem results_mirror_page_done (p : Params) (clk : Clock) (labels : list Label) :
  let s := run p clk labels in
  exists (written : list PageResult) (free : nat),
    results s = map Some written ++ replicate free None /\
    filter_Boolean (results s) = written /\
    List.filter is_page_done (buffered (job s)) = imap done_event written.
Proof.
  cbv zeta.
  destruct (pages_inv_run p clk labels)
    as (_ & written & free & Kr & Kt & Kd & Kf & Kc & Kq & Kl).
  exists written, free. split; [exact Kr|]. split; [|exact Kd].
  rewrite Kr. apply filter_Boolean_written.
Qed.

(** X12. The summary of a [done] event counts what the [page_done] events
    of the buffer show: [totalPages] is their number, each of the four page
    counts is the number of them with that status, and each of the three
    message totals is the number of messages of that kind they carry. *)
Theorem summary_counts_page_done (p : Params) (clk : Clock) (labels : list Label)
    (summary : ReportSummary) :
  let buf := buffered (job (run p clk labels)) in
  In (done_ summary) buf ->
  totalPages summary = count is_page_done buf /\
  pagesWithErrors summary = count (has_status errors) buf /\
  pagesWithWarnings summary = count (has_status warnings) buf /\
  pagesClean summary = count (has_status clean) buf /\
  pagesFailed summary = count (has_status failed) buf /\
  totalErrors summary = total_messages error buf /\
  totalWarnings summary = total_messages warning buf /\
  totalInfos summary = total_messages info buf.
Proof.
  cbv zeta. intros H.
  destruct (summary_inv_run p clk labels) as (_ & K1 & _).
  destruct (K1 _ H) as (_ & g & ->).
  destruct (pages_inv_run p clk labels)
    as (_ & written & free & Kr & Kt & Kd & Kf & Kc & Kq & Kl).
  rewrite Kr, filter_Boolean_written.
  set (buf := buffered (job (run p clk labels))) in *.
  rewrite (has_status_page_dones errors buf), (has_status_page_dones warnings buf),
    (has_status_page_dones clean buf), (has_status_page_dones failed buf),
    (total_messages_page_dones error buf), (total_messages_page_dones warning buf),
    (total_messages_page_dones info buf), <- page_dones_length, Kd.
  rewrite length_imap.
  rewrite !(has_status_imap _ written 0), !(total_messages_imap _ written 0).
  repeat split; reflexivity.
Qed.

(** X13. The page counts and the message totals of a summary agree: there
    are at least as many errors as pages with errors and as many warnings as
    pages with warnings; no page has status [errors] exactly when no error
    was counted; and when no page has status [errors] or [warnings], no
    warning was counted either. *)
Theorem summary_totals_agree (p : Params) (clk : Clock) (labels : list Label)
    (summary : ReportSummary) :
  In (done_ summary) (buffered (job (run p clk labels))) ->
  pagesWithErrors summary <= totalErrors summary /\
  (pagesWithErrors summary = 0 <-> totalErrors summary = 0) /\
  pagesWithWarnings summary <= totalWarnings summary /\
  (pagesWithErrors summary = 0 -> pagesWithWarnings summary = 0 ->
   totalWarnings summary = 0).
Proof.
  intros H.
  destruct (summary_inv_run p clk labels) as (_ & K1 & _).
  destruct (K1 _ H) as (_ & g & ->).
  destruct (pages_inv_run p clk labels)
    as (_ & written & free & Kr & Kt & Kd & Kf & Kc & Kq & Kl).
  rewrite Kr, filter_Boolean_written. cbn.
  rewrite !fold_left_sum. cbn.
  destruct (pages_with_errors written Kt) as (H1 & H2 & H3 & H4).
  split; [exact H1|]. split; [split; [exact H2|lia]|]. split; [exact H3|exact H4].
Qed.

End ProgressTheorems.

(** X12 on a run of two pages, the second of which fails. *)
Lemma summary_counts_page_done_witness :
  exists summary,
    In (server.done_ summary)
       (server.buffered (server.job
          (examples.run (examples.two_pages None None) (examples.clock 0)
             outcome.second_page_fails))) /\
    types.pagesFailed summary = 1.
Proof.
  eexists. split.
  - vm_compute. do 6 right. left. reflexivity.
  - pose proof (summary_counts_page_done examples.URL_parse examples.host_parse
                  examples.String_trim examples.parser_parse
                  examples.generateHtmlReport
                  (examples.two_pages None None) (examples.clock 0)
                  outcome.second_page_fails _
                  ltac:(vm_compute; do 6 right; left; reflexivity))
      as (_ & _ & _ & _ & H & _).
    exact H.
Defined.

(** X13 on the same run: no page has errors and no error is counted. *)
Lemma summary_totals_agree_witness :
  exists summary,
    In (server.done_ summary)
       (server.buffered (server.job
          (examples.run (examples.two_pages None None) (examples.clock 0)
             outcome.second_page_fails))) /\
    (types.pagesWithErrors summary = 0 <-> types.totalErrors summary = 0).
Proof.
  eexists. split.
  - vm_compute. do 6 right. left. reflexivity.
  - pose proof (summary_totals_agree examples.URL_parse examples.host_parse
                  examples.String_trim examples.parser_parse
                  examples.generateHtmlReport
                  (examples.two_pages None None) (examples.clock 0)
                  outcome.second_page_fails _
                  ltac:(vm_compute; do 6 right; left; reflexivity))
      as (_ & H & _).
    exact H.
Defined.

(** ** The server: how a run ends *)

Section OutcomeLists.
Import types server statements outcome.

Lemma early_counts (buf : list Event) :
  Forall (fun e => early_event e = true) buf ->
  count is_sitemap_error buf = 0 /\ count is_done buf = 0 /\
  count is_sitemap_done buf = 0 /\ count is_page_event buf = 0.
Proof.
  unfold count.
  induction 1 as [|e buf He _ IH]; [auto|].
  destruct e; try discriminate He; exact IH.
Qed.

Lemma returned_early (p : Pc) : may_dequeue p = true -> returned p = 0.
Proof. now destruct p. Qed.

Lemma knows_no_page_sitemap (p : Pc) : sitemap_phase p = true -> knows_no_page p = true.
Proof. now destruct p. Qed.

Lemma count_In (f : Event -> bool) (buf : list Event) (e : Event) :
  In e buf -> f e = true -> 1 <= count f buf.
Proof.
  unfold count. intros Hin He.
  induction buf as [|x buf IH]; [destruct Hin|].
  cbn. destruct Hin as [->|Hin].
  - rewrite He. cbn. lia.
  - specialize (IH Hin). destruct (f x); cbn; lia.
Qed.

End OutcomeLists.

Section OutcomeProps.
Import types server statements outcome.

Variable URL_parse : string -> option utils.URL.
Variable host_parse : bool -> string -> option string.
Variable String_trim : string -> string.
Variable parser_parse : string -> string + sitemap.Parsed.
Variable generateHtmlReport : Report -> string.

Local Abbreviation step :=
  (step URL_parse host_parse String_trim parser_parse generateHtmlReport).
Local Abbreviation run :=
  (run URL_parse host_parse String_trim parser_parse generateHtmlReport).

Lemma outcome_inv_pstep (s s' : Server) : pstep s s' -> outcome_inv s -> outcome_inv s'.
Proof.
  intros Hp (K0 & K1 & K2 & K3 & K4 & K5). unfold outcome_inv.
  destruct Hp as
    [Hb Hd Ha Hpc Hq Hr Hu _
    |e Hs Hs' He Hb Hd Ha Hq Hr Hu _
    |m Hs Hpc Hb Hd Ha Hq Hr Hu _
    |Hs Hpc Hb Hd Ha Hq Hr Hu _
    |urls t Hs Hpc Hb Hd Ha Hq Hr _
    |t q start Hm Hpc Hq Hq' Haf Hb Hd Ha Hr Hu _
    |g Hm Hpc Haq Hq' Hb Hd Ha Hr Hu _
    |t start outcome d Hc Hpc Hb Hr Hd Ha Hq Hu _];
    rewrite ?Hb, ?Hd, ?Hr, ?count_app.
  - rewrite Hpc, Hq. auto 10.
  - destruct (K0 Hs) as [Eq Er].
    destruct (early_counts _ (K1 (knows_no_page_sitemap _ Hs))) as (E1 & E2 & E3 & E4).
    assert (returned (pc s) = 0 /\ returned (pc s') = 0) as [R R']
      by (split; apply returned_early, sitemap_phase_may_dequeue; assumption).
    rewrite Hq, R' in *. rewrite R in *.
    split; [auto|]. split; [|split; [|split; [|split]]].
    + intros _. apply Forall_app. split; [auto using knows_no_page_sitemap|].
      constructor; [|constructor]. unfold early_event. now rewrite He.
    + destruct e; try discriminate He; cbn; lia.
    + destruct e; try discriminate He; cbn; lia.
    + destruct e; try discriminate He; cbn; lia.
    + rewrite K5. destruct e; try discriminate He; cbn; lia.
  - destruct (K0 Hs) as [Eq Er].
    destruct (early_counts _ (K1 (knows_no_page_sitemap _ Hs))) as (E1 & E2 & E3 & E4).
    assert (R : returned (pc s) = 0)
      by now apply returned_early, sitemap_phase_may_dequeue.
    rewrite Hpc, R in *.
    split; [discriminate|]. split; [discriminate|]. cbn.
    split; [lia|]. split; [intros _; split; [lia|split; [lia|exact Er]]|].
    split; [lia|]. split; [lia|reflexivity].
  - destruct (K0 Hs) as [Eq Er].
    destruct (early_counts _ (K1 (knows_no_page_sitemap _ Hs))) as (E1 & E2 & E3 & E4).
    assert (R : returned (pc s) = 0)
      by now apply returned_early, sitemap_phase_may_dequeue.
    rewrite Hpc, R in *.
    split; [discriminate|]. split; [auto using knows_no_page_sitemap|]. cbn.
    split; [lia|]. split; [lia|]. split; [lia|exact K5].
  - destruct (early_counts _ (K1 (knows_no_page_sitemap _ Hs))) as (E1 & E2 & E3 & E4).
    assert (R : returned (pc s) = 0)
      by now apply returned_early, sitemap_phase_may_dequeue.
    rewrite Hpc, R in *.
    split; [discriminate|]. split; [discriminate|]. cbn.
    split; [lia|]. split; [lia|]. split; [lia|]. rewrite K5. lia.
  - rewrite (returned_early _ Hm) in *. rewrite Hpc.
    split; [discriminate|]. split; [discriminate|]. cbn.
    split; [lia|]. split; [lia|]. split; [lia|]. rewrite K5. lia.
  - rewrite (returned_early _ Hm) in *. rewrite Hpc.
    split; [discriminate|]. split; [discriminate|]. cbn.
    split; [lia|]. split; [lia|]. split; [lia|]. split; [lia|reflexivity].
  - rewrite Hc in *. rewrite Hpc.
    split; [discriminate|]. split; [discriminate|].
    destruct outcome; cbn in *;
      (split; [lia|]; split; [lia|]; split; [lia|]; rewrite K5; lia).
Qed.

Lemma outcome_inv_run (p : Params) (clk : Clock) (labels : list Label) :
  outcome_inv (run p clk labels).
Proof.
  apply reachable_ind; clear.
  - intros p. unfold outcome_inv. cbn.
    split; [auto|]. split; [constructor|]. split; [reflexivity|].
    split; [lia|]. split; [reflexivity|]. split; [discriminate|lia].
  - intros s s' Hp. now apply outcome_inv_pstep.
  - intros s (K0 & K1 & K2 & K3 & K4 & K5). unfold outcome_inv.
    destruct (post_abort_fields s) as (Hb & Hd & _ & Hpc & Hq & Hr & _).
    rewrite Hb, Hd, Hpc, Hq, Hr, !count_app. cbn.
    split; [exact K0|]. split; [|split; [|split; [|split]]].
    + intros H. apply Forall_app. split; [auto|]. repeat constructor.
    + lia.
    + rewrite !Nat.add_0_r. exact K3.
    + lia.
    + split; [lia|reflexivity].
Qed.

End OutcomeProps.

Section OutcomeTheorems.
Import types server statements outcome.

Variable URL_parse : string -> option utils.URL.
Variable host_parse : bool -> string -> option string.
Variable String_trim : string -> string.
Variable parser_parse : string -> string + sitemap.Parsed.
Variable generateHtmlReport : Report -> string.

Local Abbreviation step :=
  (step URL_parse host_parse String_trim parser_parse generateHtmlReport).
Local Abbreviation run :=
  (run URL_parse host_parse String_trim parser_parse generateHtmlReport).
Local Abbreviation post_validate :=
  (post_validate URL_parse host_parse String_trim parser_parse generateHtmlReport).
Local Abbreviation outcome_inv_run :=
  (outcome_inv_run URL_parse host_parse String_trim parser_parse generateHtmlReport).
Local Abbreviation run_cancelled :=
  (run_cancelled URL_parse host_parse String_trim parser_parse generateHtmlReport).

(** X14. A [sitemap_error] event closes the run before any page: when the
    buffer holds one, [runValidation] has returned, the buffer holds no
    other [sitemap_error], no [sitemap_done], no page event and no [done]
    event, and the results array is empty. *)
Theorem sitemap_error_is_final (p : Params) (clk : Clock) (labels : list Label)
    (message : string) :
  let s := run p clk labels in
  let buf := buffered (job s) in
  In (sitemap_error message) buf ->
  pc s = Settled /\
  count is_sitemap_error buf = 1 /\ count is_done buf = 0 /\
  count is_sitemap_done buf = 0 /\ count is_page_event buf = 0 /\
  results s = [].
Proof.
  cbv zeta. intros H.
  destruct (outcome_inv_run p clk labels) as (_ & _ & K2 & K3 & _).
  pose proof (count_In is_sitemap_error _ _ H eq_refl) as H1.
  destruct (K3 H1) as (E1 & E2 & E3).
  destruct (pc (run p clk labels)); cbn in K2; try lia.
  repeat split; auto; lia.
Qed.

(** X15. A run that has returned has emitted exactly one of
    [sitemap_error] and [done]; a run that has not returned, or whose
    promise was rejected, has emitted neither. *)
Theorem run_reports_once (p : Params) (clk : Clock) (labels : list Label) :
  let s := run p clk labels in
  let buf := buffered (job s) in
  count is_sitemap_error buf + count is_done buf = returned (pc s).
Proof.
  cbv zeta. now destruct (outcome_inv_run p clk labels) as (_ & _ & K2 & _).
Qed.

(** X16. The buffer holds one [stream_end] for every abort request and one
    more when [runValidation] has returned, and the job is marked [done]
    exactly when it holds at least one. *)
Theorem stream_end_accounting (p : Params) (clk : Clock) (labels : list Label) :
  let s := run p clk labels in
  let buf := buffered (job s) in
  count is_stream_end buf = count_aborts labels + returned (pc s) /\
  (done (job s) = true <-> 1 <= count is_stream_end buf).
Proof.
  cbv zeta. destruct (outcome_inv_run p clk labels) as (_ & _ & _ & _ & K4 & K5).
  split; [|exact K5]. now rewrite K4, run_cancelled.
Qed.

Lemma step_rejected (s : Server) (l : Label) : pc s = Rejected -> pc (step s l) = Rejected.
Proof.
  intros H. unfold server.step. rewrite H.
  destruct l; try exact H.
  unfold get_stream. now destruct (done (job s)).
Qed.

Lemma steps_rejected (more : list Label) (s : Server) :
  pc s = Rejected -> pc (fold_left step more s) = Rejected.
Proof.
  revert s. induction more as [|l more IH]; intros s H; [exact H|].
  cbn. apply IH. now apply step_rejected.
Qed.

(** X17. A run whose promise was rejected is silent: it stays rejected
    whatever happens next, its buffer holds nothing but the progress events
    of a sitemap index and what abort requests appended, and the job is
    marked [done] only by an abort request. *)
Theorem rejected_run_is_silent (p : Params) (clk : Clock) (labels : list Label) :
  let s := run p clk labels in
  pc s = Rejected ->
  Forall (fun e => early_event e = true) (buffered (job s)) /\
  (done (job s) = true <-> 1 <= count_aborts labels) /\
  forall more, pc (run p clk (labels ++ more)) = Rejected.
Proof.
  cbv zeta. intros H.
  destruct (outcome_inv_run p clk labels) as (_ & K1 & _ & _ & K4 & K5).
  rewrite H in K1, K4. rewrite run_cancelled in K4. cbn in K4.
  split; [now apply K1|]. split.
  - rewrite K5, K4. lia.
  - intros more. unfold server.run. rewrite fold_left_app.
    now apply steps_rejected.
Qed.

Lemma resolve_all_fails (rawUrls : list string) (baseUrl : string) :
  (exists u, In u rawUrls /\
             utils.resolveUrlToBase URL_parse host_parse u baseUrl = None) ->
  resolve_all URL_parse host_parse rawUrls baseUrl = None.
Proof.
  intros (u & Hin & Hu).
  induction rawUrls as [|x rawUrls IH]; [destruct Hin|].
  cbn. destruct Hin as [->|Hin].
  - now rewrite Hu.
  - rewrite (IH Hin).
    now destruct (utils.resolveUrlToBase URL_parse host_parse x baseUrl).
Qed.

(** X18. A sitemap with an address that is not a URL, or a [base] that is
    not one, rejects the promise of [runValidation] at once: nothing is
    emitted, not even [sitemap_error], and the job is not marked [done]. *)
Theorem unparsable_url_rejects (p : Params) (clk : Clock) (rawUrls : list string) :
  sitemap.parseUrlsFromXml parser_parse (xml p) = inr (sitemap.urls rawUrls) ->
  rawUrls <> [] ->
  (String_trim (base p) <> "" /\ URL_parse (String_trim (base p)) = None) \/
  (exists u, In u rawUrls /\ URL_parse u = None) ->
  let s := post_validate p clk in
  pc s = Rejected /\ buffered (job s) = [] /\ done (job s) = false.
Proof.
  intros Hx Hne Hbad. cbv zeta.
  unfold server.post_validate, runValidation. rewrite Hx.
  unfold start_pages. destruct rawUrls as [|first rest]; [contradiction|].
  change (params_base (created p)) with (base p).
  destruct (String.eqb_spec (String_trim (base p)) "") as [E|E].
  - unfold utils.getOrigin.
    destruct (URL_parse first) as [parsed|] eqn:Ef; [|now repeat split].
    rewrite resolve_all_fails; [now repeat split|].
    destruct Hbad as [[Hb _]|(u & Hin & Hu)]; [contradiction|].
    exists u. split; [exact Hin|].
    unfold utils.resolveUrlToBase, utils.resolveUrlToBase_url. now rewrite Hu.
  - rewrite resolve_all_fails; [now repeat split|].
    destruct Hbad as [[_ Hb]|(u & Hin & Hu)].
    + exists first. split; [now left|].
      unfold utils.resolveUrlToBase, utils.resolveUrlToBase_url. rewrite Hb.
      now destruct (URL_parse first).
    + exists u. split; [exact Hin|].
      unfold utils.resolveUrlToBase, utils.resolveUrlToBase_url. now rewrite Hu.
Qed.

End OutcomeTheorems.

(** X14 on a submission that is no sitemap. *)
Lemma sitemap_error_is_final_witness :
  server.pc (examples.run
               {| server.xml := "<html></html>"; server.base := "";
                  server.concurrency := None; server.interTaskDelayMs := None |}
               (examples.clock 0) [server.GetStream]) = server.Settled.
Proof.
  refine (proj1 (sitemap_error_is_final examples.URL_parse examples.host_parse
                   examples.String_trim examples.parser_parse
                   examples.generateHtmlReport
                   {| server.xml := "<html></html>"; server.base := "";
                      server.concurrency := None; server.interTaskDelayMs := None |}
                   (examples.clock 0) [server.GetStream] _ _)).
  vm_compute. left. reflexivity.
Defined.

(** X17 and X18 on a submission of two pages whose [base] is not a URL:
    the run is rejected, and stays so when the checker's answer arrives. *)
Lemma rejected_run_is_silent_witness :
  server.done (server.job (examples.run outcome.bad_base (examples.clock 0) [])) = true <->
  1 <= statements.count_aborts [].
Proof.
  refine (proj1 (proj2 (rejected_run_is_silent examples.URL_parse examples.host_parse
                          examples.String_trim examples.parser_parse
                          examples.generateHtmlReport
                          outcome.bad_base (examples.clock 0) [] _))).
  vm_compute. reflexivity.
Defined.

Lemma unparsable_url_rejects_witness :
  server.pc (server.post_validate examples.URL_parse examples.host_parse
               examples.String_trim examples.parser_parse examples.generateHtmlReport
               outcome.bad_base (examples.clock 0)) = server.Rejected.
Proof.
  refine (proj1 (unparsable_url_rejects examples.URL_parse examples.host_parse
                   examples.String_trim examples.parser_parse
                   examples.generateHtmlReport
                   outcome.bad_base (examples.clock 0)
                   ["https://example.com/a"; "https://example.com/b"] _ _ _)).
  - vm_compute. reflexivity.
  - discriminate.
  - left. split; [discriminate|reflexivity].
Defined.

(** ** The server: a walk through the handlers

    Every handler is a sequence of the operations below; a property of the
    state that each of them keeps holds after every run. *)

Section Walk.
Import types server statements.

Variable URL_parse : string -> option utils.URL.
Variable host_parse : bool -> string -> option string.
Variable String_trim : string -> string.
Variable parser_parse : string -> string + sitemap.Parsed.
Variable generateHtmlReport : Report -> string.

Local Abbreviation finish := (finish generateHtmlReport).
Local Abbreviation run_queue := (run_queue generateHtmlReport).
Local Abbreviation start_pages :=
  (start_pages URL_parse host_parse String_trim generateHtmlReport).
Local Abbreviation nested_loop :=
  (nested_loop URL_parse host_parse String_trim generateHtmlReport).
Local Abbreviation nested_fetched :=
  (nested_fetched URL_parse host_parse String_trim parser_parse generateHtmlReport).
Local Abbreviation runValidation :=
  (runValidation URL_parse host_parse String_trim parser_parse generateHtmlReport).
Local Abbreviation step :=
  (step URL_parse host_parse String_trim parser_parse generateHtmlReport).
Local Abbreviation run :=
  (run URL_parse host_parse String_trim parser_parse generateHtmlReport).

Variable P : Server -> Prop.

Hypothesis P_emit : forall e s, is_done e = false -> P s -> P (emit e s).
Hypothesis P_pc : forall p s, pc s <> Settled -> P s -> P (set_pc p s).
Hypothesis P_queue : forall q s, pc s <> Settled -> P s -> P (set_queue q s).
Hypothesis P_results : forall r s, pc s <> Settled -> P s -> P (set_results r s).
Hypothesis P_baseUrl : forall b s, pc s <> Settled -> P s -> P (set_baseUrl b s).
Hypothesis P_endJob : forall s, pc s <> Settled -> P s -> P (endJob s).
Hypothesis P_finish : forall clk s, pc s <> Settled -> P s -> P (finish clk s).
Hypothesis P_abort : forall s, P s -> P (post_abort s).
Hypothesis P_stream : forall s, P s -> P (get_stream s).
Hypothesis P_close : forall conn s, P s -> P (on_close conn s).

Lemma walk_run_queue (q : list Task) (clk : Clock) (s : Server) :
  pc s <> Settled -> P s -> P (run_queue q clk s).
Proof.
  intros Hpc H. induction q as [|t q IH]; cbn.
  - apply P_finish; [exact Hpc|]. now apply P_queue.
  - destruct (aborted (job s)); [exact IH|].
    unfold start_task. apply P_pc; [exact Hpc|]. apply P_queue; [exact Hpc|].
    now apply P_emit.
Qed.

Lemma walk_sitemap_error (message : string) (s : Server) :
  pc s <> Settled -> P s -> P (set_pc Settled (endJob (emit (sitemap_error message) s))).
Proof.
  intros Hpc H. apply P_pc; [exact Hpc|]. apply P_endJob; [exact Hpc|].
  now apply P_emit.
Qed.

Lemma walk_start_pages (rawUrls : list string) (clk : Clock) (s : Server) :
  pc s <> Settled -> P s -> P (start_pages rawUrls clk s).
Proof.
  intros Hpc H. unfold server.start_pages.
  destruct rawUrls as [|first rest]; [now apply walk_sitemap_error|].
  match goal with
  | |- context [match ?x with Some _ => _ | None => _ end] => destruct x as [b|]
  end; [|now apply P_pc].
  destruct (resolve_all URL_parse host_parse (first :: rest) b) as [resolvedUrls|];
    [|now apply P_pc].
  cbv zeta. apply walk_run_queue; [exact Hpc|].
  apply P_results; [exact Hpc|]. apply P_emit; [reflexivity|].
  now apply P_baseUrl.
Qed.

Lemma walk_nested_loop (sitemapUrls rawUrls : list string) (clk : Clock) (s : Server) :
  pc s <> Settled -> P s -> P (nested_loop sitemapUrls rawUrls clk s).
Proof.
  intros Hpc H. unfold server.nested_loop.
  destruct sitemapUrls as [|sitemapUrl rest].
  - apply walk_start_pages; [exact Hpc|]. now apply P_emit.
  - apply P_pc; [exact Hpc|]. now apply P_emit.
Qed.

Lemma walk_nested_fetched (sitemapUrl : string) (rest rawUrls : list string)
    (resp : string + string) (clk : Clock) (s : Server) :
  pc s <> Settled -> P s -> P (nested_fetched sitemapUrl rest rawUrls resp clk s).
Proof.
  intros Hpc H. unfold server.nested_fetched.
  destruct resp as [data|message].
  - destruct (sitemap.parseUrlsFromXml parser_parse data) as [message|[nested|inner]];
      apply walk_nested_loop; try exact Hpc; try exact H; now apply P_emit.
  - apply walk_nested_loop; [exact Hpc|]. now apply P_emit.
Qed.

Lemma walk_runValidation (p : Params) (clk : Clock) (s : Server) :
  pc s <> Settled -> P s -> P (runValidation p clk s).
Proof.
  intros Hpc H. unfold server.runValidation.
  destruct (sitemap.parseUrlsFromXml parser_parse (xml p)) as [message|[rawUrls|sitemapUrls]].
  - now apply walk_sitemap_error.
  - now apply walk_start_pages.
  - apply walk_nested_loop; [exact Hpc|]. now apply P_emit.
Qed.

Lemma walk_task_checked (t : Task) (start : Z) (outcome : list W3CMessage + string)
    (clk : Clock) (s : Server) :
  pc s <> Settled -> P s -> P (task_checked t start outcome clk s).
Proof.
  intros Hpc H. unfold task_checked. cbv zeta.
  assert (H' : P (match outcome with
                  | inl _ => emit (page_validating (index t) (resolved t)) s
                  | inr _ => s
                  end)) by (destruct outcome; [now apply P_emit|exact H]).
  assert (Hpc' : pc (match outcome with
                     | inl _ => emit (page_validating (index t) (resolved t)) s
                     | inr _ => s
                     end) <> Settled) by (destruct outcome; exact Hpc).
  apply P_pc; [exact Hpc'|]. apply P_emit; [reflexivity|].
  now apply P_results.
Qed.

Lemma walk_step (s : Server) (l : Label) : P s -> P (step s l).
Proof.
  intros H. unfold server.step.
  destruct l as [resp clk|outcome clk|clk| | |conn].
  - destruct (pc s) eqn:Hpc; try exact H.
    apply walk_nested_fetched; [now rewrite Hpc|exact H].
  - destruct (pc s) eqn:Hpc; try exact H.
    apply walk_task_checked; [now rewrite Hpc|exact H].
  - destruct (pc s) eqn:Hpc; try exact H.
    apply walk_run_queue; [now rewrite Hpc|exact H].
  - destruct (pc s); now apply P_abort.
  - destruct (pc s); now apply P_stream.
  - destruct (pc s); now apply P_close.
Qed.

Lemma walk (p : Params) (clk : Clock) (labels : list Label) :
  P (created p) -> P (run p clk labels).
Proof.
  intros H0. induction labels as [|l labels IH] using rev_ind.
  - apply walk_runValidation; [discriminate|exact H0].
  - unfold server.run in *. rewrite fold_left_app. cbn [fold_left].
    now apply walk_step.
Qed.

End Walk.

(** ** The server: the report *)

Section ReportProps.
Import types server statements observers.

Variable URL_parse : string -> option utils.URL.
Variable host_parse : bool -> string -> option string.
Variable String_trim : string -> string.
Variable parser_parse : string -> string + sitemap.Parsed.
Variable generateHtmlReport : Report -> string.

Local Abbreviation run :=
  (run URL_parse host_parse String_trim parser_parse generateHtmlReport).
Local Abbreviation report_inv := (report_inv generateHtmlReport).

Lemma report_inv_keep (s s' : Server) (es : list Event) :
  report (job s') = report (job s) ->
  buffered (job s') = buffered (job s) ++ es ->
  count is_done es = 0 ->
  results s' = results s -> baseUrl s' = baseUrl s -> pc s' = pc s ->
  report_inv s -> report_inv s'.
Proof.
  unfold observers.report_inv. intros -> -> He -> -> ->.
  destruct (report (job s)) as [r|].
  - intros (Hpc & g & Hin & Hr). split; [exact Hpc|]. exists g. cbv zeta in *.
    split; [|exact Hr]. apply in_app_iff. now left.
  - intros H. rewrite count_app. lia.
Qed.

Lemma report_inv_running (s s' : Server) :
  pc s <> Settled ->
  report (job s') = report (job s) ->
  buffered (job s') = buffered (job s) ->
  report_inv s -> report_inv s'.
Proof.
  unfold observers.report_inv. intros Hpc -> ->.
  destruct (report (job s)) as [r|]; [|auto].
  now intros [H _].
Qed.

Lemma report_inv_run (p : Params) (clk : Clock) (labels : list Label) :
  report_inv (run p clk labels).
Proof.
  apply walk.
  - intros e s He. apply (report_inv_keep s _ [e]); try reflexivity.
    unfold count. cbn. now rewrite He.
  - intros q s Hpc. now apply report_inv_running.
  - intros q s Hpc. now apply report_inv_running.
  - intros r s Hpc. now apply report_inv_running.
  - intros b s Hpc. now apply report_inv_running.
  - intros s Hpc. apply (report_inv_keep s _ [stream_end]); reflexivity.
  - intros clk' s Hpc. unfold observers.report_inv.
    destruct (report (job s)) as [r|] eqn:E; [now intros [H _]|].
    intros _. cbn. split; [reflexivity|]. exists (iso clk'). cbv zeta.
    split; [|reflexivity].
    rewrite <- app_assoc. apply in_app_iff. right. now left.
  - intros s. apply (report_inv_keep s _ [cancelled; stream_end]); try reflexivity.
    cbn. now rewrite <- app_assoc.
  - intros s. apply (report_inv_keep s _ []); try reflexivity;
      unfold get_stream; destruct (done (job s)); cbn; now rewrite ?app_nil_r.
  - intros conn s. apply (report_inv_keep s _ []); try reflexivity.
    cbn. now rewrite app_nil_r.
  - reflexivity.
Qed.

(** X19. The report handler answers 404 as long as the buffer holds no
    [done] event; when it answers 200, the run has returned and the body is
    the report generated from the written slots of the results array, with
    the summary that the [done] event of the buffer carries. *)
Theorem report_follows_done (p : Params) (clk : Clock) (labels : list Label) :
  let s := run p clk labels in
  (count is_done (buffered (job s)) = 0 ->
   get_report s = Http 404 "Report not ready") /\
  forall body,
    get_report s = Http 200 body ->
    pc s = Settled /\
    exists summary,
      In (done_ summary) (buffered (job s)) /\
      body = generateHtmlReport
               {| summary := summary; pages := filter_Boolean (results s) |}.
Proof.
  cbv zeta. pose proof (report_inv_run p clk labels) as K.
  unfold observers.report_inv, get_report in *.
  destruct (report (job (run p clk labels))) as [r|].
  - destruct K as (Hpc & g & Hin & Hr). cbv zeta in *. split.
    + intros H0. pose proof (count_In is_done _ _ Hin eq_refl). lia.
    + intros body. destruct (String.eqb r ""); [discriminate|].
      intros E. injection E as <-. split; [exact Hpc|]. eauto.
  - split; [reflexivity|]. discriminate.
Qed.

End ReportProps.

(** ** The server: what the observers receive *)

Section ObserverLists.
Import types server statements observers.

Lemma forEach_listener_length (e : Event) (ls : list nat) (cs : list Response) :
  length (fold_left (fun cs c => alter (listener e) c cs) ls cs) = length cs.
Proof.
  revert cs. induction ls as [|l ls IH]; intros cs; cbn; [reflexivity|].
  now rewrite IH, length_alter.
Qed.

Lemma forEach_listener_out (e : Event) (ls : list nat) (cs : list Response) (c : nat) :
  ~ In c ls ->
  fold_left (fun cs c => alter (listener e) c cs) ls cs !! c = cs !! c.
Proof.
  revert cs. induction ls as [|l ls IH]; intros cs Hc; cbn; [reflexivity|].
  rewrite IH by (intros H; apply Hc; now right).
  apply list_lookup_alter_ne. intros ->. apply Hc. now left.
Qed.

Lemma forEach_listener_in (e : Event) (ls : list nat) (cs : list Response) (c : nat) :
  List.NoDup ls -> In c ls ->
  fold_left (fun cs c => alter (listener e) c cs) ls cs !! c = listener e <$> cs !! c.
Proof.
  revert cs. induction ls as [|l ls IH]; intros cs Hn Hc; [destruct Hc|].
  apply List.NoDup_cons_iff in Hn as [Hl Hn]. cbn.
  destruct Hc as [->|Hc].
  - rewrite forEach_listener_out by exact Hl. apply list_lookup_alter_eq.
  - rewrite IH by assumption. f_equal. apply list_lookup_alter_ne.
    intros ->. contradiction.
Qed.

Lemma listener_open (e : Event) (r : Response) :
  ended r = false ->
  written (listener e r) = written r ++ [e] /\
  ended (listener e r) = includes_stream_end e.
Proof.
  intros H. unfold listener, res_write. rewrite H.
  now destruct (includes_stream_end e).
Qed.

End ObserverLists.

Section ObserverProps.
Import types server statements observers.

Variable URL_parse : string -> option utils.URL.
Variable host_parse : bool -> string -> option string.
Variable String_trim : string -> string.
Variable parser_parse : string -> string + sitemap.Parsed.
Variable generateHtmlReport : Report -> string.

Local Abbreviation run :=
  (run URL_parse host_parse String_trim parser_parse generateHtmlReport).

Lemma conn_inv_flags (s s' : Server) :
  listeners (job s') = listeners (job s) -> conns s' = conns s ->
  buffered (job s') = buffered (job s) ->
  (done (job s') = true -> In stream_end (buffered (job s))) ->
  conn_inv s -> conn_inv s'.
Proof.
  unfold conn_inv. intros -> -> -> Hd (K1 & K2 & _ & K4). auto.
Qed.

Lemma conn_inv_same (s s' : Server) :
  listeners (job s') = listeners (job s) -> conns s' = conns s ->
  buffered (job s') = buffered (job s) -> done (job s') = done (job s) ->
  conn_inv s -> conn_inv s'.
Proof.
  intros Hl Hc Hb Hd K. apply (conn_inv_flags s); auto.
  rewrite Hd. now destruct K as (_ & _ & K3 & _).
Qed.

Lemma conn_inv_emit (e : Event) (s : Server) : conn_inv s -> conn_inv (emit e s).
Proof.
  intros (K1 & K2 & K3 & K4). unfold conn_inv. cbn.
  split; [exact K1|]. split; [|split].
  - intros c Hc. rewrite forEach_listener_length. now apply K2.
  - intros Hd. apply in_app_iff. left. now apply K3.
  - intros c r' Hr'.
    destruct (in_dec Nat.eq_dec c (listeners (job s))) as [Hin|Hout].
    + rewrite forEach_listener_in in Hr'
        by (try apply NoDup_ListNoDup; assumption).
      destruct (conns s !! c) as [r|] eqn:Er; [|discriminate].
      injection Hr' as <-.
      destruct (K4 c r Er) as ((rest & Hp) & Hopen & Hend).
      destruct (ended r) eqn:Ee.
      * rewrite listener_ended by exact Ee. rewrite Ee.
        split; [exists (rest ++ [e]); rewrite Hp at 1; now rewrite <- app_assoc|].
        split; [discriminate|exact Hend].
      * destruct (listener_open e r Ee) as [Hw He]. rewrite Hw, He.
        rewrite (Hopen eq_refl Hin).
        split; [exists []; now rewrite app_nil_r|]. split; [reflexivity|].
        intros Hi. rewrite existsb_app. cbn. rewrite Hi. now rewrite !orb_true_r.
    + rewrite forEach_listener_out in Hr' by exact Hout.
      destruct (K4 c r' Hr') as ((rest & Hp) & Hopen & Hend).
      split; [exists (rest ++ [e]); rewrite Hp at 1; now rewrite <- app_assoc|].
      split; [|exact Hend]. intros _ Hin. contradiction.
Qed.

Lemma conn_inv_endJob (s : Server) : conn_inv s -> conn_inv (endJob s).
Proof.
  intros K. apply (conn_inv_flags (emit stream_end s)); try reflexivity.
  - intros _. cbn. apply in_app_iff. right. now left.
  - now apply conn_inv_emit.
Qed.

Lemma conn_inv_get_stream (s : Server) : conn_inv s -> conn_inv (get_stream s).
Proof.
  intros (K1 & K2 & K3 & K4). unfold conn_inv, get_stream.
  rewrite replay. cbn [app].
  destruct (done (job s)) eqn:Hd; cbn.
  - split; [exact K1|]. split; [|split].
    + intros c Hc. rewrite length_app. specialize (K2 c Hc). lia.
    + rewrite Hd. exact K3.
    + intros c r Hr. apply lookup_app_Some in Hr as [Hr|[Hlen Hr]]; [now apply K4|].
      destruct (c - length (conns s)) as [|n] eqn:En; [|destruct n; discriminate Hr].
      injection Hr as <-. cbn.
      split; [exists []; now rewrite app_nil_r|]. split; [discriminate|].
      intros _. apply existsb_exists. exists stream_end. split; [now apply K3|reflexivity].
  - split; [|split; [|split]].
    + apply NoDup_app. split; [exact K1|]. split; [|apply NoDup_singleton].
      intros c Hc Hc'. apply list_elem_of_singleton in Hc'. subst c.
      apply list_elem_of_In, K2 in Hc. lia.
    + intros c Hc. rewrite length_app. cbn.
      apply in_app_iff in Hc as [Hc|[<-|[]]]; [specialize (K2 c Hc)|]; lia.
    + rewrite Hd. discriminate.
    + intros c r Hr. apply lookup_app_Some in Hr as [Hr|[Hlen Hr]].
      * destruct (K4 c r Hr) as (Hp & Hopen & Hend).
        split; [exact Hp|]. split; [|exact Hend].
        intros He Hc. apply Hopen; [exact He|].
        apply in_app_iff in Hc as [Hc|[<-|[]]]; [exact Hc|].
        apply lookup_lt_Some in Hr. lia.
      * destruct (c - length (conns s)) as [|n] eqn:En; [|destruct n; discriminate Hr].
        injection Hr as <-. cbn.
        split; [exists []; now rewrite app_nil_r|]. split; [reflexivity|discriminate].
Qed.

Lemma conn_inv_on_close (conn : nat) (s : Server) : conn_inv s -> conn_inv (on_close conn s).
Proof.
  intros (K1 & K2 & K3 & K4). unfold conn_inv, on_close. cbn.
  split; [|split; [|split]].
  - apply NoDup_ListNoDup, List.NoDup_filter, NoDup_ListNoDup, K1.
  - intros c Hc. apply List.filter_In in Hc as [Hc _]. now apply K2.
  - exact K3.
  - intros c r Hr. destruct (K4 c r Hr) as (Hp & Hopen & Hend).
    split; [exact Hp|]. split; [|exact Hend].
    intros He Hc. apply List.filter_In in Hc as [Hc _]. now apply Hopen.
Qed.

Lemma conn_inv_run (p : Params) (clk : Clock) (labels : list Label) :
  conn_inv (run p clk labels).
Proof.
  apply walk.
  - intros e s _. apply conn_inv_emit.
  - intros q s _. now apply conn_inv_same.
  - intros q s _. now apply conn_inv_same.
  - intros r s _. now apply conn_inv_same.
  - intros b s _. now apply conn_inv_same.
  - intros s _. apply conn_inv_endJob.
  - intros clk' s _ K. unfold server.finish. cbv zeta.
    match goal with
    | |- conn_inv (set_pc _ ?x) => apply (conn_inv_same x); try reflexivity
    end.
    apply conn_inv_endJob, conn_inv_emit.
    now apply (conn_inv_same s).
  - intros s K. unfold post_abort. cbv zeta.
    apply conn_inv_endJob, conn_inv_emit.
    now apply (conn_inv_same s).
  - apply conn_inv_get_stream.
  - apply conn_inv_on_close.
  - unfold conn_inv. cbn. split; [constructor|]. split; [intros c []|].
    split; [discriminate|]. intros c r H. destruct c; discriminate.
Qed.

(** X20. Every response of a job carries a prefix of the buffer: the events
    arrive from the first one on, in the order of the buffer, none missing
    and none twice.  A response that is registered as a listener and not
    ended carries the whole buffer. *)
Theorem observer_receives_prefix (p : Params) (clk : Clock) (labels : list Label)
    (c : nat) (r : Response) :
  let s := run p clk labels in
  conns s !! c = Some r ->
  (exists rest, buffered (job s) = written r ++ rest) /\
  (ended r = false -> In c (listeners (job s)) -> written r = buffered (job s)).
Proof.
  cbv zeta. intros Hr.
  destruct (conn_inv_run p clk labels) as (_ & _ & _ & K4).
  destruct (K4 c r Hr) as (Hp & Hopen & _). auto.
Qed.

(** X21. A response is ended only after it carried the [stream_end]
    marker: what was written to an ended response holds an event whose text
    contains the marker. *)
Theorem ended_response_saw_marker (p : Params) (clk : Clock) (labels : list Label)
    (c : nat) (r : Response) :
  let s := run p clk labels in
  conns s !! c = Some r -> ended r = true ->
  List.existsb includes_stream_end (written r) = true.
Proof.
  cbv zeta. intros Hr He.
  destruct (conn_inv_run p clk labels) as (_ & _ & _ & K4).
  destruct (K4 c r Hr) as (_ & _ & Hend). auto.
Qed.

(** The listeners of a job are distinct responses of the job: the list of
    listeners behaves as the set that the source keeps. *)
Lemma listeners_are_responses (p : Params) (clk : Clock) (labels : list Label) :
  let s := run p clk labels in
  List.NoDup (listeners (job s)) /\
  forall c, In c (listeners (job s)) -> exists r, conns s !! c = Some r.
Proof.
  cbv zeta. destruct (conn_inv_run p clk labels) as (K1 & K2 & _).
  split; [now apply NoDup_ListNoDup|].
  intros c Hc. apply lookup_lt_is_Some_2. now apply K2.
Qed.

End ObserverProps.

(** X19 on a run of two pages that came to its end: the report is served. *)
Lemma report_follows_done_witness :
  observers.get_report
    (server.run examples.URL_parse examples.host_parse examples.String_trim
       examples.parser_parse examples.generateHtmlReport
       (examples.two_pages None None) (examples.clock 0) examples.both_pages_clean) = observers.Http 200 "<html></html>" /\
  server.pc
    (server.run examples.URL_parse examples.host_parse examples.String_trim
       examples.parser_parse examples.generateHtmlReport
       (examples.two_pages None None) (examples.clock 0) examples.both_pages_clean) = server.Settled.
Proof.
  assert (H : observers.get_report
                (server.run examples.URL_parse examples.host_parse examples.String_trim
       examples.parser_parse examples.generateHtmlReport
       (examples.two_pages None None) (examples.clock 0) examples.both_pages_clean) = observers.Http 200 "<html></html>")
    by (vm_compute; reflexivity).
  split; [exact H|].
  exact (proj1 (proj2 (report_follows_done examples.URL_parse examples.host_parse
                         examples.String_trim examples.parser_parse
                         examples.generateHtmlReport
                         (examples.two_pages None None) (examples.clock 0)
                         examples.both_pages_clean) "<html></html>" H)).
Defined.

(** X20 on an observer that attached before the first page was checked. *)
Lemma observer_receives_prefix_witness :
  exists r,
    server.conns
      (server.run examples.URL_parse examples.host_parse examples.String_trim
       examples.parser_parse examples.generateHtmlReport
       (examples.two_pages None None) (examples.clock 0) observers.watched_first_page) !! 0 = Some r /\
    server.written r =
    server.buffered (server.job
      (server.run examples.URL_parse examples.host_parse examples.String_trim
       examples.parser_parse examples.generateHtmlReport
       (examples.two_pages None None) (examples.clock 0) observers.watched_first_page)).
Proof.
  eexists. split; [vm_compute; reflexivity|].
  apply (proj2 (observer_receives_prefix examples.URL_parse examples.host_parse
                  examples.String_trim examples.parser_parse
                  examples.generateHtmlReport
                  (examples.two_pages None None) (examples.clock 0)
                  observers.watched_first_page 0 _
                  ltac:(vm_compute; reflexivity))).
  - reflexivity.
  - vm_compute. left. reflexivity.
Defined.

(** X21 on the same observer at the end of the job. *)
Lemma ended_response_saw_marker_witness :
  exists r,
    server.conns
      (server.run examples.URL_parse examples.host_parse examples.String_trim
       examples.parser_parse examples.generateHtmlReport
       (examples.two_pages None None) (examples.clock 0) observers.watched_to_the_end) !! 0 = Some r /\
    List.existsb server.includes_stream_end (server.written r) = true.
Proof.
  eexists. split; [vm_compute; reflexivity|].
  apply (ended_response_saw_marker examples.URL_parse examples.host_parse
           examples.String_trim examples.parser_parse
           examples.generateHtmlReport
           (examples.two_pages None None) (examples.clock 0)
           observers.watched_to_the_end 0 _
           ltac:(vm_compute; reflexivity)).
  reflexivity.
Defined.

(** ** The server: observers do not steer the job *)

Section ForgetProps.
Import types server statements observers.

Variable URL_parse : string -> option utils.URL.
Variable host_parse : bool -> string -> option string.
Variable String_trim : string -> string.
Variable parser_parse : string -> string + sitemap.Parsed.
Variable generateHtmlReport : Report -> string.

Local Abbreviation finish := (finish generateHtmlReport).
Local Abbreviation run_queue := (run_queue generateHtmlReport).
Local Abbreviation start_pages :=
  (start_pages URL_parse host_parse String_trim generateHtmlReport).
Local Abbreviation nested_loop :=
  (nested_loop URL_parse host_parse String_trim generateHtmlReport).
Local Abbreviation nested_fetched :=
  (nested_fetched URL_parse host_parse String_trim parser_parse generateHtmlReport).
Local Abbreviation runValidation :=
  (runValidation URL_parse host_parse String_trim parser_parse generateHtmlReport).
Local Abbreviation step :=
  (step URL_parse host_parse String_trim parser_parse generateHtmlReport).
Local Abbreviation run :=
  (run URL_parse host_parse String_trim parser_parse generateHtmlReport).

(** A handler is blind to the observers when its effect on the job does
    not depend on them. *)
Local Abbreviation blind h := (forall s : Server, forget (h s) = forget (h (forget s))).

Lemma blind_congr (h : Server -> Server) :
  blind h -> forall s s', forget s = forget s' -> forget (h s) = forget (h s').
Proof. intros Hh s s' E. now rewrite (Hh s), (Hh s'), E. Qed.

Lemma blind_run_queue (q : list Task) (clk : Clock) : blind (run_queue q clk).
Proof.
  intros s. induction q as [|t q IH]; cbn.
  - reflexivity.
  - destruct (aborted (job s)); [exact IH|reflexivity].
Qed.

Lemma blind_start_pages (rawUrls : list string) (clk : Clock) :
  blind (start_pages rawUrls clk).
Proof.
  intros s. unfold server.start_pages.
  destruct rawUrls as [|first rest]; [reflexivity|].
  change (params_base (forget s)) with (params_base s).
  match goal with
  | |- context [match ?x with Some _ => _ | None => _ end] => destruct x as [b|]
  end; [|reflexivity].
  destruct (resolve_all URL_parse host_parse (first :: rest) b) as [resolvedUrls|];
    [|reflexivity].
  cbv zeta. now apply (blind_congr _ (blind_run_queue _ clk)).
Qed.

Lemma blind_nested_loop (sitemapUrls rawUrls : list string) (clk : Clock) :
  blind (nested_loop sitemapUrls rawUrls clk).
Proof.
  intros s. unfold server.nested_loop.
  destruct sitemapUrls as [|sitemapUrl rest]; [|reflexivity].
  now apply (blind_congr _ (blind_start_pages rawUrls clk)).
Qed.

Lemma blind_nested_fetched (sitemapUrl : string) (rest rawUrls : list string)
    (resp : string + string) (clk : Clock) :
  blind (nested_fetched sitemapUrl rest rawUrls resp clk).
Proof.
  intros s. unfold server.nested_fetched.
  destruct resp as [data|message];
    [destruct (sitemap.parseUrlsFromXml parser_parse data) as [message|[nested|inner]]|];
    now apply (blind_congr _ (blind_nested_loop _ _ clk)).
Qed.

Lemma blind_task_checked (t : Task) (start : Z) (outcome : list W3CMessage + string)
    (clk : Clock) :
  blind (task_checked t start outcome clk).
Proof. intros s. now destruct outcome. Qed.

Lemma blind_step (l : Label) : is_pipeline l = true -> blind (fun s => step s l).
Proof.
  intros Hl s. unfold server.step.
  change (pc (forget s)) with (pc s).
  destruct l as [resp clk|outcome clk|clk| | |conn]; try discriminate Hl.
  - destruct (pc s); try reflexivity. apply blind_nested_fetched.
  - destruct (pc s); try reflexivity. apply blind_task_checked.
  - destruct (pc s); try reflexivity.
    change (queue (forget s)) with (queue s). apply blind_run_queue.
  - now destruct (pc s).
Qed.

Lemma observer_step (s : Server) (l : Label) :
  is_pipeline l = false -> forget (step s l) = forget s.
Proof.
  intros Hl. unfold server.step.
  destruct l as [resp clk|outcome clk|clk| | |conn]; try discriminate Hl.
  - unfold get_stream. now destruct (pc s), (done (job s)).
  - now destruct (pc s).
Qed.


End ForgetProps.

(** ** reporter.ts: the unique issues *)

Section UniqueLists.
Import types reporter.

Lemma get_bump (h' h : string) (m : W3CMessage) (seen : list (string * Seen)) :
  get h' (bump h m seen) =
  if String.eqb h' h then
    Some match get h seen with
         | Some v => {| msg := msg v; count := S (count v) |}
         | None => {| msg := m; count := 1 |}
         end
  else get h' seen.
Proof.
  induction seen as [|[k v] seen IH]; cbn.
  - rewrite (String.eqb_sym h h'). now destruct (String.eqb h' h).
  - destruct (String.eqb_spec k h) as [->|Hk]; cbn.
    + rewrite (String.eqb_sym h h'). now destruct (String.eqb h' h).
    + destruct (String.eqb_spec k h') as [->|Hk'].
      * destruct (String.eqb_spec h' h) as [->|_]; [contradiction|reflexivity].
      * exact IH.
Qed.

Lemma get_None (h : string) (seen : list (string * Seen)) :
  get h seen = None <-> ~ In h (map fst seen).
Proof.
  induction seen as [|[k v] seen IH]; cbn; [tauto|].
  destruct (String.eqb_spec k h) as [->|Hk].
  - split; [discriminate|]. intros H. exfalso. apply H. now left.
  - rewrite IH. tauto.
Qed.

Lemma keys_bump (h : string) (m : W3CMessage) (seen : list (string * Seen)) :
  map fst (bump h m seen) =
  match get h seen with
  | Some _ => map fst seen
  | None => map fst seen ++ [h]
  end.
Proof.
  induction seen as [|[k v] seen IH]; cbn; [reflexivity|].
  destruct (String.eqb_spec k h) as [->|Hk]; cbn; [reflexivity|].
  rewrite IH. now destruct (get h seen).
Qed.

Lemma total_bump (h : string) (m : W3CMessage) (seen : list (string * Seen)) :
  list_sum (map (fun v => count (snd v)) (bump h m seen)) =
  S (list_sum (map (fun v => count (snd v)) seen)).
Proof.
  unfold list_sum.
  induction seen as [|[k v] seen IH]; cbn; [reflexivity|].
  destruct (String.eqb k h); cbn; [reflexivity|]. rewrite IH. lia.
Qed.

Lemma positive_bump (h : string) (m : W3CMessage) (seen : list (string * Seen)) :
  Forall (fun v => 1 <= count (snd v)) seen ->
  Forall (fun v => 1 <= count (snd v)) (bump h m seen).
Proof.
  induction 1 as [|[k v] seen Hv Hs IH]; cbn.
  - repeat constructor.
  - destruct (String.eqb k h); constructor; auto. cbn in *. lia.
Qed.

Lemma length_le_total (seen : list (string * Seen)) :
  Forall (fun v => 1 <= count (snd v)) seen ->
  length seen <= list_sum (map (fun v => count (snd v)) seen).
Proof.
  unfold list_sum. induction 1 as [|v seen Hv _ IH]; cbn; lia.
Qed.

End UniqueLists.

Section UniqueProps.
Import types reporter.

Variable String_trim : string -> string.

Local Abbreviation hash := (hash String_trim).
Local Abbreviation collect := (collect String_trim).
Local Abbreviation raising := (raising String_trim).
Local Abbreviation printUniqueErrors := (printUniqueErrors String_trim).

Local Abbreviation loop := (loop String_trim).

Lemma collect_all (results : list PageResult) :
  collect results = loop (all_messages results) [].
Proof.
  unfold reporter.collect, all_messages. generalize (@nil (string * Seen)).
  induction results as [|r results IH]; intros seen; cbn; [reflexivity|].
  rewrite IH. unfold reporter.loop. now rewrite fold_left_app.
Qed.

Lemma loop_get (h : string) (ms : list W3CMessage) (seen : list (string * Seen)) :
  get h (loop ms seen) =
  match get h seen with
  | Some v => Some {| msg := msg v; count := count v + length (raising h ms) |}
  | None =>
      match raising h ms with
      | [] => None
      | first :: rest => Some {| msg := first; count := S (length rest) |}
      end
  end.
Proof.
  unfold reporter.loop. revert seen. induction ms as [|m ms IH]; intros seen; cbn.
  - destruct (get h seen) as [[m0 c]|]; [|reflexivity]. cbn. now rewrite Nat.add_0_r.
  - rewrite IH, get_bump. unfold reporter.raising. cbn [List.filter].
    rewrite (String.eqb_sym h (hash m)).
    destruct (String.eqb_spec (hash m) h) as [->|Hne].
    + destruct (get _ seen) as [v|]; cbn; [|reflexivity].
      do 2 f_equal. lia.
    + reflexivity.
Qed.

Lemma loop_keys (ms : list W3CMessage) (seen : list (string * Seen)) :
  List.NoDup (map fst seen) -> List.NoDup (map fst (loop ms seen)).
Proof.
  unfold reporter.loop. revert seen. induction ms as [|m ms IH]; intros seen Hn; cbn; [exact Hn|].
  apply IH. rewrite keys_bump.
  destruct (get (hash m) seen) eqn:E; [exact Hn|].
  apply get_None in E.
  apply NoDup_ListNoDup, NoDup_app. split; [now apply NoDup_ListNoDup|].
  split; [|apply NoDup_singleton].
  intros x Hx Hx'. apply list_elem_of_singleton in Hx'. subst x.
  apply E. now apply list_elem_of_In.
Qed.

Lemma loop_total (ms : list W3CMessage) (seen : list (string * Seen)) :
  list_sum (map (fun v => count (snd v)) (loop ms seen)) =
  list_sum (map (fun v => count (snd v)) seen) + length ms.
Proof.
  unfold reporter.loop. revert seen.
  induction ms as [|m ms IH]; intros seen; cbn [fold_left length]; [lia|].
  rewrite IH, total_bump. lia.
Qed.

Lemma loop_positive (ms : list W3CMessage) (seen : list (string * Seen)) :
  Forall (fun v => 1 <= count (snd v)) seen ->
  Forall (fun v => 1 <= count (snd v)) (loop ms seen).
Proof.
  unfold reporter.loop. revert seen. induction ms as [|m ms IH]; intros seen H; cbn; [exact H|].
  now apply IH, positive_bump.
Qed.

Lemma hash_same (m1 m2 : W3CMessage) :
  hash m1 = hash m2 <->
  type m1 = type m2 /\ String_trim (message m1) = String_trim (message m2).
Proof.
  unfold reporter.hash. split.
  - destruct (type m1), (type m2); cbv [String.append type_name]; intros H;
      try discriminate H; injection H as H; auto.
  - intros [-> ->]. reflexivity.
Qed.

(** X23. The unique issues.  Two messages are one issue exactly when they
    have the same kind and the same text up to surrounding white space.
    Every issue is listed once; its entry keeps the first message that
    raised it and counts the messages that raised it, on whatever pages: a
    page that carries a message twice counts twice. *)
Theorem unique_issue_entries (results : list PageResult) :
  (forall m1 m2,
      hash m1 = hash m2 <->
      type m1 = type m2 /\ String_trim (message m1) = String_trim (message m2)) /\
  List.NoDup (map fst (collect results)) /\
  forall h,
    get h (collect results) =
    match raising h (all_messages results) with
    | [] => None
    | first :: rest => Some {| msg := first; count := S (length rest) |}
    end.
Proof.
  split; [exact hash_same|]. rewrite collect_all. split.
  - apply loop_keys. constructor.
  - intros h. rewrite loop_get. reflexivity.
Qed.

(** X24. The totals of the unique issues.  Nothing is printed exactly when
    no page carries a message; otherwise the total of the occurrences is
    the number of messages of all pages, and there is at least one issue
    and no more issues than occurrences. *)
Theorem unique_issue_totals (results : list PageResult) :
  match printUniqueErrors results with
  | None => all_messages results = []
  | Some u =>
      total_occurrences u = length (all_messages results) /\
      1 <= unique_issues u <= total_occurrences u /\
      length (issues u) = unique_issues u
  end.
Proof.
  unfold reporter.printUniqueErrors.
  pose proof (loop_total (all_messages results) []) as Ht.
  pose proof (loop_positive (all_messages results) [] (List.Forall_nil _)) as Hp.
  rewrite <- collect_all in Ht, Hp. cbn [map list_sum foldr] in Ht.
  destruct (collect results) as [|entry seen] eqn:E.
  - cbn in Ht. destruct (all_messages results); [reflexivity|discriminate Ht].
  - cbn [total_occurrences unique_issues issues].
    rewrite fold_left_sum, length_map, Ht.
    split; [reflexivity|]. split; [|reflexivity].
    apply length_le_total in Hp. rewrite Ht in Hp. cbn in *. lia.
Qed.

End UniqueProps.

(** A page that carries the same error twice gives one issue with the
    count 2, though one page raised it. *)
Lemma unique_issue_counts_messages :
  reporter.printUniqueErrors examples.String_trim reporter.twice_on_one_page =
  Some {| reporter.total_occurrences := 2; reporter.unique_issues := 1;
          reporter.issues := [("Stray end tag.", Some 2)] |}.
Proof. reflexivity. Qed.

(** ** cli.ts: the command-line program *)

Section CliLists.
Import types server progress.

Lemma make_tasks_source (resolvedUrls : list (string * string)) (i : nat) :
  map source (make_tasks i resolvedUrls) = map fst resolvedUrls.
Proof.
  revert i. induction resolvedUrls as [|[src res] l IH]; intros i; cbn; [reflexivity|].
  now rewrite IH.
Qed.

Lemma page_result_urls (t : Task) (outcome : list W3CMessage + string) (d : Z) :
  sourceUrl (page_result t outcome d) = source t /\
  url (page_result t outcome d) = resolved t.
Proof. now destruct outcome. Qed.

Lemma task_result_failed (r : PageResult) :
  task_result r -> (status r = failed <-> errorMessage r <> None).
Proof.
  intros (t & [ms|m] & d & ->); cbn.
  - split; [|congruence]. intros H.
    now destruct (classify_spec ms) as (_ & _ & _ & Hf).
  - split; [discriminate|reflexivity].
Qed.

Lemma count_status_zero (st : PageStatus) (valid : list PageResult) :
  count_status st valid = 0 <-> Forall (fun r => status r <> st) valid.
Proof.
  unfold count_status.
  induction valid as [|r valid IH]; cbn; [split; auto|].
  destruct (PageStatus_eqb (status r) st) eqn:E; cbn.
  - split; [discriminate|]. intros H. apply Forall_cons in H as [H _].
    destruct (status r), st; try discriminate E; now destruct H.
  - rewrite IH. split.
    + intros H. constructor; [|exact H]. intros Hs. rewrite Hs in E.
      destruct st; discriminate E.
    + intros H. now apply Forall_cons in H as [_ H].
Qed.

End CliLists.

Section CliProps.
Import types cli.

Variable URL_parse : string -> option utils.URL.
Variable host_parse : bool -> string -> option string.
Variable parser_parse : string -> string + sitemap.Parsed.
Variable parseInt : string -> option Z.
Variable encodeURIComponent : string -> string.
Variable String_trim : string -> string.
Variable generateHtmlReport : Report -> string.
Variable World : Type.
Variable axios_get : string -> World -> (string + string) * World.
Variable get_text : string -> World -> (string + string) * World.
Variable post_html : string -> string -> World -> (validator.W3CApiResponse + string) * World.
Variable get_json : string -> World -> (validator.W3CApiResponse + string) * World.
Variable Date_now : World -> Z.
Variable toISOString : World -> string.
Variable sleep : Z -> World -> World.
Variable writeFile : string -> string -> World -> option string * World.

Local Abbreviation State := (State World).
Local Abbreviation delay_ms := (delay_ms parseInt).
Local Abbreviation run_task :=
  (run_task URL_parse encodeURIComponent World get_text post_html get_json Date_now sleep).
Local Abbreviation main :=
  (main URL_parse host_parse parser_parse parseInt encodeURIComponent String_trim
     generateHtmlReport World axios_get get_text post_html get_json Date_now
     toISOString sleep writeFile).
Local Abbreviation extractUrlsFromSitemap :=
  (sitemap.extractUrlsFromSitemap parser_parse World axios_get).

(** X25. The delay between two pages.  It is never negative; an option
    that is not a number, and the option [0], give 1000 ms; a positive
    number is taken as it is; so the delay is 0 only for a negative
    number. *)
Theorem delay_option (o : Options) :
  (0 <= delay_ms o)%Z /\
  (parseInt (delay o) = None \/ parseInt (delay o) = Some 0%Z -> delay_ms o = 1000%Z) /\
  (forall n, parseInt (delay o) = Some n -> (0 < n)%Z -> delay_ms o = n) /\
  (delay_ms o = 0%Z <-> exists n, parseInt (delay o) = Some n /\ (n < 0)%Z).
Proof.
  unfold cli.delay_ms.
  destruct (parseInt (delay o)) as [n|].
  - destruct (Z.eqb_spec n 0) as [->|Hn].
    + split; [lia|]. split; [intros _; lia|]. split; [intros n' E; injection E; lia|].
      split; [lia|]. intros (n' & E & Hn'). injection E. lia.
    + split; [lia|]. split; [intros [E|E]; [discriminate|injection E; lia]|].
      split; [intros n' E; injection E; lia|].
      split; [intros H; exists n; split; [reflexivity|lia]|].
      intros (n' & E & Hn'). injection E. lia.
  - split; [lia|]. split; [intros _; lia|]. split; [discriminate|].
    split; [lia|]. intros (n' & E & _). discriminate.
Qed.

Lemma tasks_run (delay : Z) (tasks : list server.Task) (acc : list PageResult * State) :
  let ran := fold_left (run_task delay) tasks acc in
  map sourceUrl (fst ran) = map sourceUrl (fst acc) ++ map server.source tasks /\
  map url (fst ran) = map url (fst acc) ++ map server.resolved tasks /\
  (Forall progress.task_result (fst acc) -> Forall progress.task_result (fst ran)) /\
  slept World (snd ran) =
    slept World (snd acc) ++
    (if (0 <? delay)%Z then replicate (length tasks) delay else []) /\
  file World (snd ran) = file World (snd acc) /\
  console World (snd ran) = console World (snd acc).
Proof.
  cbv zeta. revert acc. induction tasks as [|t tasks IH]; intros acc.
  - cbn. rewrite !app_nil_r. destruct (0 <? delay)%Z; rewrite ?app_nil_r; auto 10.
  - cbn [fold_left].
    destruct (IH (run_task delay acc t)) as (H1 & H2 & H3 & H4 & H5 & H6).
    rewrite H1, H2, H4, H5, H6. clear IH H1 H2 H4 H5 H6.
    unfold cli.run_task. cbv zeta. cbn [fst snd slept file console].
    rewrite !map_app. cbn [map length replicate]. rewrite <- !app_assoc. cbn [app].
    rewrite (proj1 (page_result_urls _ _ _)), (proj2 (page_result_urls _ _ _)).
    split; [reflexivity|]. split; [reflexivity|]. split; [|split; [|split]].
    + intros Hacc. apply H3. unfold cli.run_task. cbv zeta. cbn [fst].
      apply Forall_app. split; [exact Hacc|]. constructor; [|constructor].
      eexists _, _, _. reflexivity.
    + destruct (0 <? delay)%Z; [|reflexivity]. now rewrite <- app_assoc.
    + reflexivity.
    + reflexivity.
Qed.

Lemma resolve_all_sources (rawUrls : list string) (baseUrl : string)
    (resolvedUrls : list (string * string)) :
  server.resolve_all URL_parse host_parse rawUrls baseUrl = Some resolvedUrls ->
  map fst resolvedUrls = rawUrls.
Proof.
  revert resolvedUrls. induction rawUrls as [|u rawUrls IH]; intros resolvedUrls; cbn.
  - intros E. now injection E as <-.
  - destruct (utils.resolveUrlToBase URL_parse host_parse u baseUrl); [|discriminate].
    destruct (server.resolve_all URL_parse host_parse rawUrls baseUrl); [|discriminate].
    intros E. injection E as <-. cbn. f_equal. now apply IH.
Qed.

(** What [main] has done when it reaches its end. *)
Lemma main_reported (o : Options) (w : World) (report : Report) (code : nat) (s : State) :
  main o w = (Reported report code, s) ->
  exists rawUrls e,
    extractUrlsFromSitemap (sitemap o) 0
      {| sitemap.world := w; sitemap.console := [] |} = (sitemap.Returned rawUrls, e) /\
    map sourceUrl (pages report) = rawUrls /\
    Forall progress.task_result (pages report) /\
    summary report =
      server.make_summary (pages report) (generatedAt (summary report)) (sitemap o) /\
    code = (if (0 <? pagesWithErrors (summary report))%nat ||
               (0 <? pagesFailed (summary report))%nat then 1 else 0) /\
    file World s = Some (output o, generateHtmlReport report) /\
    slept World s =
      (if (0 <? delay_ms o)%Z then replicate (length rawUrls) (delay_ms o) else []).
Proof.
  unfold cli.main.
  match goal with
  | |- context [match ?x with Some _ => _ | None => _ end = _] => destruct x as [baseUrl|]
  end; [|discriminate].
  cbv zeta.
  destruct (extractUrlsFromSitemap _ _ _) as [[rawUrls|message|] e] eqn:Ex;
    try discriminate.
  destruct rawUrls as [|first rest]; [discriminate|].
  destruct (server.resolve_all URL_parse host_parse (first :: rest) baseUrl)
    as [resolvedUrls|] eqn:Er; [|discriminate].
  destruct (tasks_run (delay_ms o) (server.make_tasks 0 resolvedUrls)
              ([], after_sitemap World e)) as (H1 & _ & H3 & H4 & H5 & _).
  cbv zeta in *. cbn [fst snd map app] in H1, H3, H4, H5.
  destruct (writeFile _ _ _) as [[err|] w']; cbn [fst snd]; [discriminate|].
  intros E. injection E as <- <- <-. cbn [pages summary file slept].
  exists (first :: rest), e. split; [reflexivity|].
  split; [now rewrite H1, make_tasks_source, (resolve_all_sources _ _ _ Er)|].
  split; [apply H3; constructor|]. split; [reflexivity|]. split; [reflexivity|].
  split; [reflexivity|].
  rewrite H4. cbn [slept after_sitemap app].
  rewrite <- (length_map server.source), make_tasks_source, (resolve_all_sources _ _ _ Er).
  reflexivity.
Qed.

(** X26. The exit code of a run that reached its end is 0 or 1, and it is
    0 exactly when every page is clean or has warnings only, that is when
    every page could be checked and no message of any page is an error. *)
Theorem main_exit_code (o : Options) (w : World) (report : Report) (code : nat)
    (s : State) :
  main o w = (Reported report code, s) ->
  (code = 0 \/ code = 1) /\
  (code = 0 <->
   Forall (fun r => status r = clean \/ status r = warnings) (pages report)) /\
  (code = 0 <->
   Forall (fun r => errorMessage r = None /\
                    server.count_type error (messages r) = 0) (pages report)).
Proof.
  intros H.
  destruct (main_reported _ _ _ _ _ H) as (rawUrls & e & _ & _ & Ht & Hs & Hc & _).
  rewrite Hs in Hc. cbn [pagesWithErrors pagesFailed server.make_summary] in Hc.
  assert (Hz : code = 0 <->
               server.count_status errors (pages report) = 0 /\
               server.count_status failed (pages report) = 0).
  { rewrite Hc.
    destruct (Nat.ltb_spec 0 (server.count_status errors (pages report)));
      destruct (Nat.ltb_spec 0 (server.count_status failed (pages report)));
      cbn; lia. }
  split; [rewrite Hc; destruct (_ || _); auto|].
  rewrite Hz, !count_status_zero. split.
  - split.
    + intros [He Hf]. apply Forall_forall. intros r Hr.
      pose proof (proj1 (Forall_forall _ _) He r Hr).
      pose proof (proj1 (Forall_forall _ _) Hf r Hr).
      cbn beta in *. destruct (status r); auto; congruence.
    + intros Ha. split; apply Forall_forall; intros r Hr;
        destruct (proj1 (Forall_forall _ _) Ha r Hr) as [E|E]; rewrite E; discriminate.
  - split.
    + intros [He Hf]. apply Forall_forall. intros r Hr.
      pose proof (proj1 (Forall_forall _ _) He r Hr) as He'.
      pose proof (proj1 (Forall_forall _ _) Hf r Hr) as Hf'.
      pose proof (proj1 (Forall_forall _ _) Ht r Hr) as Hr'.
      destruct (task_result_status r Hr') as (K1 & _).
      pose proof (task_result_failed r Hr') as K2. cbn beta in *.
      split.
      * destruct (errorMessage r); [|reflexivity]. exfalso. apply Hf', K2. discriminate.
      * destruct (server.count_type error (messages r)); [reflexivity|].
        exfalso. apply He', K1. lia.
    + intros Ha. split; apply Forall_forall; intros r Hr;
        destruct (proj1 (Forall_forall _ _) Ha r Hr) as [E1 E2];
        pose proof (proj1 (Forall_forall _ _) Ht r Hr) as Hr';
        destruct (task_result_status r Hr') as (K1 & _);
        pose proof (task_result_failed r Hr') as K2; intros E.
      * apply K1 in E. lia.
      * apply K2 in E. contradiction.
Qed.

(** X27. A run that reaches its end reports every URL of the sitemap: the
    pages of the report are the URLs that [extractUrlsFromSitemap] returned,
    in their order, [totalPages] is their number, the summary names the
    sitemap, the report was written to the output file, and the process
    slept once after every page, for the delay, when the delay is not 0. *)
Theorem main_reports_every_url (o : Options) (w : World) (report : Report) (code : nat)
    (s : State) :
  main o w = (Reported report code, s) ->
  exists rawUrls e,
    extractUrlsFromSitemap (sitemap o) 0
      {| sitemap.world := w; sitemap.console := [] |} = (sitemap.Returned rawUrls, e) /\
    map sourceUrl (pages report) = rawUrls /\
    totalPages (summary report) = length rawUrls /\
    sitemapUrl (summary report) = sitemap o /\
    file World s = Some (output o, generateHtmlReport report) /\
    slept World s =
      (if (0 <? delay_ms o)%Z then replicate (length rawUrls) (delay_ms o) else []).
Proof.
  intros H.
  destruct (main_reported _ _ _ _ _ H) as (rawUrls & e & Hx & Hp & _ & Hs & _ & Hf & Hd).
  exists rawUrls, e. split; [exact Hx|]. split; [exact Hp|].
  rewrite Hs. cbn [totalPages sitemapUrl server.make_summary].
  split; [now rewrite <- Hp, length_map|]. auto.
Qed.

(** X28. Nothing is written and no page is requested before the whole
    sitemap is known: a run that ends otherwise than at the end of [main]
    writes no file, and when that is because the sitemap could not be
    fetched or holds no URL, no page request was made and no sleep taken,
    with exit code 1 and 0. *)
Theorem main_stops_early (o : Options) (w : World) (outcome : Outcome) (s : State) :
  main o w = (outcome, s) ->
  (forall report code, outcome <> Reported report code) ->
  file World s = None /\ exit_code outcome = (if outcome is NoUrls then 0 else 1) /\
  (outcome <> Fatal -> calls World s = [] /\ slept World s = []).
Proof.
  unfold cli.main. intros H Hn.
  match type of H with
  | context [match ?x with Some _ => _ | None => _ end] => destruct x as [baseUrl|]
  end.
  2: { injection H as <- <-. cbn. split; [reflexivity|]. split; [reflexivity|]. now intros []. }
  cbv zeta in H.
  destruct (extractUrlsFromSitemap _ _ _) as [[rawUrls|message|] e].
  - destruct rawUrls as [|first rest].
    { injection H as <- <-. cbn. auto. }
    destruct (server.resolve_all URL_parse host_parse (first :: rest) baseUrl)
      as [resolvedUrls|].
    2: { injection H as <- <-. cbn. split; [reflexivity|]. split; [reflexivity|]. now intros []. }
    destruct (writeFile _ _ _) as [[err|] w']; cbn [fst snd] in H.
    + injection H as <- <-. cbn. split; [reflexivity|]. split; [reflexivity|]. now intros [].
    + injection H as <- <-. now destruct (Hn _ _ eq_refl).
  - injection H as <- <-. cbn. auto.
  - injection H as <- <-. cbn. split; [reflexivity|]. split; [reflexivity|]. now intros [].
Qed.

End CliProps.

(** X25 at the option [--delay 0]: the delay is 1000 ms. *)
Lemma delay_option_witness :
  cli.delay_ms cli.parseInt_example (cli.options_example "0") = 1000%Z.
Proof.
  apply (proj1 (proj2 (delay_option cli.parseInt_example (cli.options_example "0")))).
  right. reflexivity.
Defined.

(** X26 on the site of two pages, both clean: the exit code is 0. *)
Lemma main_exit_code_witness :
  exists report s,
    cli.main_example examples_more.axios_get_site (cli.options_example "1000") =
    (cli.Reported report 0, s) /\
    Forall (fun r => types.status r = types.clean \/ types.status r = types.warnings)
      (types.pages report).
Proof.
  eexists _, _. split; [vm_compute; reflexivity|].
  apply (proj1 (proj1 (proj2
    (main_exit_code examples.URL_parse examples.host_parse examples.parser_parse
       cli.parseInt_example examples_more.encodeURIComponent examples.String_trim
       examples.generateHtmlReport nat examples_more.axios_get_site
       examples_more.get_text examples_more.post_html examples_more.get_json_up
       (fun w => Z.of_nat w) (fun _ => "2024-01-01T00:00:00.000Z") (fun _ w => S w)
       (fun _ _ w => (None, S w))
       (cli.options_example "1000") 0 _ 0 _ ltac:(vm_compute; reflexivity))))).
  reflexivity.
Defined.

(** X27 on the same run: two pages, two sleeps of 1000 ms. *)
Lemma main_reports_every_url_witness :
  exists report s,
    cli.main_example examples_more.axios_get_site (cli.options_example "1000") =
    (cli.Reported report 0, s) /\
    types.totalPages (types.summary report) = 2 /\
    cli.slept nat s = [1000%Z; 1000%Z].
Proof.
  eexists _, _. split; [vm_compute; reflexivity|].
  destruct
    (main_reports_every_url examples.URL_parse examples.host_parse examples.parser_parse
       cli.parseInt_example examples_more.encodeURIComponent examples.String_trim
       examples.generateHtmlReport nat examples_more.axios_get_site
       examples_more.get_text examples_more.post_html examples_more.get_json_up
       (fun w => Z.of_nat w) (fun _ => "2024-01-01T00:00:00.000Z") (fun _ w => S w)
       (fun _ _ w => (None, S w))
       (cli.options_example "1000") 0 _ 0 _ ltac:(vm_compute; reflexivity))
    as (rawUrls & e & Hx & _ & Ht & _ & _ & Hs).
  vm_compute in Hx. injection Hx as <- _.
  split; [exact Ht|exact Hs].
Defined.

(** X28 on a sitemap whose nested sitemap cannot be fetched: exit code 1,
    no page request, no file. *)
Lemma main_stops_early_witness :
  exists message s,
    cli.main_example examples_more.axios_get_refused (cli.options_example "1000") =
    (cli.SitemapFailed message, s) /\
    cli.file nat s = None /\ cli.calls nat s = [].
Proof.
  eexists _, _. split; [vm_compute; reflexivity|].
  destruct
    (main_stops_early examples.URL_parse examples.host_parse examples.parser_parse
       cli.parseInt_example examples_more.encodeURIComponent examples.String_trim
       examples.generateHtmlReport nat examples_more.axios_get_refused
       examples_more.get_text examples_more.post_html examples_more.get_json_up
       (fun w => Z.of_nat w) (fun _ => "2024-01-01T00:00:00.000Z") (fun _ w => S w)
       (fun _ _ w => (None, S w))
       (cli.options_example "1000") 0 _ _ ltac:(vm_compute; reflexivity)
       ltac:(discriminate))
    as (Hf & _ & Hc).
  split; [exact Hf|]. apply Hc. discriminate.
Defined.

(** ** The server: the loop over a sitemap index *)

Section NestedProps.
Import types server statements nested_index.

Variable URL_parse : string -> option utils.URL.
Variable host_parse : bool -> string -> option string.
Variable String_trim : string -> string.
Variable parser_parse : string -> string + sitemap.Parsed.
Variable generateHtmlReport : Report -> string.

Local Abbreviation start_pages :=
  (start_pages URL_parse host_parse String_trim generateHtmlReport).
Local Abbreviation nested_loop :=
  (nested_loop URL_parse host_parse String_trim generateHtmlReport).
Local Abbreviation nested_fetched :=
  (nested_fetched URL_parse host_parse String_trim parser_parse generateHtmlReport).
Local Abbreviation step :=
  (step URL_parse host_parse String_trim parser_parse generateHtmlReport).
Local Abbreviation run :=
  (run URL_parse host_parse String_trim parser_parse generateHtmlReport).
Local Abbreviation gathered := (gathered parser_parse).
Local Abbreviation answer_events := (answer_events parser_parse).
Local Abbreviation loop_events := (loop_events parser_parse).

Lemma nested_fetched_loop (sitemapUrl : string) (rest rawUrls : list string)
    (resp : string + string) (clk : Clock) (s : Server) :
  exists s1,
    nested_fetched sitemapUrl rest rawUrls resp clk s =
      nested_loop rest (rawUrls ++ gathered resp) clk s1 /\
    buffered (job s1) = buffered (job s) ++ answer_events sitemapUrl resp /\
    pc s1 = pc s.
Proof.
  unfold server.nested_fetched, nested_index.gathered, nested_index.answer_events.
  destruct resp as [data|message];
    [destruct (sitemap.parseUrlsFromXml parser_parse data) as [message|[nested|inner]]|];
    rewrite ?app_nil_r; eexists; (split; [reflexivity|]); rewrite ?app_nil_r;
    split; reflexivity.
Qed.

Lemma nested_loop_run (sitemapUrls : list string) :
  forall (resps : list (string + string)) (rawUrls : list string) (s : Server)
         (clk0 clk : Clock),
    length resps = length sitemapUrls ->
    sitemap_phase (pc s) = true ->
    exists s2 clk',
      fold_left step (nested_turns clk resps) (nested_loop sitemapUrls rawUrls clk0 s) =
        start_pages (rawUrls ++ flat_map gathered resps) clk'
          (emit (sitemapindex_resolved (length (rawUrls ++ flat_map gathered resps))) s2) /\
      buffered (job s2) = buffered (job s) ++ loop_events sitemapUrls resps /\
      sitemap_phase (pc s2) = true.
Proof.
  induction sitemapUrls as [|u us IH]; intros resps rawUrls s clk0 clk Hlen Hpc;
    destruct resps as [|r rs]; try discriminate Hlen.
  - exists s, clk0. cbn. rewrite !app_nil_r. auto.
  - cbn [nested_turns map fold_left]. unfold server.nested_loop at 1.
    unfold server.step at 2. cbn [pc set_pc].
    destruct (nested_fetched_loop u us rawUrls r clk
                (set_pc (AwaitNested u us rawUrls) (emit (sitemapindex_fetching u) s)))
      as (s1 & -> & Hb1 & Hpc1).
    assert (Hlen' : length rs = length us) by (cbn in Hlen; lia).
    destruct (IH rs (rawUrls ++ gathered r) s1 clk clk Hlen')
      as (s2 & clk' & E & Hb & Hpc2); [now rewrite Hpc1|].
    exists s2, clk'. cbn [flat_map]. rewrite app_assoc.
    split; [exact E|]. split; [|exact Hpc2].
    rewrite Hb, Hb1. cbn. now rewrite <- !app_assoc.
Qed.

Lemma start_pages_extends (rawUrls : list string) (clk : Clock) (s : Server) :
  sitemap_phase (pc s) = true ->
  exists later,
    buffered (job (start_pages rawUrls clk s)) = buffered (job s) ++ later /\
    (rawUrls = [] ->
     later = [sitemap_error "No <url> entries found in the sitemap XML."; stream_end]).
Proof.
  intros Hpc. destruct rawUrls as [|first rest].
  - eexists. split; [|reflexivity]. cbn. now rewrite <- app_assoc.
  - destruct (psteps_extends _ _
                (psteps_start_pages URL_parse host_parse String_trim generateHtmlReport
                   (first :: rest) clk s Hpc)) as [es Hes].
    exists es. split; [exact Hes|discriminate].
Qed.

(** X29. The server's loop over a sitemap index goes on after a nested
    sitemap that fails.  When the nested requests have settled, the buffer
    starts with [sitemapindex_resolving], then holds for every nested
    sitemap, in order, its [sitemapindex_fetching] and the event of its
    answer ([sitemapindex_fetched] with its number of URLs, or
    [sitemapindex_fetch_error] when the request or the parsing failed), then
    [sitemapindex_resolved] with the number of URLs gathered from the
    sitemaps that answered; when none was gathered, [sitemap_error] and
    [stream_end] follow and nothing else. *)
Theorem nested_failures_are_skipped (p : Params) (clk clk' : Clock)
    (sitemapUrls : list string) (resps : list (string + string)) :
  sitemap.parseUrlsFromXml parser_parse (xml p) = inr (sitemap.sitemapindex_ sitemapUrls) ->
  length resps = length sitemapUrls ->
  exists later,
    buffered (job (run p clk (nested_turns clk' resps))) =
      sitemapindex_resolving (length sitemapUrls) sitemapUrls ::
      loop_events sitemapUrls resps ++
      sitemapindex_resolved (length (flat_map gathered resps)) :: later /\
    (flat_map gathered resps = [] ->
     later = [sitemap_error "No <url> entries found in the sitemap XML."; stream_end]).
Proof.
  intros Hx Hlen. unfold server.run, post_validate, runValidation. rewrite Hx.
  destruct (nested_loop_run sitemapUrls resps [] 
              (emit (sitemapindex_resolving (length sitemapUrls) sitemapUrls) (created p))
              clk clk' Hlen eq_refl) as (s2 & clkf & -> & Hb & Hpc).
  cbn [app] in *.
  destruct (start_pages_extends (flat_map gathered resps) clkf
              (emit (sitemapindex_resolved (length (flat_map gathered resps))) s2) Hpc)
    as (later & -> & Hl).
  exists later. split; [|exact Hl].
  cbn [emit job buffered set_conns set_job]. rewrite Hb. cbn.
  now rewrite <- !app_assoc.
Qed.

End NestedProps.

(** X29 on an index of two nested sitemaps, the second of which cannot be
    fetched: the two pages of the first are gathered. *)
Lemma nested_failures_are_skipped_witness :
  exists later,
    server.buffered (server.job
      (server.run examples.URL_parse examples.host_parse examples.String_trim
         nested_index.parser_parse_two examples.generateHtmlReport
         nested_index.index_of_two (examples.clock 0)
         (nested_index.nested_turns (examples.clock 1) nested_index.two_then_refused))) =
    server.sitemapindex_resolving 2
      ["https://example.com/nested.xml"; "https://example.com/b"] ::
    nested_index.loop_events nested_index.parser_parse_two
      ["https://example.com/nested.xml"; "https://example.com/b"]
      nested_index.two_then_refused ++
    server.sitemapindex_resolved
      (length (flat_map (nested_index.gathered nested_index.parser_parse_two)
                 nested_index.two_then_refused)) :: later.
Proof.
  destruct (nested_failures_are_skipped examples.URL_parse examples.host_parse
              examples.String_trim nested_index.parser_parse_two
              examples.generateHtmlReport
              nested_index.index_of_two (examples.clock 0) (examples.clock 1)
              ["https://example.com/nested.xml"; "https://example.com/b"]
              nested_index.two_then_refused
              ltac:(vm_compute; reflexivity) eq_refl) as (later & H & _).
  exists later. exact H.
Defined.
